(** * openpeerpower/config.py: package merge, component validation,
      core-config processing and the setup-error registry

    A shallow embedding of [openpeerpower/config.py].  Python values are a
    tree of YAML-like data, dictionaries are insertion-ordered association
    lists (the merge iterates over them and stops at the first conflict, so the
    order is observable), mutation is explicit state passing, and exceptions are
    an outcome next to the state they leave behind. *)

From Stdlib Require Import String Ascii List ZArith Bool Lia.
Import ListNotations.
Open Scope string_scope.
Open Scope list_scope.

(* ===================================================================== *)
(** * Part I: the model                                                   *)
(* ===================================================================== *)

(** ** Python values *)

Module Py.

(** The values a loaded YAML document is made of.  Floats are left out: the
    modelled code never looks inside a number. *)
#[warnings="-register-all"]
Inductive value : Type :=
| VNone
| VBool (b : bool)
| VInt (z : Z)
| VStr (s : string)
| VList (l : list value)
| VDict (d : list (string * value)).

(** An insertion-ordered [dict] with string keys. *)
Definition dict : Type := list (string * value).

(** Exceptions the modelled code can raise. *)
Inductive exn : Type :=
| Invalid (template : string) (args : list value)
    (* vol.Invalid(template.format( *args)), raised by this module *)
| SchemaInvalid
    (* a vol.Invalid raised by a validator that is not among the sources *)
| AttributeError
| KeyError
| TypeError
| IntegrationNotFound      (* openpeerpower.loader.IntegrationNotFound *)
| ImportError.

(** [except vol.Invalid]. *)
Definition is_vol_invalid (e : exn) : bool :=
  match e with
  | Invalid _ _ | SchemaInvalid => true
  | _ => false
  end.

(** How a call ends: it returns a value or raises. *)
Inductive outcome (A : Type) : Type :=
| Returns (a : A)
| Raises (e : exn).
Arguments Returns {A} a.
Arguments Raises {A} e.

(** [key in d] / [d[key]]: the entry of the first (only) occurrence. *)
Fixpoint dict_lookup {A : Type} (d : list (string * A)) (key : string)
    : option A :=
  match d with
  | [] => None
  | (k, v) :: rest => if String.eqb k key then Some v else dict_lookup rest key
  end.

(** [d.get(key, default)]. *)
Definition dict_get_default (d : dict) (key : string) (default : value) : value :=
  match dict_lookup d key with
  | Some v => v
  | None => default
  end.

(** [d.get(key)]. *)
Definition dict_get (d : dict) (key : string) : value :=
  dict_get_default d key VNone.

(** [d[key] = v]: overwrite in place when the key exists, append otherwise. *)
Fixpoint dict_set {A : Type} (d : list (string * A)) (key : string) (v : A)
    : list (string * A) :=
  match d with
  | [] => [(key, v)]
  | (k, w) :: rest =>
      if String.eqb k key then (k, v) :: rest else (k, w) :: dict_set rest key v
  end.

Definition dict_keys {A : Type} (d : list (string * A)) : list string :=
  map fst d.

(** [d.update(other)]. *)
Definition dict_update (d other : dict) : dict :=
  fold_left (fun acc kv => dict_set acc (fst kv) (snd kv)) other d.

(** [bool(v)]. *)
Definition truthy (v : value) : bool :=
  match v with
  | VNone => false
  | VBool b => b
  | VInt z => negb (Z.eqb z 0)
  | VStr s => negb (String.eqb s "")
  | VList l => match l with [] => false | _ => true end
  | VDict d => match d with [] => false | _ => true end
  end.

(** [v is None]. *)
Definition is_none (v : value) : bool :=
  match v with VNone => true | _ => false end.

(** Modelled from the spec: [cv.ensure_list] of helpers/config_validation.py,
    which is not among the sources.  The spec calls it coerce-to-list: a list
    is kept, a single value is wrapped, and null gives the empty list. *)
Definition ensure_list (v : value) : list value :=
  match v with
  | VNone => []
  | VList l => l
  | _ => [v]
  end.

(** Keys are unique at every level, as in any Python dict. *)
Fixpoint wf_value (v : value) : Prop :=
  match v with
  | VList l =>
      (fix all (l : list value) : Prop :=
         match l with [] => True | x :: r => wf_value x /\ all r end) l
  | VDict d =>
      NoDup (map fst d) /\
      (fix all (d : list (string * value)) : Prop :=
         match d with [] => True | (_, x) :: r => wf_value x /\ all r end) d
  | _ => True
  end.

Definition wf_dict (d : dict) : Prop := wf_value (VDict d).

End Py.
Import Py.

(** ** The integration loader's interface *)

Module Loader.

(** A voluptuous schema or validator: the validated value, or an exception
    (a [vol.Invalid] when the value is rejected). *)
Definition schema : Type := value -> outcome value.

(** A component's [CONFIG_SCHEMA]: the validator, and the text
    [str(CONFIG_SCHEMA.schema[DOMAIN])] that [_identify_config_schema] reads
    ([None] when that lookup raises AttributeError or KeyError). *)
Record config_schema : Type := {
  validate : schema;
  domain_schema_str : option string
}.

(** The attributes of a component module the code asks for ([hasattr],
    [getattr]); [None] is an absent attribute. *)
Record component : Type := {
  CONFIG_SCHEMA : option config_schema;
  PLATFORM_SCHEMA_BASE : option schema;
  PLATFORM_SCHEMA : option schema
}.

(** A platform module: its optional [PLATFORM_SCHEMA]. *)
Record platform : Type := {
  platform_PLATFORM_SCHEMA : option schema
}.

(** [openpeerpower.loader.Integration]. *)
Record Integration : Type := {
  domain : string;
  get_component : outcome component;
  get_platform : string -> outcome platform
}.

Definition is_some {A : Type} (o : option A) : bool :=
  match o with Some _ => true | None => false end.

End Loader.
Import Loader.

(** ** Package merge *)

Module Merge.

(** One iteration of the loop of [_recursive_merge] is described by
    [merge_items]; [rec] is the recursive call made for a nested dict.  The
    destination [conf] is whatever object the caller passed: [conf.get] raises
    AttributeError on anything but a dict, and in every branch it is the first
    use of [conf]. *)
Fixpoint merge_items (rec : value -> value -> value * outcome (option string))
    (package : list (string * value)) (conf : value) (error : option string)
    {struct package} : value * outcome (option string) :=
  match package with
  | [] => (conf, Returns error)
  | (key, pack_conf) :: rest =>
      match pack_conf with
      | VDict sub =>
          if negb (truthy pack_conf) then merge_items rec rest conf error
          else
            match conf with
            | VDict c =>
                (* conf[key] = conf.get(key, OrderedDict()) *)
                let cur := dict_get_default c key (VDict []) in
                (* the nested call mutates conf[key] in place *)
                let '(cur', o) := rec pack_conf cur in
                let conf' := VDict (dict_set c key cur') in
                match o with
                | Returns e => merge_items rec rest conf' e
                | Raises x => (conf', Raises x)
                end
            | _ => (conf, Raises AttributeError)
            end
      | VList l =>
          if negb (truthy pack_conf) then merge_items rec rest conf error
          else
            match conf with
            | VDict c =>
                let items := ensure_list (dict_get c key) ++ ensure_list pack_conf in
                merge_items rec rest (VDict (dict_set c key (VList items))) error
            | _ => (conf, Raises AttributeError)
            end
      | _ =>
          match conf with
          | VDict c =>
              if negb (is_none (dict_get c key)) then (conf, Returns (Some key))
              else merge_items rec rest (VDict (dict_set c key pack_conf)) error
          | _ => (conf, Raises AttributeError)
          end
      end
  end.

(** [_recursive_merge] seen from a dict-valued package entry. *)
Fixpoint merge_fragment (pack_conf : value) (conf : value) {struct pack_conf}
    : value * outcome (option string) :=
  match pack_conf with
  | VDict package => merge_items merge_fragment package conf None
  | _ => (conf, Returns None)
  end.

(** [_recursive_merge(conf, package)]: the mutated [conf] and either the
    returned [error] ([None] for [False], [Some key] for a key) or the
    exception raised. *)
Definition _recursive_merge (conf : value) (package : dict)
    : value * outcome (option string) :=
  merge_items merge_fragment package conf None.

(** The merge type [_identify_config_schema] reads off [str(schema)]. *)
Inductive merge_type : Type := MergeDict | MergeList | MergeOther.

(** [needle in text]. *)
Definition contains (needle text : string) : bool :=
  match String.index 0 needle text with Some _ => true | None => false end.

(** The first component of [_identify_config_schema(module)]; [None] is the
    [(None, None)] result. *)
Definition _identify_config_schema (module : component) : option merge_type :=
  match option_map domain_schema_str (CONFIG_SCHEMA module) with
  | Some (Some t_schema) =>
      if String.prefix "{" t_schema || contains "schema_with_slug_keys" t_schema
      then Some MergeDict
      else if String.prefix "[" t_schema
              || String.prefix "All(<function ensure_list" t_schema
      then Some MergeList
      else Some MergeOther
  | _ => None
  end.

(** [comp_name.split(' ')[0]]. *)
Fixpoint first_word (s : string) : string :=
  match s with
  | EmptyString => EmptyString
  | String c rest =>
      if Ascii.eqb c " "%char then EmptyString else String c (first_word rest)
  end.

(** Modelled from the spec: [cv.slug], the key check of
    [cv.schema_with_slug_keys] (helpers/config_validation.py is not among the
    sources).  The spec's glossary: lowercase letters, digits, underscore. *)
Definition slug_char (c : ascii) : bool :=
  let n := nat_of_ascii c in
  (((97 <=? n) && (n <=? 122)) || ((48 <=? n) && (n <=? 57)) || (n =? 95))%nat.

Fixpoint is_slug (s : string) : bool :=
  match s with
  | EmptyString => true
  | String c rest => slug_char c && is_slug rest
  end.

(** [vol.Any(dict, list, None)]. *)
Definition component_config_ok (v : value) : bool :=
  match v with
  | VDict _ | VList _ | VNone => true
  | _ => false
  end.

(** [vol.Schema({cv.string: vol.Any(dict, list, None)})]; keys are strings
    here, which [cv.string] accepts. *)
Definition package_ok (v : value) : bool :=
  match v with
  | VDict d => forallb (fun kv => component_config_ok (snd kv)) d
  | _ => false
  end.

(** [PACKAGES_CONFIG_SCHEMA(packages)]: every package name a slug, every
    package a dict of component configs. *)
Definition PACKAGES_CONFIG_SCHEMA (packages : dict) : outcome dict :=
  if forallb (fun kv => is_slug (fst kv) && package_ok (snd kv)) packages
  then Returns packages
  else Raises SchemaInvalid.

(** A line logged by a call [_log_pkg_error(package, component, config,
    message)]. *)
Record pkg_error : Type := {
  pe_package : string;
  pe_component : string;
  pe_message : string
}.

(** The config tree under mutation and the errors logged so far. *)
Record state : Type := {
  cfg : dict;
  errors : list pkg_error
}.

(** The state once a call has logged its line. *)
Definition logged (package comp message : string) (st : state) : state :=
  {| cfg := cfg st;
     errors := errors st ++ [{| pe_package := package; pe_component := comp;
                                pe_message := message |}] |}.

(** [_log_pkg_error(package, component, config, message)], lines 561-572,
    the default of the argument of that name: whether the call returns, having
    logged, or raises.  Before it logs it reads
    [config[CONF_CORE][CONF_PACKAGES].get(package, config)], which raises on a
    tree without that section.  The file and line it appends to the message
    are marks the YAML loader leaves on the objects; they are not modelled. *)
Definition _log_pkg_error (CONF_CORE CONF_PACKAGES : string)
    (package component : string) (config : dict) (message : string)
    : outcome unit :=
  match dict_lookup config CONF_CORE with
  | None => Raises KeyError
  | Some (VDict core) =>
      match dict_lookup core CONF_PACKAGES with
      | None => Raises KeyError
      | Some (VDict _) => Returns tt
      | Some _ => Raises AttributeError
      end
  | Some _ => Raises TypeError
  end.

Definition set_cfg (st : state) (key : string) (v : value) : state :=
  {| cfg := dict_set (cfg st) key v; errors := errors st |}.

(** [if error:] on the [Union[bool, str]] result of [_recursive_merge]. *)
Definition error_truthy (error : option string) : bool :=
  match error with
  | Some key => truthy (VStr key)
  | None => false
  end.

Definition duplicate_key_message (key : string) : string :=
  "has duplicate key '" ++ key ++ "'".

Section MergePackages.

(** [CONF_CORE] of openpeerpower.core, and [async_get_integration(opp, _)]
    of the loader. *)
Variable CONF_CORE : string.
Variable async_get_integration : string -> outcome Integration.

(** The argument [_log_pkg_error] of [merge_packages_config], a Callable:
    whether the call returns, having logged, or raises. *)
Variable logger : string -> string -> dict -> string -> outcome unit.

(** A call of the logger on the tree as it is: the line is recorded when the
    call returns, and an exception leaves the merge. *)
Definition log_pkg_error (package comp message : string) (st : state)
    : state * outcome unit :=
  match logger package comp (cfg st) message with
  | Returns _ => (logged package comp message st, Returns tt)
  | Raises e => (st, Raises e)
  end.

(** The two list-style branches: coerce both sides to lists and extend. *)
Definition append_fragment (comp_name : string) (comp_conf : value) (st : state)
    : state :=
  set_cfg st comp_name
    (VList (ensure_list (dict_get (cfg st) comp_name) ++ ensure_list comp_conf)).

(** The dict branch, from [if comp_conf is None] to the end of the loop body. *)
Definition merge_dict_component (pack_name comp_name : string) (comp_conf : value)
    (st : state) : state * outcome unit :=
  let comp_conf := if is_none comp_conf then VDict [] else comp_conf in
  match comp_conf with
  | VDict fragment =>
      let st1 :=
        match dict_lookup (cfg st) comp_name with
        | None | Some VNone => set_cfg st comp_name (VDict [])
        | Some _ => st
        end in
      match dict_get (cfg st1) comp_name with
      | VDict _ as conf =>
          let '(conf', o) := _recursive_merge conf fragment in
          let st2 := set_cfg st1 comp_name conf' in
          match o with
          | Returns error =>
              if error_truthy error
              then log_pkg_error pack_name comp_name
                     (duplicate_key_message
                        (match error with Some k => k | None => "" end)) st2
              else (st2, Returns tt)
          | Raises e => (st2, Raises e)
          end
      | _ =>
          log_pkg_error pack_name comp_name
            "cannot be merged. Dict expected in main config." st1
      end
  | _ =>
      log_pkg_error pack_name comp_name "cannot be merged. Expected a dict." st
  end.

(** The body of the inner loop of [merge_packages_config] for one
    [(comp_name, comp_conf)] of package [pack_name]. *)
Definition merge_component (pack_name comp_name : string) (comp_conf : value)
    (st : state) : state * outcome unit :=
  if String.eqb comp_name CONF_CORE then (st, Returns tt)
  else
    let domain := first_word comp_name in
    match async_get_integration domain with
    | Raises IntegrationNotFound =>
        log_pkg_error pack_name comp_name "does not exist" st
    | Raises e => (st, Raises e)
    | Returns integration =>
        match get_component integration with
        | Raises ImportError =>
            log_pkg_error pack_name comp_name "unable to import" st
        | Raises e => (st, Raises e)
        | Returns component =>
            if is_some (PLATFORM_SCHEMA component) then
              if negb (truthy comp_conf) then (st, Returns tt)
              else (append_fragment comp_name comp_conf st, Returns tt)
            else
              match CONFIG_SCHEMA component, _identify_config_schema component with
              | Some _, Some MergeList =>
                  if negb (truthy comp_conf) then (st, Returns tt)
                  else (append_fragment comp_name comp_conf st, Returns tt)
              | _, _ => merge_dict_component pack_name comp_name comp_conf st
              end
        end
    end.

(** [for comp_name, comp_conf in pack_conf.items()]. *)
Fixpoint merge_package (pack_name : string) (items : list (string * value))
    (st : state) : state * outcome unit :=
  match items with
  | [] => (st, Returns tt)
  | (comp_name, comp_conf) :: rest =>
      match merge_component pack_name comp_name comp_conf st with
      | (st', Returns _) => merge_package pack_name rest st'
      | (st', Raises e) => (st', Raises e)
      end
  end.

(** [for pack_name, pack_conf in packages.items()]. *)
Fixpoint merge_packages (packages : list (string * value)) (st : state)
    : state * outcome unit :=
  match packages with
  | [] => (st, Returns tt)
  | (pack_name, pack_conf) :: rest =>
      match pack_conf with
      | VDict items =>
          match merge_package pack_name items st with
          | (st', Returns _) => merge_packages rest st'
          | (st', Raises e) => (st', Raises e)
          end
      | _ => (st, Raises AttributeError)
      end
  end.

(** [merge_packages_config(opp, config, packages, _log_pkg_error)], the last
    argument being [logger]: the state left behind (tree and logged errors)
    and the returned tree or the exception raised. *)
Definition merge_packages_config (config : dict) (packages : dict)
    : state * outcome dict :=
  let st0 := {| cfg := config; errors := [] |} in
  match PACKAGES_CONFIG_SCHEMA packages with
  | Raises e => (st0, Raises e)
  | Returns _ =>
      match merge_packages packages st0 with
      | (st, Returns _) => (st, Returns (cfg st))
      | (st, Raises e) => (st, Raises e)
      end
  end.

End MergePackages.

(** *** Vocabulary of the statements about the merge *)

(** A value that is neither a dict nor a list: the last branch of
    [_recursive_merge]. *)
Definition is_scalar (v : value) : bool :=
  match v with
  | VDict _ | VList _ => false
  | _ => true
  end.

(** The component is merged by appending to a list: it has a
    [PLATFORM_SCHEMA], or a [CONFIG_SCHEMA] identified as a list. *)
Definition list_style (c : component) : bool :=
  is_some (PLATFORM_SCHEMA c)
  || match _identify_config_schema c with
     | Some MergeList => true
     | _ => false
     end.

(** The duplicate-key errors logged for a (component, key) pair. *)
Definition is_duplicate_error (comp key : string) (e : pkg_error) : bool :=
  String.eqb (pe_component e) comp
  && String.eqb (pe_message e) (duplicate_key_message key).

Definition duplicate_errors (comp key : string) (errs : list pkg_error)
    : list pkg_error :=
  filter (is_duplicate_error comp key) errs.

(** The keys a loop over [d] visits before it reaches [key]. *)
Fixpoint keys_before (key : string) (d : dict) : list string :=
  match d with
  | [] => []
  | (k, _) :: rest => if String.eqb k key then [] else k :: keys_before key rest
  end.

(** [st'] differs from [st] only in the entry of [comp] and in errors
    logged for [comp]. *)
Definition touches_only (comp : string) (st st' : state) : Prop :=
  (forall other, other <> comp ->
                 dict_lookup (cfg st') other = dict_lookup (cfg st) other)
  /\ exists logged, errors st' = errors st ++ logged
                    /\ Forall (fun e => pe_component e = comp) logged.

(** [st'] agrees with [st] on the entry of [comp] and on the duplicate-key
    errors logged for it. *)
Definition same_at (comp : string) (st st' : state) : Prop :=
  dict_lookup (cfg st') comp = dict_lookup (cfg st) comp
  /\ forall key, duplicate_errors comp key (errors st')
                 = duplicate_errors comp key (errors st).

(** What merging the fragment value [v] leaves under a key that the
    destination does not have: nothing for an empty dict or list, which the
    loop skips; the list or the scalar itself; and for a dict the dict that
    merging it into an empty one builds. *)
Definition merged_alone (v : value) : option value :=
  match v with
  | VDict [] | VList [] => None
  | VDict sub => Some (fst (_recursive_merge (VDict []) sub))
  | _ => Some v
  end.

(** An entry the loop of [_recursive_merge] does not skip: anything but an
    empty dict or list. *)
Definition not_skipped (v : value) : bool := is_scalar v || truthy v.

(** The fragments the packages give for a component, in package order. *)
Fixpoint fragments (comp : string) (packages : list (string * value))
    : list value :=
  match packages with
  | [] => []
  | (_, VDict items) :: rest =>
      match dict_lookup items comp with
      | Some frag => frag :: fragments comp rest
      | None => fragments comp rest
      end
  | _ :: rest => fragments comp rest
  end.

End Merge.

Import Merge.

(** ** Setup-error notification and component validation *)

Module Validate.

(** A call [persistent_notification.async_create(opp, message, title, id)]. *)
Record notification : Type := {
  n_message : string;
  n_title : string;
  n_id : string
}.

(** A call [async_log_exception(ex, domain, config, opp)]: the error line
    [_format_config_error(ex, domain, config)] is determined by these. *)
Record logged_exception : Type := {
  le_ex : exn;
  le_domain : string;
  le_config : value
}.

(** What the validator touches of [opp]: [opp.data[DATA_PERSISTENT_ERRORS]]
    ([None] until the first error), the notifications created and the error
    lines logged, both in call order. *)
Record opp_state : Type := {
  persistent_errors : option (list (string * bool));
  notifications : list notification;
  error_log : list logged_exception
}.

Definition newline : string := String "010"%char EmptyString.

(** [name.replace('_', '-')]. *)
Fixpoint replace_underscore (name : string) : string :=
  match name with
  | EmptyString => EmptyString
  | String c rest =>
      String (if Ascii.eqb c "_"%char then "-"%char else c) (replace_underscore rest)
  end.

(** [HA_COMPONENT_URL.format(a, b)]. *)
Definition HA_COMPONENT_URL (a b : string) : string :=
  "[" ++ a ++ "](https://open-peer-power.io/components/" ++ b ++ "/)".

(** The line of the notification for one registry entry. *)
Definition error_line (entry : string * bool) : string :=
  let '(name, link) := entry in
  let part := if link then HA_COMPONENT_URL (replace_underscore name) name else name in
  " - " ++ part ++ newline.

(** The notification text built from the registry. *)
Definition error_message (errors : list (string * bool)) : string :=
  "The following components and platforms could not be set up:" ++ newline ++ newline
  ++ String.concat "" (map error_line errors)
  ++ newline ++ "Please check your config.".

(** [errors.get(component) or display_link]. *)
Definition link_flag (errors : list (string * bool)) (comp : string)
    (display_link : bool) : bool :=
  match dict_lookup errors comp with
  | Some true => true
  | _ => display_link
  end.

(** [async_notify_setup_error(opp, component, display_link)]. *)
Definition async_notify_setup_error (comp : string) (display_link : bool)
    (opp : opp_state) : opp_state :=
  let errors := match persistent_errors opp with Some e => e | None => [] end in
  let errors := dict_set errors comp (link_flag errors comp display_link) in
  {| persistent_errors := Some errors;
     notifications := notifications opp ++
       [{| n_message := error_message errors; n_title := "Invalid config";
           n_id := "invalid_config" |}];
     error_log := error_log opp |}.

(** [async_log_exception(ex, domain, config, opp)] with [opp] not [None]. *)
Definition async_log_exception (ex : exn) (dom : string) (config : value)
    (opp : opp_state) : opp_state :=
  let opp := async_notify_setup_error dom true opp in
  {| persistent_errors := persistent_errors opp;
     notifications := notifications opp;
     error_log := error_log opp ++
       [{| le_ex := ex; le_domain := dom; le_config := config |}] |}.

(** [getattr(component, 'PLATFORM_SCHEMA_BASE',
            getattr(component, 'PLATFORM_SCHEMA', None))]. *)
Definition component_platform_schema_of (component : component) : option schema :=
  match PLATFORM_SCHEMA_BASE component with
  | Some s => Some s
  | None => PLATFORM_SCHEMA component
  end.

Section ProcessComponentConfig.

(** [async_get_integration(opp, _)] of the loader, and the two helpers of
    openpeerpower.helpers, which is not among the sources:
    [config_per_platform(config, domain)] lists the platform entries of the
    domain with the platform each names ([None] when it names none), and
    [extract_domain_configs(config, domain)] lists the keys of [config] that
    belong to the domain. *)
Variable async_get_integration : string -> outcome Integration.
Variable config_per_platform : dict -> string -> list (option string * value).
Variable extract_domain_configs : dict -> string -> list string.

(** The [try] around [async_get_integration(opp, p_name)] and
    [p_integration.get_platform(domain)]. *)
Definition resolve_platform (p_name dom : string) : outcome platform :=
  match async_get_integration p_name with
  | Returns p_integration => get_platform p_integration dom
  | Raises e => Raises e
  end.

(** The body of the loop over [config_per_platform(config, domain)] for one
    entry: the grown [platforms] list, or an exception that is not caught. *)
Definition validate_platform (dom : string) (component_platform_schema : schema)
    (entry : option string * value) (platforms : list value) (opp : opp_state)
    : opp_state * outcome (list value) :=
  let '(p_name, p_config) := entry in
  match component_platform_schema p_config with
  | Raises ex =>
      if is_vol_invalid ex
      then (async_log_exception ex dom p_config opp, Returns platforms)
      else (opp, Raises ex)
  | Returns p_validated =>
      match p_name with
      | None => (opp, Returns (platforms ++ [p_validated]))
      | Some p_name =>
          match resolve_platform p_name dom with
          | Raises IntegrationNotFound | Raises ImportError =>
              (opp, Returns platforms)
          | Raises e => (opp, Raises e)
          | Returns platform =>
              match platform_PLATFORM_SCHEMA platform with
              | Some platform_schema =>
                  match platform_schema p_config with
                  | Raises ex =>
                      if is_vol_invalid ex
                      then (async_log_exception ex (dom ++ "." ++ p_name)
                              p_config opp, Returns platforms)
                      else (opp, Raises ex)
                  | Returns p_validated => (opp, Returns (platforms ++ [p_validated]))
                  end
              | None => (opp, Returns (platforms ++ [p_validated]))
              end
          end
      end
  end.

(** [for p_name, p_config in config_per_platform(config, domain)]. *)
Fixpoint validate_platforms (dom : string) (component_platform_schema : schema)
    (entries : list (option string * value)) (platforms : list value)
    (opp : opp_state) : opp_state * outcome (list value) :=
  match entries with
  | [] => (opp, Returns platforms)
  | entry :: rest =>
      match validate_platform dom component_platform_schema entry platforms opp with
      | (opp', Returns platforms') =>
          validate_platforms dom component_platform_schema rest platforms' opp'
      | (opp', Raises e) => (opp', Raises e)
      end
  end.

(** The rebuilt config: every key of the domain removed, the validated
    platform list put under [domain]. *)
Definition rebuild_config (config : dict) (dom : string) (platforms : list value)
    : dict :=
  let filter_keys := extract_domain_configs config dom in
  let config' :=
    filter (fun kv => negb (existsb (String.eqb (fst kv)) filter_keys)) config in
  dict_set config' dom (VList platforms).

(** [async_process_component_config(opp, config, integration)]: [Returns
    None] is Python's [None]. *)
Definition async_process_component_config (config : dict)
    (integration : Integration) (opp : opp_state)
    : opp_state * outcome (option value) :=
  let dom := domain integration in
  match get_component integration with
  | Raises e => (opp, Raises e)
  | Returns component =>
      match CONFIG_SCHEMA component with
      | Some config_schema =>
          match validate config_schema (VDict config) with
          | Returns validated => (opp, Returns (Some validated))
          | Raises ex =>
              if is_vol_invalid ex
              then (async_log_exception ex dom (VDict config) opp, Returns None)
              else (opp, Raises ex)
          end
      | None =>
          match component_platform_schema_of component with
          | None => (opp, Returns (Some (VDict config)))
          | Some component_platform_schema =>
              match validate_platforms dom component_platform_schema
                      (config_per_platform config dom) [] opp with
              | (opp', Returns platforms) =>
                  (opp', Returns (Some (VDict (rebuild_config config dom platforms))))
              | (opp', Raises e) => (opp', Raises e)
              end
          end
      end
  end.

(** *** Vocabulary of the statements about validation *)

(** What the spec says of one platform entry: it survives when the
    domain-level platform schema accepts it and, if it names a platform, the
    platform resolves and its own schema, when it has one, accepts the entry
    too; the survivor is the validated entry. *)
Definition validated_entry (dom : string) (component_platform_schema : schema)
    (entry : option string * value) : option value :=
  let '(p_name, p_config) := entry in
  match component_platform_schema p_config, p_name with
  | Returns p_validated, None => Some p_validated
  | Returns p_validated, Some p_name =>
      match resolve_platform p_name dom with
      | Returns platform =>
          match platform_PLATFORM_SCHEMA platform with
          | Some platform_schema =>
              match platform_schema p_config with
              | Returns p_validated => Some p_validated
              | Raises _ => None
              end
          | None => Some p_validated
          end
      | Raises _ => None
      end
  | Raises _, _ => None
  end.

Definition surviving_entries (dom : string) (component_platform_schema : schema)
    (entries : list (option string * value)) : list value :=
  flat_map (fun entry =>
              match validated_entry dom component_platform_schema entry with
              | Some v => [v]
              | None => []
              end) entries.

(** The collaborators fail only the way the code expects: a schema rejects
    with [vol.Invalid], and a platform that does not resolve raises
    IntegrationNotFound or ImportError. *)
Definition rejects_with_invalid (s : schema) : Prop :=
  forall v e, s v = Raises e -> is_vol_invalid e = true.

Definition platforms_resolve_or_are_missing (dom : string) : Prop :=
  forall p_name,
    match resolve_platform p_name dom with
    | Returns platform =>
        forall s, platform_PLATFORM_SCHEMA platform = Some s -> rejects_with_invalid s
    | Raises e => e = IntegrationNotFound \/ e = ImportError
    end.

(** The loader never raises [vol.Invalid] itself. *)
Definition loader_raises_no_invalid (dom : string) : Prop :=
  forall p_name e, resolve_platform p_name dom = Raises e -> is_vol_invalid e = false.

End ProcessComponentConfig.

(** Later calls of [async_notify_setup_error], in order. *)
Definition notify_all (calls : list (string * bool)) (opp : opp_state) : opp_state :=
  fold_left (fun opp call => async_notify_setup_error (fst call) (snd call) opp)
    calls opp.

End Validate.
Import Validate.

(** ** Core configuration *)

Module Core.

(** The names of openpeerpower.const (and [DOMAIN] of openpeerpower.core, and
    [TEMP_CELSIUS]) that config.py imports; the module is not among the
    sources, so the model takes their values as given. *)
Record constants : Type := {
  CONF_LATITUDE : string;
  CONF_LONGITUDE : string;
  CONF_NAME : string;
  CONF_ELEVATION : string;
  CONF_TIME_ZONE : string;
  CONF_UNIT_SYSTEM : string;
  CONF_UNIT_SYSTEM_METRIC : string;
  CONF_UNIT_SYSTEM_IMPERIAL : string;
  CONF_TEMPERATURE_UNIT : string;
  TEMP_CELSIUS : string;
  CONF_WHITELIST_EXTERNAL_DIRS : string;
  CONF_CUSTOMIZE : string;
  CONF_CUSTOMIZE_DOMAIN : string;
  CONF_CUSTOMIZE_GLOB : string;
  CONF_PACKAGES : string;
  CONF_CORE : string;
  CONF_AUTH_PROVIDERS : string;
  CONF_AUTH_MFA_MODULES : string;
  CONF_TYPE : string;
  CONF_ID : string
}.

(** [hash(v)] succeeds. *)
Definition hashable (v : value) : bool :=
  match v with
  | VList _ | VDict _ => false
  | _ => true
  end.

(** [a == b] when one side is a hashable scalar ([True == 1] holds in
    Python); a list or dict never equals a scalar. *)
Definition scalar_eq (a b : value) : bool :=
  match a, b with
  | VNone, VNone => true
  | VBool x, VBool y => Bool.eqb x y
  | VBool x, VInt z | VInt z, VBool x => Z.eqb (if x then 1 else 0) z
  | VInt x, VInt y => Z.eqb x y
  | VStr x, VStr y => String.eqb x y
  | _, _ => false
  end.

(** ** Duplicate checks of the auth lists *)

(** The first key of [keys] that equals one seen before it, the keys of
    [seen] counting as seen from the start. *)
Fixpoint first_repeat {Key : Type} (eqb : Key -> Key -> bool)
    (seen keys : list Key) : option Key :=
  match keys with
  | [] => None
  | k :: rest =>
      if existsb (eqb k) seen then Some k
      else first_repeat eqb (k :: seen) rest
  end.

(** No key of the list equals an earlier one. *)
Definition unique_keys {Key : Type} (eqb : Key -> Key -> bool) (keys : list Key)
    : Prop :=
  ForallOrdPairs (fun earlier later => eqb later earlier = false) keys.

(** [later] comes after [earlier] in the list and equals it. *)
Definition repeats {Key : Type} (eqb : Key -> Key -> bool) (keys : list Key)
    (earlier later : Key) : Prop :=
  exists l1 l2 l3, keys = l1 ++ earlier :: l2 ++ later :: l3
                   /\ eqb later earlier = true.

Section Duplicates.

Variable K : constants.

(** [(config[CONF_TYPE], config.get(CONF_ID))]. *)
Definition provider_key (config : value) : outcome (value * value) :=
  match config with
  | VDict d =>
      match dict_lookup d (CONF_TYPE K) with
      | Some t => Returns (t, dict_get d (CONF_ID K))
      | None => Raises KeyError
      end
  | _ => Raises TypeError
  end.

Definition pair_eq (a b : value * value) : bool :=
  scalar_eq (fst a) (fst b) && scalar_eq (snd a) (snd b).

Definition duplicate_auth_provider : string :=
  "Duplicate auth provider {} found. Please add unique IDs if " ++
  "you want to have the same auth provider twice".

(** The loop of [_no_duplicate_auth_provider]; [config_keys] is the set. *)
Fixpoint provider_loop (configs : list value) (config_keys : list (value * value))
    : outcome unit :=
  match configs with
  | [] => Returns tt
  | config :: rest =>
      match provider_key config with
      | Raises e => Raises e
      | Returns key =>
          if negb (hashable (fst key) && hashable (snd key)) then Raises TypeError
          else if existsb (pair_eq key) config_keys
          then Raises (Invalid duplicate_auth_provider [fst key])
          else provider_loop rest (key :: config_keys)
      end
  end.

(** [_no_duplicate_auth_provider(configs)]. *)
Definition _no_duplicate_auth_provider (configs : list value)
    : outcome (list value) :=
  match provider_loop configs [] with
  | Returns _ => Returns configs
  | Raises e => Raises e
  end.

(** [config.get(CONF_ID, config[CONF_TYPE])], next to [config[CONF_TYPE]]
    for the message: the attribute [get] is looked up first, then the default
    is evaluated. *)
Definition mfa_key (config : value) : outcome (value * value) :=
  match config with
  | VDict d =>
      match dict_lookup d (CONF_TYPE K) with
      | Some t => Returns (dict_get_default d (CONF_ID K) t, t)
      | None => Raises KeyError
      end
  | _ => Raises AttributeError
  end.

Definition duplicate_mfa_module : string :=
  "Duplicate mfa module {} found. Please add unique IDs if " ++
  "you want to have the same mfa module twice".

(** The loop of [_no_duplicate_auth_mfa_module]. *)
Fixpoint mfa_loop (configs : list value) (config_keys : list value)
    : outcome unit :=
  match configs with
  | [] => Returns tt
  | config :: rest =>
      match mfa_key config with
      | Raises e => Raises e
      | Returns (key, t) =>
          if negb (hashable key) then Raises TypeError
          else if existsb (scalar_eq key) config_keys
          then Raises (Invalid duplicate_mfa_module [t])
          else mfa_loop rest (key :: config_keys)
      end
  end.

(** [_no_duplicate_auth_mfa_module(configs)]. *)
Definition _no_duplicate_auth_mfa_module (configs : list value)
    : outcome (list value) :=
  match mfa_loop configs [] with
  | Returns _ => Returns configs
  | Raises e => Raises e
  end.

(** voluptuous' [[entry_schema]]: every element validated by the schema. *)
Fixpoint vol_list (entry_schema : schema) (l : list value)
    : outcome (list value) :=
  match l with
  | [] => Returns []
  | x :: rest =>
      match entry_schema x with
      | Raises e => Raises e
      | Returns x' =>
          match vol_list entry_schema rest with
          | Raises e => Raises e
          | Returns rest' => Returns (x' :: rest')
          end
      end
  end.

(** The validators [CORE_CONFIG_SCHEMA] puts under [CONF_AUTH_PROVIDERS] and
    [CONF_AUTH_MFA_MODULES]:
    [vol.All(cv.ensure_list, [entry_schema], _no_duplicate_...)].  The entry
    schemas extend schemas of the auth package, which is not among the
    sources. *)
Definition auth_providers_schema (entry_schema : schema) (v : value)
    : outcome (list value) :=
  match vol_list entry_schema (ensure_list v) with
  | Raises e => Raises e
  | Returns configs => _no_duplicate_auth_provider configs
  end.

Definition auth_mfa_modules_schema (entry_schema : schema) (v : value)
    : outcome (list value) :=
  match vol_list entry_schema (ensure_list v) with
  | Raises e => Raises e
  | Returns configs => _no_duplicate_auth_mfa_module configs
  end.

(** An entry the duplicate check of the providers can key: a dict with a
    type, whose type and id are hashable. *)
Definition keyed_provider (config : value) (key : value * value) : Prop :=
  provider_key config = Returns key
  /\ hashable (fst key) = true /\ hashable (snd key) = true.

(** The same for the MFA modules: [key] is the pair of the set key (the id
    when the entry has one, else the type) and the type. *)
Definition keyed_mfa_module (config : value) (key : value * value) : Prop :=
  mfa_key config = Returns key /\ hashable (fst key) = true.

Definition mfa_eq (a b : value * value) : bool := scalar_eq (fst a) (fst b).

End Duplicates.

(** ** [async_process_ha_core_config] *)

Inductive unit_system : Type := METRIC_SYSTEM | IMPERIAL_SYSTEM.

(** A time zone object, named by its zone. *)
Definition tzinfo : Type := string.

(** [opp.config]: the fields the function reads or writes; [VNone] and
    [None] are Python's [None]. *)
Record Config : Type := {
  latitude : value;
  longitude : value;
  elevation : value;
  location_name : value;
  time_zone : option tzinfo;
  units : option unit_system;
  whitelist_external_dirs : list value
}.

(** The result of [loc_util.async_detect_location_info]. *)
Record LocationInfo : Type := {
  li_latitude : value;
  li_longitude : value;
  li_use_metric : bool;
  li_city : value;
  li_time_zone : value
}.

(** What the function does to the world outside [opp], in order. *)
Inductive event : Type :=
| DetectLocationInfo                      (* loc_util.async_detect_location_info *)
| GetElevation (lat lon : value)          (* loc_util.async_get_elevation *)
| SetDefaultTimeZone (tz : tzinfo)        (* date_util.set_default_time_zone *)
| LogInvalidTimeZone (time_zone_str : value)
| LogInvalidCustomize (package : string)
| LogDeprecatedTemperatureUnit (unit : value) (u : unit_system)
| LogNoLocation
| LogAutoDetected (discovered : list (string * value)).

(** A network lookup. *)
Definition is_lookup (e : event) : bool :=
  match e with
  | DetectLocationInfo | GetElevation _ _ => true
  | _ => false
  end.

(** [opp]: the auth manager once built (from which provider and module
    configs), [opp.config], [opp.data[DATA_CUSTOMIZE]] (the three rule
    sets given to [EntityValues]) and the trace of events. *)
Record opp_state : Type := {
  opp_auth : option (value * value);
  opp_config : Config;
  data_customize : option (dict * dict * dict);
  trace : list event
}.

(** State and exceptions: a step maps [opp] to the [opp] it leaves and what
    it returns or raises. *)
Definition M (A : Type) : Type := opp_state -> opp_state * outcome A.

Definition ret {A : Type} (a : A) : M A := fun opp => (opp, Returns a).

Definition bind {A B : Type} (m : M A) (k : A -> M B) : M B :=
  fun opp =>
    match m opp with
    | (opp', Returns a) => k a opp'
    | (opp', Raises e) => (opp', Raises e)
    end.

Definition lift {A : Type} (o : outcome A) : M A := fun opp => (opp, o).

Definition emit (e : event) : M unit :=
  fun opp =>
    ({| opp_auth := opp_auth opp; opp_config := opp_config opp;
        data_customize := data_customize opp; trace := trace opp ++ [e] |},
     Returns tt).

Definition get_hac : M Config := fun opp => (opp, Returns (opp_config opp)).

Definition set_hac (f : Config -> Config) : M unit :=
  fun opp =>
    ({| opp_auth := opp_auth opp; opp_config := f (opp_config opp);
        data_customize := data_customize opp; trace := trace opp |},
     Returns tt).

Definition when (b : bool) (m : M unit) : M unit := if b then m else ret tt.

Notation "x <- m ;; k" := (bind m (fun x => k))
  (at level 61, m at next level, right associativity).
Notation "m ;;; k" := (bind m (fun _ => k))
  (at level 61, right associativity).

(** A step that performs no network lookup. *)
Definition quiet {A : Type} (m : M A) : Prop :=
  forall opp opp' o,
    m opp = (opp', o) ->
    filter is_lookup (trace opp') = filter is_lookup (trace opp).

Definition with_latitude (v : value) (c : Config) : Config :=
  {| latitude := v; longitude := longitude c; elevation := elevation c;
     location_name := location_name c; time_zone := time_zone c;
     units := units c; whitelist_external_dirs := whitelist_external_dirs c |}.
Definition with_longitude (v : value) (c : Config) : Config :=
  {| latitude := latitude c; longitude := v; elevation := elevation c;
     location_name := location_name c; time_zone := time_zone c;
     units := units c; whitelist_external_dirs := whitelist_external_dirs c |}.
Definition with_elevation (v : value) (c : Config) : Config :=
  {| latitude := latitude c; longitude := longitude c; elevation := v;
     location_name := location_name c; time_zone := time_zone c;
     units := units c; whitelist_external_dirs := whitelist_external_dirs c |}.
Definition with_location_name (v : value) (c : Config) : Config :=
  {| latitude := latitude c; longitude := longitude c; elevation := elevation c;
     location_name := v; time_zone := time_zone c;
     units := units c; whitelist_external_dirs := whitelist_external_dirs c |}.
Definition with_time_zone (tz : tzinfo) (c : Config) : Config :=
  {| latitude := latitude c; longitude := longitude c; elevation := elevation c;
     location_name := location_name c; time_zone := Some tz;
     units := units c; whitelist_external_dirs := whitelist_external_dirs c |}.
Definition with_units (u : unit_system) (c : Config) : Config :=
  {| latitude := latitude c; longitude := longitude c; elevation := elevation c;
     location_name := location_name c; time_zone := time_zone c;
     units := Some u; whitelist_external_dirs := whitelist_external_dirs c |}.
Definition with_whitelist (dirs : list value) (c : Config) : Config :=
  {| latitude := latitude c; longitude := longitude c; elevation := elevation c;
     location_name := location_name c; time_zone := time_zone c;
     units := units c; whitelist_external_dirs := dirs |}.

(** [None not in (hac.latitude, hac.longitude, hac.units, hac.time_zone,
    hac.elevation)]. *)
Definition all_known (hac : Config) : bool :=
  negb (is_none (latitude hac)) && negb (is_none (longitude hac))
  && is_some (units hac) && is_some (time_zone hac)
  && negb (is_none (elevation hac)).

(** [None in (hac.latitude, hac.longitude, hac.units, hac.time_zone)]. *)
Definition location_missing (hac : Config) : bool :=
  is_none (latitude hac) || is_none (longitude hac)
  || negb (is_some (units hac)) || negb (is_some (time_zone hac)).

Section ProcessCore.

Variable K : constants.

(** The collaborators: the schema objects built from validators of
    helpers/config_validation.py, [date_util.get_time_zone],
    [opp.config.path('www')], and the answers of the two network lookups
    during this run. *)
Variable CORE_CONFIG_SCHEMA : value -> outcome dict.
Variable CUSTOMIZE_CONFIG_SCHEMA : value -> outcome dict.
Variable get_time_zone : value -> option tzinfo.
Variable www_path : value.
Variable async_detect_location_info : option LocationInfo.
Variable async_get_elevation : value -> value -> value.

(** [auth.auth_manager_from_config(opp, provider_configs, module_configs)]
    of the auth package: it returns a manager, or raises when a provider or
    module of the configs cannot be loaded. *)
Variable auth_manager_from_config : value -> value -> outcome unit.

(** [obj[key]] and [obj.items()] on a value that should be a dict. *)
Definition subscript (d : dict) (key : string) : outcome value :=
  match dict_lookup d key with
  | Some v => Returns v
  | None => Raises KeyError
  end.

Definition as_dict (v : value) : outcome dict :=
  match v with
  | VDict d => Returns d
  | _ => Raises TypeError
  end.

Definition unit_system_name (u : unit_system) : string :=
  match u with
  | METRIC_SYSTEM => CONF_UNIT_SYSTEM_METRIC K
  | IMPERIAL_SYSTEM => CONF_UNIT_SYSTEM_IMPERIAL K
  end.

(** Lines 416-431: the provider configs the manager is built from. *)
Definition auth_conf (config : dict) (api_password trusted_networks : value)
    : value :=
  match dict_get config (CONF_AUTH_PROVIDERS K) with
  | VNone =>
      VList
        ([VDict [("type", VStr "openpeerpower")]]
         ++ (if truthy api_password
             then [VDict [("type", VStr "legacy_api_password");
                          ("api_password", api_password)]]
             else [])
         ++ (if truthy trusted_networks
             then [VDict [("type", VStr "trusted_networks");
                          ("trusted_networks", trusted_networks)]]
             else []))
  | conf => conf
  end.

(** Lines 433-435: the MFA module configs. *)
Definition mfa_conf (config : dict) : value :=
  dict_get_default config (CONF_AUTH_MFA_MODULES K)
    (VList [VDict [("type", VStr "totp"); ("id", VStr "totp");
                   ("name", VStr "Authenticator app")]]).

(** Lines 414-440: the auth manager is built only when [opp] has none.
    [opp.auth] is assigned once [auth_manager_from_config] has returned, and
    the manager is kept as the two configs it was given; when the call raises,
    [opp] is left without a manager and the exception leaves the function. *)
Definition setup_auth (config : dict) (api_password trusted_networks : value)
    : M unit :=
  fun opp =>
    match opp_auth opp with
    | Some _ => (opp, Returns tt)
    | None =>
        let auth_conf := auth_conf config api_password trusted_networks in
        let mfa_conf := mfa_conf config in
        match auth_manager_from_config auth_conf mfa_conf with
        | Returns _ =>
            ({| opp_auth := Some (auth_conf, mfa_conf);
                opp_config := opp_config opp;
                data_customize := data_customize opp; trace := trace opp |},
             Returns tt)
        | Raises e => (opp, Raises e)
        end
    end.

(** The nested helper [set_time_zone(time_zone_str)]. *)
Definition set_time_zone (time_zone_str : value) : M unit :=
  if is_none time_zone_str then ret tt
  else
    match get_time_zone time_zone_str with
    | Some tz => set_hac (with_time_zone tz) ;;; emit (SetDefaultTimeZone tz)
    | None => emit (LogInvalidTimeZone time_zone_str)
    end.

(** Lines 457-462: explicit keys set the matching attribute. *)
Definition apply_explicit_keys (config : dict) : M unit :=
  let set_if (key : string) (f : value -> Config -> Config) : M unit :=
    match dict_lookup config key with
    | Some v => set_hac (f v)
    | None => ret tt
    end in
  set_if (CONF_LATITUDE K) with_latitude ;;;
  set_if (CONF_LONGITUDE K) with_longitude ;;;
  set_if (CONF_NAME K) with_location_name ;;;
  set_if (CONF_ELEVATION K) with_elevation.

(** [set(v)]: the elements of an iterable, all hashable. *)
Definition set_of (v : value) : outcome (list value) :=
  match v with
  | VList l => if forallb hashable l then Returns l else Raises TypeError
  | VDict d => Returns (map (fun kv => VStr (fst kv)) d)
  | VStr s => Returns (map (fun c => VStr (String c EmptyString)) (list_ascii_of_string s))
  | _ => Raises TypeError
  end.

(** Lines 466-470; the set is kept as a list. *)
Definition init_whitelist (config : dict) : M unit :=
  set_hac (with_whitelist [www_path]) ;;;
  match dict_lookup config (CONF_WHITELIST_EXTERNAL_DIRS K) with
  | Some v =>
      dirs <- lift (set_of v) ;;
      set_hac (with_whitelist (www_path :: dirs))
  | None => ret tt
  end.

(** Lines 477-491: the customize rules of one package. *)
Definition customize_package (name : string) (pkg : value)
    (cust : dict * dict * dict) : M (dict * dict * dict) :=
  pkg <- lift (match pkg with VDict d => Returns d | _ => Raises AttributeError end) ;;
  let pkg_cust := dict_get pkg (CONF_CORE K) in
  if is_none pkg_cust then ret cust
  else
    match CUSTOMIZE_CONFIG_SCHEMA pkg_cust with
    | Raises ex =>
        if is_vol_invalid ex then emit (LogInvalidCustomize name) ;;; ret cust
        else lift (Raises ex)
    | Returns pkg_cust =>
        let '(cust_exact, cust_domain, cust_glob) := cust in
        exact <- lift (match subscript pkg_cust (CONF_CUSTOMIZE K) with
                       | Returns v => as_dict v | Raises e => Raises e end) ;;
        let cust_exact := dict_update cust_exact exact in
        dom <- lift (match subscript pkg_cust (CONF_CUSTOMIZE_DOMAIN K) with
                     | Returns v => as_dict v | Raises e => Raises e end) ;;
        let cust_domain := dict_update cust_domain dom in
        glob <- lift (match subscript pkg_cust (CONF_CUSTOMIZE_GLOB K) with
                      | Returns v => as_dict v | Raises e => Raises e end) ;;
        ret (cust_exact, cust_domain, dict_update cust_glob glob)
    end.

Fixpoint customize_packages (packages : list (string * value))
    (cust : dict * dict * dict) : M (dict * dict * dict) :=
  match packages with
  | [] => ret cust
  | (name, pkg) :: rest =>
      cust' <- customize_package name pkg cust ;;
      customize_packages rest cust'
  end.

(** Lines 472-494. *)
Definition process_customize (config : dict) : M unit :=
  let field (key : string) : M dict :=
    lift (match subscript config key with
          | Returns v => as_dict v | Raises e => Raises e end) in
  cust_exact <- field (CONF_CUSTOMIZE K) ;;
  cust_domain <- field (CONF_CUSTOMIZE_DOMAIN K) ;;
  cust_glob <- field (CONF_CUSTOMIZE_GLOB K) ;;
  packages <- field (CONF_PACKAGES K) ;;
  cust <- customize_packages packages (cust_exact, cust_domain, cust_glob) ;;
  fun opp =>
    ({| opp_auth := opp_auth opp; opp_config := opp_config opp;
        data_customize := Some cust; trace := trace opp |}, Returns tt).

(** Lines 496-510: the unit system. *)
Definition resolve_unit_system (config : dict) : M unit :=
  match dict_lookup config (CONF_UNIT_SYSTEM K) with
  | Some v =>
      if scalar_eq v (VStr (CONF_UNIT_SYSTEM_IMPERIAL K))
      then set_hac (with_units IMPERIAL_SYSTEM)
      else set_hac (with_units METRIC_SYSTEM)
  | None =>
      match dict_lookup config (CONF_TEMPERATURE_UNIT K) with
      | Some unit =>
          let u := if scalar_eq unit (VStr (TEMP_CELSIUS K))
                   then METRIC_SYSTEM else IMPERIAL_SYSTEM in
          set_hac (with_units u) ;;;
          emit (LogDeprecatedTemperatureUnit unit u)
      | None => ret tt
      end
  end.

(** Lines 520-545, after the lookup answered [info]. *)
Definition apply_location_info (info : LocationInfo)
    : M (list (string * value)) :=
  hac <- get_hac ;;
  d1 <- (if is_none (latitude hac) && is_none (longitude hac)
         then set_hac (fun c => with_longitude (li_longitude info)
                                  (with_latitude (li_latitude info) c)) ;;;
              ret [("latitude", li_latitude info);
                   ("longitude", li_longitude info)]
         else ret []) ;;
  hac <- get_hac ;;
  d2 <- (if is_some (units hac) then ret []
         else
           let u := if li_use_metric info then METRIC_SYSTEM else IMPERIAL_SYSTEM in
           set_hac (with_units u) ;;;
           ret [(CONF_UNIT_SYSTEM K, VStr (unit_system_name u))]) ;;
  hac <- get_hac ;;
  d3 <- (if is_none (location_name hac)
         then set_hac (with_location_name (li_city info)) ;;;
              ret [("name", li_city info)]
         else ret []) ;;
  hac <- get_hac ;;
  d4 <- (if is_some (time_zone hac) then ret []
         else set_time_zone (li_time_zone info) ;;;
              ret [("time_zone", li_time_zone info)]) ;;
  ret (d1 ++ d2 ++ d3 ++ d4).

(** Lines 547-558: the elevation lookup and the aggregated warning. *)
Definition detect_elevation (discovered : list (string * value)) : M unit :=
  hac <- get_hac ;;
  discovered <-
    (if is_none (elevation hac) && negb (is_none (latitude hac))
        && negb (is_none (longitude hac))
     then
       emit (GetElevation (latitude hac) (longitude hac)) ;;;
       let elevation := async_get_elevation (latitude hac) (longitude hac) in
       set_hac (with_elevation elevation) ;;;
       ret (discovered ++ [("elevation", elevation)])
     else ret discovered) ;;
  match discovered with
  | [] => ret tt
  | _ => emit (LogAutoDetected discovered)
  end.

(** Lines 512-558: the shortcut and the auto-detection. *)
Definition auto_detect : M unit :=
  hac <- get_hac ;;
  if all_known hac then ret tt
  else if location_missing hac then
    emit DetectLocationInfo ;;;
    match async_detect_location_info with
    | None => emit LogNoLocation
    | Some info =>
        discovered <- apply_location_info info ;;
        detect_elevation discovered
    end
  else detect_elevation [].

(** Lines 412-510: everything before the shortcut; returns nothing. *)
Definition apply_core_config (config : value)
    (api_password trusted_networks : value) : M unit :=
  config <- lift (CORE_CONFIG_SCHEMA config) ;;
  setup_auth config api_password trusted_networks ;;;
  apply_explicit_keys config ;;;
  set_time_zone (dict_get config (CONF_TIME_ZONE K)) ;;;
  init_whitelist config ;;;
  process_customize config ;;;
  resolve_unit_system config.

(** [async_process_ha_core_config(opp, config, api_password,
    trusted_networks)]. *)
Definition async_process_ha_core_config (config : value)
    (api_password trusted_networks : value) : M unit :=
  apply_core_config config api_password trusted_networks ;;;
  auto_detect.

End ProcessCore.

End Core.
Import Core.

(** ** Loading the configuration file *)

Module Bootstrap.

Definition YAML_CONFIG_FILE : string := "configuration.yaml".

(** How the loading functions end.  [OpenPeerPowerError] is the error of
    openpeerpower.exceptions that this module raises itself, with a message
    made from [template] and a path; [FileNotFoundError] is what the YAML
    loader raises for a missing file. *)
Inductive failure : Type :=
| OpenPeerPowerError (template : string)
| FileNotFoundError
| Uncaught (e : exn).

Inductive result (A : Type) : Type :=
| Done (a : A)
| Failed (f : failure).
Arguments Done {A} a.
Arguments Failed {A} f.

(** [value or {}]. *)
Definition or_empty_dict (v : value) : value :=
  if truthy v then v else VDict [].

(** Lines 357-358: [for key, value in conf_dict.items(): conf_dict[key] =
    value or {}].  The loop assigns to the dict it iterates; no key is added,
    so every item is visited once, with the value it had. *)
Definition none_to_dict (conf_dict : dict) : dict :=
  fold_left (fun conf kv => dict_set conf (fst kv) (or_empty_dict (snd kv)))
    conf_dict conf_dict.

Definition not_a_dictionary : string :=
  "The configuration file {} does not contain a dictionary".

Section Load.

(** The file system and the YAML loader: [os.path.join], [os.path.isfile]
    and [load_yaml] of openpeerpower.util.yaml. *)
Variable path_join : string -> string -> string.
Variable isfile : string -> bool.
Variable load_yaml : string -> result value.

(** [find_config_file(config_dir)]. *)
Definition find_config_file (config_dir : option string) : option string :=
  match config_dir with
  | None => None
  | Some config_dir =>
      let config_path := path_join config_dir YAML_CONFIG_FILE in
      if isfile config_path then Some config_path else None
  end.

(** [load_yaml_config_file(config_path)]: the messages given to
    [_LOGGER.error] and how the call ends. *)
Definition load_yaml_config_file (config_path : string)
    : list string * result dict :=
  match load_yaml config_path with
  | Failed FileNotFoundError =>
      ([], Failed (OpenPeerPowerError "Config file not found: {}"))
  | Failed f => ([], Failed f)
  | Done (VDict conf_dict) => ([], Done (none_to_dict conf_dict))
  | Done _ => ([not_a_dictionary], Failed (OpenPeerPowerError not_a_dictionary))
  end.

(** [CONF_CORE] of openpeerpower.core, [CONF_PACKAGES] of
    openpeerpower.const and [async_get_integration(opp, _)] of the loader. *)
Variable CONF_CORE : string.
Variable CONF_PACKAGES : string.
Variable async_get_integration : string -> outcome Integration.

(** Lines 324-326: [config.get(CONF_CORE, {}).get(CONF_PACKAGES, {})]. *)
Definition configured_packages (config : dict) : outcome value :=
  match dict_get_default config CONF_CORE (VDict []) with
  | VDict core_config =>
      Returns (dict_get_default core_config CONF_PACKAGES (VDict []))
  | _ => Raises AttributeError
  end.

(** [async_opp_config_yaml(opp)], [config_dir] being
    [opp.config.config_dir]: the messages logged, the package errors logged
    by the merge, and the config returned.  A [packages] value that is not a
    dict is refused by [PACKAGES_CONFIG_SCHEMA] before anything is merged. *)
Definition async_opp_config_yaml (config_dir : option string)
    : list string * list pkg_error * result dict :=
  match find_config_file config_dir with
  | None => ([], [], Failed (OpenPeerPowerError "Config file not found in: {}"))
  | Some path =>
      match load_yaml_config_file path with
      | (log, Failed f) => (log, [], Failed f)
      | (log, Done config) =>
          match configured_packages config with
          | Raises e => (log, [], Failed (Uncaught e))
          | Returns (VDict packages) =>
              match merge_packages_config CONF_CORE async_get_integration
                      (_log_pkg_error CONF_CORE CONF_PACKAGES) config packages with
              | (st, Returns _) => (log, errors st, Done (cfg st))
              | (st, Raises e) => (log, errors st, Failed (Uncaught e))
              end
          | Returns _ => (log, [], Failed (Uncaught SchemaInvalid))
          end
      end
  end.

End Load.

(** *** The settings of a default configuration *)

Section DefaultConfig.

Variable K : constants.

(** The answers of the two network lookups during this run. *)
Variable async_detect_location_info : option LocationInfo.
Variable async_get_elevation : value -> value -> value.

(** [DEFAULT_CORE_CONFIG]: attribute, default and auto detect property; the
    descriptions, which only the writer of the file reads, are left out. *)
Definition DEFAULT_CORE_CONFIG : list (string * value * option string) :=
  [(CONF_NAME K, VStr "Home", None);
   (CONF_LATITUDE K, VInt 0, Some "latitude");
   (CONF_LONGITUDE K, VInt 0, Some "longitude");
   (CONF_ELEVATION K, VInt 0, None);
   (CONF_UNIT_SYSTEM K, VStr (CONF_UNIT_SYSTEM_METRIC K), None);
   (CONF_TIME_ZONE K, VStr "UTC", Some "time_zone");
   (CONF_CUSTOMIZE K, VStr "!include customize.yaml", None)].

(** [getattr(location_info, prop)]. *)
Definition getattr_location_info (location_info : LocationInfo) (prop : string)
    : outcome value :=
  if String.eqb prop "latitude" then Returns (li_latitude location_info)
  else if String.eqb prop "longitude" then Returns (li_longitude location_info)
  else if String.eqb prop "use_metric"
       then Returns (VBool (li_use_metric location_info))
  else if String.eqb prop "city" then Returns (li_city location_info)
  else if String.eqb prop "time_zone" then Returns (li_time_zone location_info)
  else Raises AttributeError.

(** Lines 234-237: [info[attr] = getattr(location_info, prop) or default]
    for the entries that have a property. *)
Fixpoint detected_settings (location_info : LocationInfo)
    (entries : list (string * value * option string)) (info : dict)
    : outcome dict :=
  match entries with
  | [] => Returns info
  | (attr, default, None) :: rest => detected_settings location_info rest info
  | (attr, default, Some prop) :: rest =>
      match getattr_location_info location_info prop with
      | Returns v =>
          detected_settings location_info rest
            (dict_set info attr (if truthy v then v else default))
      | Raises e => Raises e
      end
  end.

(** Lines 220-241 of [async_create_default_config(opp, config_dir,
    detect_location)]: the lookups made, and the [info] that is handed to
    [_write_default_config]. *)
Definition default_config_info (detect_location : bool)
    : list event * outcome dict :=
  let info :=
    fold_left (fun info entry => dict_set info (fst (fst entry)) (snd (fst entry)))
      DEFAULT_CORE_CONFIG [] in
  let '(lookups, location_info) :=
    if detect_location then ([DetectLocationInfo], async_detect_location_info)
    else ([], None) in
  match location_info with
  | None => (lookups, Returns info)
  | Some location_info =>
      let info :=
        dict_set info (CONF_UNIT_SYSTEM K)
          (VStr (if li_use_metric location_info then CONF_UNIT_SYSTEM_METRIC K
                 else CONF_UNIT_SYSTEM_IMPERIAL K)) in
      match detected_settings location_info DEFAULT_CORE_CONFIG info with
      | Raises e => (lookups, Raises e)
      | Returns info =>
          if truthy (li_latitude location_info)
             && truthy (li_longitude location_info)
          then
            (lookups ++ [GetElevation (li_latitude location_info)
                           (li_longitude location_info)],
             Returns (dict_set info (CONF_ELEVATION K)
                        (async_get_elevation (li_latitude location_info)
                           (li_longitude location_info))))
          else (lookups, Returns info)
      end
  end.

End DefaultConfig.

End Bootstrap.
Import Bootstrap.

(** ** Vocabulary of the further statements *)

Module Vocabulary.

(** The flag the error registry holds for a component, if any. *)
Definition registry_flag (opp : Validate.opp_state) (comp : string) : option bool :=
  match persistent_errors opp with
  | Some errors => dict_lookup errors comp
  | None => None
  end.

(** Every error logged by [async_log_exception] is listed in the registry
    with its documentation link. *)
Definition errors_are_listed (opp : Validate.opp_state) : Prop :=
  forall e, In e (error_log opp) -> registry_flag opp (le_domain e) = Some true.

(** The network lookups made so far. *)
Definition lookups (opp : Core.opp_state) : list event :=
  filter is_lookup (trace opp).

(** A step under which a property of [opp.config] persists. *)
Definition keeps {A : Type} (P : Config -> Prop) (m : M A) : Prop :=
  forall opp opp' o, m opp = (opp', o) -> P (opp_config opp) -> P (opp_config opp').

(** A step that leaves the auth manager alone. *)
Definition keeps_auth {A : Type} (m : M A) : Prop :=
  forall opp opp' o, m opp = (opp', o) -> opp_auth opp' = opp_auth opp.

(** A step that never assigns [opp.config]. *)
Definition config_unchanged {A : Type} (m : M A) : Prop :=
  forall opp opp' o, m opp = (opp', o) -> opp_config opp' = opp_config opp.

(** The lookups one call may add to those made before it. *)
Definition one_call_lookups (added : list event) : Prop :=
  added = []
  \/ added = [DetectLocationInfo]
  \/ exists lat lon,
       is_none lat = false /\ is_none lon = false
       /\ (added = [GetElevation lat lon]
           \/ added = [DetectLocationInfo; GetElevation lat lon]).

(** The customize rules a package gives under [key] ([CONF_CUSTOMIZE],
    [CONF_CUSTOMIZE_DOMAIN] or [CONF_CUSTOMIZE_GLOB]): those of its core
    section once validated; none when it has no core section or one the
    customize schema rejects. *)
Definition package_rules (K : constants)
    (CUSTOMIZE_CONFIG_SCHEMA : value -> outcome dict) (key : string)
    (pkg : value) : dict :=
  match pkg with
  | VDict p =>
      if is_none (dict_get p (CONF_CORE K)) then []
      else
        match CUSTOMIZE_CONFIG_SCHEMA (dict_get p (CONF_CORE K)) with
        | Returns pkg_cust =>
            match dict_lookup pkg_cust key with
            | Some (VDict rules) => rules
            | _ => []
            end
        | Raises _ => []
        end
  | _ => []
  end.

(** The rule for [name] once the layers are applied in order over
    [current]: that of the last layer that has one. *)
Fixpoint winning_rule (name : string) (layers : list dict)
    (current : option value) : option value :=
  match layers with
  | [] => current
  | layer :: rest =>
      winning_rule name rest
        (match dict_lookup layer name with
         | Some rule => Some rule
         | None => current
         end)
  end.

(** [rules] holds, for every name, the rule that wins among the top-level
    rules [base] and the rules the packages give under [key]. *)
Definition layered (K : constants)
    (CUSTOMIZE_CONFIG_SCHEMA : value -> outcome dict) (key : string)
    (base : dict) (packages : dict) (rules : dict) : Prop :=
  forall name,
    dict_lookup rules name
    = winning_rule name
        (map (fun package => package_rules K CUSTOMIZE_CONFIG_SCHEMA key (snd package))
           packages)
        (dict_lookup base name).

End Vocabulary.
Import Vocabulary.

(** ** Example data *)

Module Examples.

Definition accept_all : schema := fun v => Returns v.

(** A component with a dict-shaped [CONFIG_SCHEMA] and no platform schema. *)
Definition http_component : component :=
  {| CONFIG_SCHEMA :=
       Some {| validate := accept_all;
               domain_schema_str := Some "{'server_port': <function port>}" |};
     PLATFORM_SCHEMA_BASE := None;
     PLATFORM_SCHEMA := None |}.

(** A component with a platform schema. *)
Definition light_component : component :=
  {| CONFIG_SCHEMA := None;
     PLATFORM_SCHEMA_BASE := None;
     PLATFORM_SCHEMA := Some accept_all |}.

Definition integration_of (name : string) (c : component) : Integration :=
  {| domain := name;
     get_component := Returns c;
     get_platform := fun _ => Raises ImportError |}.

(** A schema that wants a key. *)
Definition requires_key (key : string) : schema :=
  fun v =>
    match v with
    | VDict d =>
        match dict_lookup d key with
        | Some _ => Returns v
        | None => Raises SchemaInvalid
        end
    | _ => Raises SchemaInvalid
    end.

(** A component whose platform entries must name their platform. *)
Definition sensor_component : component :=
  {| CONFIG_SCHEMA := None;
     PLATFORM_SCHEMA_BASE := None;
     PLATFORM_SCHEMA := Some (requires_key "platform") |}.

(** An integration that offers a platform wanting a [host]. *)
Definition hue_integration : Integration :=
  {| domain := "hue";
     get_component := Returns http_component;
     get_platform :=
       fun _ => Returns {| platform_PLATFORM_SCHEMA := Some (requires_key "host") |} |}.

Definition example_loader (name : string) : outcome Integration :=
  if String.eqb name "http" then Returns (integration_of "http" http_component)
  else if String.eqb name "light"
       then Returns (integration_of "light" light_component)
  else if String.eqb name "sensor"
       then Returns (integration_of "sensor" sensor_component)
  else if String.eqb name "hue" then Returns hue_integration
  else Raises IntegrationNotFound.

(** Stand-ins for the two helpers of openpeerpower.helpers: the keys of the
    domain are [domain] itself and [domain] followed by a space and a label;
    an entry names the platform under its [platform] key. *)
Definition example_extract_domain_configs (config : dict) (dom : string)
    : list string :=
  filter (fun key => String.eqb key dom || String.prefix (dom ++ " ") key)
    (dict_keys config).

Definition example_config_per_platform (config : dict) (dom : string)
    : list (option string * value) :=
  flat_map
    (fun key =>
       let platform_config := dict_get config key in
       if negb (truthy platform_config) then []
       else
         map (fun item =>
                (match item with
                 | VDict d =>
                     match dict_lookup d "platform" with
                     | Some (VStr p) => Some p
                     | _ => None
                     end
                 | _ => None
                 end, item))
           (match platform_config with VList l => l | _ => [platform_config] end))
    (example_extract_domain_configs config dom).

(** A config with four sensor entries: a good one, one its platform
    rejects, one whose platform does not exist, and one the domain rejects. *)
Definition sensor_config : dict :=
  [("sensor", VList [VDict [("platform", VStr "hue"); ("host", VStr "10.0.0.2")];
                     VDict [("platform", VStr "hue")];
                     VDict [("platform", VStr "nonexistent")];
                     VDict [("name", VStr "kitchen")]]);
   ("sensor 2", VDict [("platform", VStr "hue"); ("host", VStr "10.0.0.3")]);
   ("http", VDict [("port", VInt 8123)])].

Definition fresh_opp : Validate.opp_state :=
  {| persistent_errors := None; notifications := []; error_log := [] |}.

(** The scenario of the spec: both packages set [http.port]. *)
Definition port_packages : dict :=
  [("pkg1", VDict [("http", VDict [("port", VInt 1234)])]);
   ("pkg2", VDict [("http", VDict [("port", VInt 5678)])])].

(** Both packages set [http.port] and [http.base_url]; the second also sets
    [http.cors]. *)
Definition two_conflicts : dict :=
  [("pkg1", VDict [("http", VDict [("port", VInt 1234);
                                   ("base_url", VStr "a.example")])]);
   ("pkg2", VDict [("http", VDict [("port", VInt 5678);
                                   ("base_url", VStr "b.example");
                                   ("cors", VStr "c.example")])])].

(** Two packages that name a component no integration provides. *)
Definition unknown_packages : dict :=
  [("pkg1", VDict [("nest", VDict [("client_id", VStr "abc")]);
                   ("http", VDict [("base_url", VStr "a.example")])]);
   ("pkg2", VDict [("nest", VDict [("client_id", VStr "xyz")])])].

(** Two packages for a platform-style domain. *)
Definition light_packages : dict :=
  [("pkg1", VDict [("light", VDict [("platform", VStr "test")])]);
   ("pkg2", VDict [("light", VDict [("platform", VStr "test2")])])].

(** The default logger, and the tree of a configuration file whose core
    section holds the packages and which configures nothing else. *)
Definition default_logger : string -> string -> dict -> string -> outcome unit :=
  _log_pkg_error "openpeerpower" "packages".

Definition tree_of (packages : dict) : dict :=
  [("openpeerpower", VDict [("packages", VDict packages)])].

(** The values the names have upstream. *)
Definition ha_constants : constants :=
  {| CONF_LATITUDE := "latitude";
     CONF_LONGITUDE := "longitude";
     CONF_NAME := "name";
     CONF_ELEVATION := "elevation";
     CONF_TIME_ZONE := "time_zone";
     CONF_UNIT_SYSTEM := "unit_system";
     CONF_UNIT_SYSTEM_METRIC := "metric";
     CONF_UNIT_SYSTEM_IMPERIAL := "imperial";
     CONF_TEMPERATURE_UNIT := "temperature_unit";
     TEMP_CELSIUS := "°C";
     CONF_WHITELIST_EXTERNAL_DIRS := "whitelist_external_dirs";
     CONF_CUSTOMIZE := "customize";
     CONF_CUSTOMIZE_DOMAIN := "customize_domain";
     CONF_CUSTOMIZE_GLOB := "customize_glob";
     CONF_PACKAGES := "packages";
     CONF_CORE := "openpeerpower";
     CONF_AUTH_PROVIDERS := "auth_providers";
     CONF_AUTH_MFA_MODULES := "auth_mfa_modules";
     CONF_TYPE := "type";
     CONF_ID := "id" |}.

(** A stand-in for [CORE_CONFIG_SCHEMA] and [CUSTOMIZE_CONFIG_SCHEMA]: a
    dict passes, with the defaults of the optional keys filled in. *)
Definition with_default (key : string) (d : dict) : dict :=
  match dict_lookup d key with
  | Some _ => d
  | None => dict_set d key (VDict [])
  end.

Definition example_customize_schema (v : value) : outcome dict :=
  match v with
  | VDict d =>
      Returns (with_default "customize_glob"
                 (with_default "customize_domain" (with_default "customize" d)))
  | _ => Raises SchemaInvalid
  end.

Definition example_core_schema (v : value) : outcome dict :=
  match example_customize_schema v with
  | Returns d => Returns (with_default "packages" d)
  | Raises e => Raises e
  end.

Definition example_get_time_zone (v : value) : option tzinfo :=
  match v with
  | VStr s =>
      if String.eqb s "UTC" || String.eqb s "America/New_York" then Some s
      else None
  | _ => None
  end.

Definition example_elevation (lat lon : value) : value := VInt 12.

Definition new_york : LocationInfo :=
  {| li_latitude := VInt 40; li_longitude := VInt (-73); li_use_metric := false;
     li_city := VStr "Testville"; li_time_zone := VStr "America/New_York" |}.

Definition unset_config : Config :=
  {| latitude := VNone; longitude := VNone; elevation := VNone;
     location_name := VNone; time_zone := None; units := None;
     whitelist_external_dirs := [] |}.

Definition starting_opp : Core.opp_state :=
  {| opp_auth := None; opp_config := unset_config; data_customize := None;
     trace := [] |}.

(** A core section that sets everything. *)
Definition explicit_core : value :=
  VDict [("latitude", VInt 52); ("longitude", VInt 5); ("elevation", VInt 3);
         ("unit_system", VStr "imperial"); ("time_zone", VStr "UTC")].

(** A core section that gives the coordinates only, and an [opp] whose
    config has a latitude and nothing else. *)
Definition located_core : value :=
  VDict [("latitude", VInt 52); ("longitude", VInt 5)].

Definition latitude_only_opp : Core.opp_state :=
  {| opp_auth := None; opp_config := with_latitude (VInt 52) unset_config;
     data_customize := None; trace := [] |}.

(** A configuration file with one package, an empty [http:] section and a
    group, and the file system it lives in. *)
Definition example_file : dict :=
  [("openpeerpower",
    VDict [("packages",
            VDict [("pack_1",
                    VDict [("light", VList [VDict [("platform", VStr "hue")]])])])]);
   ("http", VNone);
   ("group", VDict [("kitchen", VStr "light.kitchen")])].

Definition example_path_join (dir file : string) : string :=
  (dir ++ "/" ++ file)%string.

Definition example_isfile (path : string) : bool :=
  String.eqb path "/config/configuration.yaml".

Definition example_load_yaml (path : string) : result value :=
  if String.eqb path "/config/configuration.yaml" then Done (VDict example_file)
  else Failed FileNotFoundError.

Definition reload_example (config_dir : option string)
    : list string * list pkg_error * result dict :=
  async_opp_config_yaml example_path_join example_isfile example_load_yaml
    "openpeerpower" "packages" example_loader config_dir.

(** A validated core config whose package overrides the friendly name of
    one entity and names another. *)
Definition customized_core : dict :=
  [("customize",
    VDict [("light.kitchen", VDict [("friendly_name", VStr "Kitchen")]);
           ("light.hall", VDict [("friendly_name", VStr "Hall")])]);
   ("customize_domain", VDict []);
   ("customize_glob", VDict []);
   ("packages",
    VDict [("pack_1",
            VDict [("openpeerpower",
                    VDict [("customize",
                            VDict [("light.kitchen",
                                    VDict [("friendly_name", VStr "Cooking")]);
                                   ("light.attic",
                                    VDict [("hidden", VBool true)])])])]);
           ("pack_2", VDict [("openpeerpower", VStr "not a section")])])].

(** An auth package that can load the providers and modules shipped with
    it, and not the provider type [ldap]. *)
Definition example_auth_manager (provider_configs module_configs : value)
    : outcome unit :=
  match provider_configs with
  | VList providers =>
      if existsb (fun provider =>
                    match provider with
                    | VDict d => scalar_eq (dict_get d "type") (VStr "ldap")
                    | _ => false
                    end) providers
      then Raises ImportError
      else Returns tt
  | _ => Returns tt
  end.

Definition process_example (info : option LocationInfo) (config : value)
    : Core.opp_state * outcome unit :=
  async_process_ha_core_config ha_constants example_core_schema
    example_customize_schema example_get_time_zone (VStr "/config/www")
    info example_elevation example_auth_manager config VNone VNone starting_opp.

End Examples.

(* ===================================================================== *)
(** * Part II: properties                                                 *)
(* ===================================================================== *)

(** ** Dictionaries *)

Module PyFacts.

Section Alist.
Context {A : Type}.
Implicit Types (d : list (string * A)) (k : string) (v : A).

Lemma dict_lookup_set_eq d k v : dict_lookup (dict_set d k v) k = Some v.
Proof.
  induction d as [|[k' w] d IH]; simpl.
  - now rewrite String.eqb_refl.
  - destruct (String.eqb k' k) eqn:E; simpl; rewrite E; auto.
Qed.

Lemma dict_lookup_set_ne d k k' v :
  k <> k' -> dict_lookup (dict_set d k v) k' = dict_lookup d k'.
Proof.
  intros Hne. induction d as [|[k0 w] d IH]; simpl.
  - destruct (String.eqb k k') eqn:E; auto.
    apply String.eqb_eq in E. contradiction.
  - destruct (String.eqb k0 k) eqn:E; simpl.
    + apply String.eqb_eq in E. subst k0.
      destruct (String.eqb k k') eqn:E'; auto.
      apply String.eqb_eq in E'. contradiction.
    + now rewrite IH.
Qed.

Lemma dict_lookup_None d k : dict_lookup d k = None <-> ~ In k (dict_keys d).
Proof.
  induction d as [|[k' w] d IH]; simpl.
  - tauto.
  - destruct (String.eqb k' k) eqn:E.
    + apply String.eqb_eq in E. split; [discriminate | intros H; exfalso; auto].
    + apply String.eqb_neq in E. rewrite IH. tauto.
Qed.

Lemma dict_lookup_In d k v : dict_lookup d k = Some v -> In (k, v) d.
Proof.
  induction d as [|[k' w] d IH]; simpl; [discriminate|].
  destruct (String.eqb k' k) eqn:E.
  - apply String.eqb_eq in E. intros [= ->]. subst. now left.
  - auto.
Qed.

(** A key that is present splits the dict at its entry. *)
Lemma dict_lookup_split d k v :
  dict_lookup d k = Some v ->
  exists pre post, d = pre ++ (k, v) :: post /\ ~ In k (dict_keys pre).
Proof.
  induction d as [|[k' w] d IH]; simpl; [discriminate|].
  destruct (String.eqb k' k) eqn:E.
  - apply String.eqb_eq in E. intros [= ->]. subst.
    exists [], d. split; auto.
  - intros H. destruct (IH H) as (pre & post & -> & Hn).
    exists ((k', w) :: pre), post. split; auto.
    simpl. apply String.eqb_neq in E. tauto.
Qed.

Lemma dict_lookup_app_notin pre d k :
  ~ In k (dict_keys pre) -> dict_lookup (pre ++ d) k = dict_lookup d k.
Proof.
  induction pre as [|[k' w] pre IH]; simpl; auto.
  intros H. destruct (String.eqb k' k) eqn:E.
  - apply String.eqb_eq in E. tauto.
  - apply IH. tauto.
Qed.

End Alist.

(** Induction over values that reaches inside lists and dicts. *)
Lemma value_nested_ind (P : value -> Prop) :
  P VNone ->
  (forall b, P (VBool b)) ->
  (forall z, P (VInt z)) ->
  (forall s, P (VStr s)) ->
  (forall l, Forall P l -> P (VList l)) ->
  (forall d, Forall (fun kv => P (snd kv)) d -> P (VDict d)) ->
  forall v, P v.
Proof.
  intros HN HB HI HS HL HD.
  fix IH 1. intros [| b | z | s | l | d].
  - exact HN.
  - apply HB.
  - apply HI.
  - apply HS.
  - apply HL. induction l as [|x l IHl]; constructor; [apply IH | exact IHl].
  - apply HD. induction d as [|[k x] d IHd]; constructor; [apply IH | exact IHd].
Qed.

Lemma wf_dict_cons k v d :
  wf_dict ((k, v) :: d) <-> ~ In k (dict_keys d) /\ wf_value v /\ wf_dict d.
Proof.
  unfold wf_dict. simpl. split.
  - intros [Hnd (Hv & Hall)]. inversion Hnd; subst. tauto.
  - intros (Hn & Hv & Hnd & Hall). repeat split; auto. constructor; auto.
Qed.

Lemma wf_dict_nil : wf_dict [].
Proof. unfold wf_dict. simpl. split; [constructor | exact I]. Qed.

Lemma wf_dict_app d1 d2 : wf_dict (d1 ++ d2) -> wf_dict d1 /\ wf_dict d2.
Proof.
  induction d1 as [|[k v] d1 IH]; simpl.
  - intros H. split; [apply wf_dict_nil | exact H].
  - rewrite !wf_dict_cons. intros (Hn & Hv & Hw). destruct (IH Hw) as [H1 H2].
    split; [split; [|split]|]; auto.
    intros Hin. apply Hn. unfold dict_keys in *.
    rewrite map_app. apply in_or_app. now left.
Qed.

Lemma wf_dict_lookup d k v : wf_dict d -> dict_lookup d k = Some v -> wf_value v.
Proof.
  induction d as [|[k' w] d IH]; simpl; [discriminate|].
  rewrite wf_dict_cons. intros (_ & Hw & Hd).
  destruct (String.eqb k' k); [intros [= ->]; auto | auto].
Qed.

Lemma wf_dict_keys d : wf_dict d -> NoDup (dict_keys d).
Proof. intros [H _]. exact H. Qed.

End PyFacts.
Import PyFacts.

(** ** Package merge *)

Module MergeProofs.

Ltac break_match :=
  match goal with
  | |- context [match ?x with _ => _ end] => destruct x eqn:?
  end.

(** A package whose keys are all new to the destination merges without
    conflict: the loop runs through it, later entries see the dict it built,
    keys outside it are untouched and its scalars are stored. *)
Lemma merge_absent_value (pack_conf : value) :
  forall package, pack_conf = VDict package -> wf_dict package ->
  forall rest c,
    (forall key, In key (dict_keys package) -> dict_lookup c key = None) ->
    exists c',
      merge_items merge_fragment (package ++ rest) (VDict c) None
      = merge_items merge_fragment rest (VDict c') None
      /\ (forall key, ~ In key (dict_keys package) ->
                      dict_lookup c' key = dict_lookup c key)
      /\ (forall key v, dict_lookup package key = Some v -> is_scalar v = true ->
                        dict_lookup c' key = Some v).
Proof.
  induction pack_conf using value_nested_ind; try discriminate.
  intros package [= <-]. rename H into IHd.
  induction d as [|[key pc] d IHl]; intros Hwf rest c Habs.
  - exists c. simpl. repeat split; auto. discriminate.
  - apply wf_dict_cons in Hwf. destruct Hwf as (Hnin & Hpc & Hwf).
    inversion IHd as [|? ? IHpc IHd']; subst. simpl in IHpc.
    specialize (IHl IHd' Hwf rest).
    assert (Hkey : dict_lookup c key = None) by (apply Habs; simpl; auto).
    assert (Hstep : forall x,
              (forall k, In k (dict_keys d) -> dict_lookup (dict_set c key x) k = None)).
    { intros x k Hk. rewrite dict_lookup_set_ne.
      - apply Habs. simpl. auto.
      - intros ->. contradiction. }
    (* what the rest of the loop gives once [key] holds [x] *)
    assert (Hrest : forall x,
              exists c', merge_items merge_fragment (d ++ rest)
                           (VDict (dict_set c key x)) None
                         = merge_items merge_fragment rest (VDict c') None
                /\ (forall k, ~ In k (dict_keys ((key, pc) :: d)) ->
                              dict_lookup c' k = dict_lookup c k)
                /\ dict_lookup c' key = Some x
                /\ (forall k v, dict_lookup d k = Some v -> is_scalar v = true ->
                                dict_lookup c' k = Some v)).
    { intros x. destruct (IHl (dict_set c key x) (Hstep x)) as (c' & E & Hout & Hin).
      exists c'. repeat split; auto.
      - intros k Hk. simpl in Hk. rewrite Hout by tauto.
        apply dict_lookup_set_ne. intros ->. tauto.
      - rewrite Hout by assumption. apply dict_lookup_set_eq. }
    assert (Hscalar : forall c' x,
              dict_lookup c' key = Some x ->
              (forall k v, dict_lookup d k = Some v -> is_scalar v = true ->
                           dict_lookup c' k = Some v) ->
              (is_scalar pc = true -> x = pc) ->
              forall k v, dict_lookup ((key, pc) :: d) k = Some v ->
                          is_scalar v = true -> dict_lookup c' k = Some v).
    { intros c' x Hx Hd Hpcx k v. simpl. destruct (String.eqb key k) eqn:E.
      - apply String.eqb_eq in E. subst k. intros [= <-] Hs. now rewrite Hx, Hpcx.
      - auto. }
    destruct pc as [| b | z | s | l | sub].
    1-4: simpl; unfold dict_get, dict_get_default; rewrite Hkey; simpl;
         match goal with |- context [dict_set _ _ ?x] =>
           destruct (Hrest x) as (c' & E & Hout & Hk & Hin) end;
         exists c'; (split; [exact E | split; [exact Hout |]]);
         eapply Hscalar; eauto.
    + (* a list *)
      destruct l as [|x l].
      * simpl. destruct (IHl c) as (c' & E & Hout & Hin).
        { intros k Hk. apply Habs. simpl. auto. }
        exists c'. split; [exact E | split].
        -- intros k Hk. apply Hout. simpl in Hk. tauto.
        -- intros k v. simpl. destruct (String.eqb key k) eqn:Ek.
           ++ intros [= <-]. discriminate.
           ++ apply Hin.
      * simpl. unfold dict_get, dict_get_default. rewrite Hkey. simpl.
        match goal with |- context [dict_set _ _ ?x] =>
          destruct (Hrest x) as (c' & E & Hout & Hk & Hin) end.
        exists c'. split; [exact E | split; [exact Hout |]].
        eapply Hscalar; eauto; discriminate.
    + (* a nested dict *)
      destruct sub as [|entry sub].
      * simpl. destruct (IHl c) as (c' & E & Hout & Hin).
        { intros k Hk. apply Habs. simpl. auto. }
        exists c'. split; [exact E | split].
        -- intros k Hk. apply Hout. simpl in Hk. tauto.
        -- intros k v. simpl. destruct (String.eqb key k) eqn:Ek.
           ++ intros [= <-]. discriminate.
           ++ apply Hin.
      * destruct (IHpc (entry :: sub) eq_refl Hpc [] [])
          as (cur' & Ecur & _ & _).
        { intros k _. reflexivity. }
        rewrite app_nil_r in Ecur.
        rewrite <- app_comm_cons. cbn [merge_items truthy negb].
        unfold dict_get_default. rewrite Hkey.
        cbn [merge_fragment]. rewrite Ecur. cbn [merge_items].
        destruct (Hrest (VDict cur')) as (c' & E & Hout & Hk & Hin).
        exists c'. split; [exact E | split; [exact Hout |]].
        eapply Hscalar; eauto; discriminate.
Qed.

Lemma merge_absent (package rest : dict) (c : dict) :
  wf_dict package ->
  (forall key, In key (dict_keys package) -> dict_lookup c key = None) ->
  exists c',
    merge_items merge_fragment (package ++ rest) (VDict c) None
    = merge_items merge_fragment rest (VDict c') None
    /\ (forall key, ~ In key (dict_keys package) ->
                    dict_lookup c' key = dict_lookup c key)
    /\ (forall key v, dict_lookup package key = Some v -> is_scalar v = true ->
                      dict_lookup c' key = Some v).
Proof. intros. eapply merge_absent_value; eauto. Qed.

(** The same run, with what every key of the package leaves behind. *)
Lemma merge_absent_exact_value (pack_conf : value) :
  forall package, pack_conf = VDict package -> wf_dict package ->
  forall rest c,
    (forall key, In key (dict_keys package) -> dict_lookup c key = None) ->
    exists c',
      merge_items merge_fragment (package ++ rest) (VDict c) None
      = merge_items merge_fragment rest (VDict c') None
      /\ (forall key, ~ In key (dict_keys package) ->
                      dict_lookup c' key = dict_lookup c key)
      /\ (forall key v, dict_lookup package key = Some v ->
                        dict_lookup c' key = merged_alone v).
Proof.
  induction pack_conf using value_nested_ind; try discriminate.
  intros package [= <-]. rename H into IHd.
  induction d as [|[key pc] d IHl]; intros Hwf rest c Habs.
  - exists c. simpl. repeat split; auto. discriminate.
  - apply wf_dict_cons in Hwf. destruct Hwf as (Hnin & Hpc & Hwf).
    inversion IHd as [|? ? IHpc IHd']; subst. simpl in IHpc.
    specialize (IHl IHd' Hwf rest).
    assert (Hkey : dict_lookup c key = None) by (apply Habs; simpl; auto).
    (* the entry is stored as [x] *)
    assert (Hstored : forall x,
              merged_alone pc = Some x ->
              exists c', merge_items merge_fragment (d ++ rest)
                           (VDict (dict_set c key x)) None
                         = merge_items merge_fragment rest (VDict c') None
                /\ (forall k, ~ In k (dict_keys ((key, pc) :: d)) ->
                              dict_lookup c' k = dict_lookup c k)
                /\ (forall k v, dict_lookup ((key, pc) :: d) k = Some v ->
                                dict_lookup c' k = merged_alone v)).
    { intros x Hx. destruct (IHl (dict_set c key x)) as (c' & E & Hout & Hin).
      { intros k Hk. rewrite dict_lookup_set_ne.
        - apply Habs. simpl. auto.
        - intros ->. contradiction. }
      exists c'. split; [exact E | split].
      - intros k Hk. simpl in Hk. rewrite Hout by tauto.
        apply dict_lookup_set_ne. intros ->. tauto.
      - intros k v. simpl. destruct (String.eqb key k) eqn:Ek.
        + apply String.eqb_eq in Ek. subst k. intros [= <-].
          rewrite Hout by assumption. rewrite Hx. apply dict_lookup_set_eq.
        + apply Hin. }
    (* the entry is skipped *)
    assert (Hskipped :
              merged_alone pc = None ->
              exists c', merge_items merge_fragment (d ++ rest) (VDict c) None
                         = merge_items merge_fragment rest (VDict c') None
                /\ (forall k, ~ In k (dict_keys ((key, pc) :: d)) ->
                              dict_lookup c' k = dict_lookup c k)
                /\ (forall k v, dict_lookup ((key, pc) :: d) k = Some v ->
                                dict_lookup c' k = merged_alone v)).
    { intros Hx. destruct (IHl c) as (c' & E & Hout & Hin).
      { intros k Hk. apply Habs. simpl. auto. }
      exists c'. split; [exact E | split].
      - intros k Hk. apply Hout. simpl in Hk. tauto.
      - intros k v. simpl. destruct (String.eqb key k) eqn:Ek.
        + apply String.eqb_eq in Ek. subst k. intros [= <-].
          rewrite Hout by assumption. now rewrite Hx.
        + apply Hin. }
    destruct pc as [| b | z | s | l | sub].
    1-4: simpl; unfold dict_get, dict_get_default; rewrite Hkey; simpl;
         apply Hstored; reflexivity.
    + destruct l as [|x l].
      * simpl. apply Hskipped. reflexivity.
      * simpl. unfold dict_get, dict_get_default. rewrite Hkey. simpl.
        apply Hstored. reflexivity.
    + destruct sub as [|entry sub].
      * simpl. apply Hskipped. reflexivity.
      * destruct (IHpc (entry :: sub) eq_refl Hpc [] [])
          as (cur' & Ecur & _ & _).
        { intros k _. reflexivity. }
        rewrite app_nil_r in Ecur.
        rewrite <- app_comm_cons. cbn [merge_items truthy negb].
        unfold dict_get_default. rewrite Hkey.
        cbn [merge_fragment]. rewrite Ecur. cbn [merge_items].
        apply Hstored. unfold merged_alone, _recursive_merge.
        now rewrite Ecur.
Qed.

Lemma merge_absent_exact (package rest : dict) (c : dict) :
  wf_dict package ->
  (forall key, In key (dict_keys package) -> dict_lookup c key = None) ->
  exists c',
    merge_items merge_fragment (package ++ rest) (VDict c) None
    = merge_items merge_fragment rest (VDict c') None
    /\ (forall key, ~ In key (dict_keys package) ->
                    dict_lookup c' key = dict_lookup c key)
    /\ (forall key v, dict_lookup package key = Some v ->
                      dict_lookup c' key = merged_alone v).
Proof. intros. eapply merge_absent_exact_value; eauto. Qed.

Section Component.

Variable CONF_CORE : string.
Variable async_get_integration : string -> outcome Integration.
Variable logger : string -> string -> dict -> string -> outcome unit.

Local Abbreviation log_pkg_error := (log_pkg_error logger).
Local Abbreviation merge_dict_component := (merge_dict_component logger).
Local Abbreviation merge_component :=
  (merge_component CONF_CORE async_get_integration logger).
Local Abbreviation merge_package :=
  (merge_package CONF_CORE async_get_integration logger).
Local Abbreviation merge_packages :=
  (merge_packages CONF_CORE async_get_integration logger).
Local Abbreviation merge_packages_config :=
  (merge_packages_config CONF_CORE async_get_integration logger).

Lemma touches_refl comp st : touches_only comp st st.
Proof.
  split; auto. exists []. rewrite app_nil_r. auto.
Qed.

Lemma touches_trans comp s1 s2 s3 :
  touches_only comp s1 s2 -> touches_only comp s2 s3 -> touches_only comp s1 s3.
Proof.
  intros [L1 (l1 & E1 & F1)] [L2 (l2 & E2 & F2)]. split.
  - intros other Hne. now rewrite L2, L1.
  - exists (l1 ++ l2). rewrite E2, E1, app_assoc. split; auto.
    apply Forall_app. auto.
Qed.

Lemma touches_logged pack comp msg st :
  touches_only comp st (logged pack comp msg st).
Proof.
  split; auto. eexists. split; [reflexivity|]. constructor; auto.
Qed.

(** What a call of the logger that returned has done, and what one that
    raised has not. *)
Lemma log_returns pack comp msg st st' :
  log_pkg_error pack comp msg st = (st', Returns tt) ->
  st' = logged pack comp msg st.
Proof.
  unfold Merge.log_pkg_error. destruct (logger _ _ _ _); now intros [= <-].
Qed.

Lemma log_raises pack comp msg st st' e :
  log_pkg_error pack comp msg st = (st', Raises e) -> st' = st.
Proof.
  unfold Merge.log_pkg_error. destruct (logger _ _ _ _); now intros [= <-].
Qed.

Lemma touches_log pack comp msg st st' o :
  log_pkg_error pack comp msg st = (st', o) -> touches_only comp st st'.
Proof.
  unfold Merge.log_pkg_error. destruct (logger _ _ _ _); intros [= <- _].
  - apply touches_logged.
  - apply touches_refl.
Qed.

Lemma touches_set comp v st : touches_only comp st (set_cfg st comp v).
Proof.
  split.
  - intros other Hne. simpl. apply dict_lookup_set_ne. congruence.
  - exists []. simpl. rewrite app_nil_r. auto.
Qed.

Create HintDb touches.
#[local] Hint Resolve touches_refl touches_logged touches_set : touches.

Lemma touches_append comp frag st :
  touches_only comp st (append_fragment comp frag st).
Proof. apply touches_set. Qed.

Lemma merge_dict_component_touches pack comp frag st st' o :
  merge_dict_component pack comp frag st = (st', o) ->
  touches_only comp st st'.
Proof.
  unfold Merge.merge_dict_component.
  set (st1 := match dict_lookup (cfg st) comp with
              | Some VNone | None => set_cfg st comp (VDict [])
              | Some _ => st
              end).
  assert (H1 : touches_only comp st st1).
  { subst st1. repeat break_match; auto with touches. }
  clearbody st1.
  destruct (if is_none frag then VDict [] else frag);
    try (intros H; exact (touches_log _ _ _ _ _ _ H)).
  destruct (dict_get (cfg st1) comp);
    try (intros H; eapply touches_trans; [exact H1 | exact (touches_log _ _ _ _ _ _ H)]).
  destruct (_recursive_merge (VDict d0) d) as [conf' [error|e]].
  - destruct (error_truthy error).
    + intros H. eapply touches_trans; [exact H1|].
      eapply touches_trans; [apply touches_set | exact (touches_log _ _ _ _ _ _ H)].
    + intros [= <- <-]. eapply touches_trans; eauto with touches.
  - intros [= <- <-]. eapply touches_trans; eauto with touches.
Qed.

Lemma merge_component_touches pack comp frag st st' o :
  merge_component pack comp frag st = (st', o) ->
  touches_only comp st st'.
Proof.
  unfold Merge.merge_component.
  repeat break_match;
    try (intros [= <- <-]; auto using touches_append with touches);
    try (intros H; exact (touches_log _ _ _ _ _ _ H));
    apply merge_dict_component_touches.
Qed.

Lemma same_at_refl comp st : same_at comp st st.
Proof. split; auto. Qed.

Lemma same_at_trans comp s1 s2 s3 :
  same_at comp s1 s2 -> same_at comp s2 s3 -> same_at comp s1 s3.
Proof.
  intros [L1 D1] [L2 D2]. split; [congruence|].
  intros key. now rewrite D2, D1.
Qed.

Lemma touches_other comp other st st' :
  other <> comp -> touches_only other st st' -> same_at comp st st'.
Proof.
  intros Hne [L (logged & E & F)]. split.
  - apply L. congruence.
  - intros key. unfold duplicate_errors. rewrite E, filter_app.
    replace (filter (is_duplicate_error comp key) logged) with (@nil pkg_error).
    + now rewrite app_nil_r.
    + symmetry. clear E. induction F as [|e l He F IH]; simpl; auto.
      unfold is_duplicate_error at 1. rewrite He.
      destruct (String.eqb other comp) eqn:Eq.
      * apply String.eqb_eq in Eq. contradiction.
      * simpl. exact IH.
Qed.

(** A package without an entry for [comp] leaves [comp] alone. *)
Lemma merge_package_absent pack comp items :
  ~ In comp (dict_keys items) ->
  forall st st' o, merge_package pack items st = (st', o) -> same_at comp st st'.
Proof.
  induction items as [|[name frag] items IH]; simpl; intros Hn st st' o.
  - intros [= <- <-]. apply same_at_refl.
  - destruct (merge_component pack name frag st) as [s1 [[]|e]] eqn:E.
    + intros H. eapply same_at_trans.
      * eapply touches_other; [|eapply merge_component_touches; eauto]. tauto.
      * eapply IH; eauto.
    + intros [= <- <-].
      eapply touches_other; [|eapply merge_component_touches; eauto]. tauto.
Qed.

(** A package that returns has run the step of [comp] once, between states
    that agree with the first and the last on [comp]. *)
Lemma merge_package_at pack comp frag items :
  NoDup (dict_keys items) ->
  dict_lookup items comp = Some frag ->
  forall st st', merge_package pack items st = (st', Returns tt) ->
  exists sa sb,
    same_at comp st sa
    /\ merge_component pack comp frag sa = (sb, Returns tt)
    /\ same_at comp sb st'.
Proof.
  induction items as [|[name f] items IH]; simpl; [discriminate|].
  intros Hnd Hl st st'. inversion Hnd as [|? ? Hnin Hnd']; subst.
  destruct (merge_component pack name f st) as [s1 [[]|e]] eqn:E; [|discriminate].
  destruct (String.eqb name comp) eqn:En.
  - apply String.eqb_eq in En. subst name. injection Hl as ->.
    intros H. exists st, s1. split; [apply same_at_refl|]. split; [exact E|].
    eapply merge_package_absent; eauto.
  - apply String.eqb_neq in En. intros H.
    destruct (IH Hnd' Hl _ _ H) as (sa & sb & Ha & Hm & Hb).
    exists sa, sb. split; auto.
    eapply same_at_trans; [|exact Ha].
    eapply touches_other; [|eapply merge_component_touches; eauto]. exact En.
Qed.

(** A list-style component: a falsy fragment is skipped, any other is
    appended. *)
Lemma merge_component_list pack comp frag st integration component :
  comp <> CONF_CORE ->
  async_get_integration (first_word comp) = Returns integration ->
  get_component integration = Returns component ->
  list_style component = true ->
  merge_component pack comp frag st
  = (if truthy frag then append_fragment comp frag st else st, Returns tt).
Proof.
  intros Hcore Hint Hcomp Hstyle. unfold Merge.merge_component.
  apply String.eqb_neq in Hcore. rewrite Hcore, Hint, Hcomp.
  unfold list_style in Hstyle.
  destruct (is_some (PLATFORM_SCHEMA component)).
  - destruct (truthy frag); reflexivity.
  - simpl in Hstyle.
    destruct (_identify_config_schema component) as [[]|] eqn:Ei; try discriminate.
    destruct (CONFIG_SCHEMA component) eqn:Ec.
    + destruct (truthy frag); reflexivity.
    + unfold _identify_config_schema in Ei. rewrite Ec in Ei. discriminate.
Qed.

(** A dict-style component runs the dict branch. *)
Lemma merge_component_dict pack comp frag st integration component :
  comp <> CONF_CORE ->
  async_get_integration (first_word comp) = Returns integration ->
  get_component integration = Returns component ->
  list_style component = false ->
  merge_component pack comp frag st = merge_dict_component pack comp frag st.
Proof.
  intros Hcore Hint Hcomp Hstyle. unfold Merge.merge_component.
  apply String.eqb_neq in Hcore. rewrite Hcore, Hint, Hcomp.
  unfold list_style in Hstyle. apply orb_false_iff in Hstyle.
  destruct Hstyle as [-> Hid].
  destruct (_identify_config_schema component) as [[]|]; try discriminate;
    destruct (CONFIG_SCHEMA component); reflexivity.
Qed.

Lemma keys_before_split (pre post : dict) k v :
  ~ In k (dict_keys pre) ->
  keys_before k (pre ++ (k, v) :: post) = dict_keys pre.
Proof.
  induction pre as [|[k' w] pre IH]; simpl; intros Hn.
  - now rewrite String.eqb_refl.
  - destruct (String.eqb k' k) eqn:E.
    + apply String.eqb_eq in E. tauto.
    + f_equal. apply IH. tauto.
Qed.

(** The first package's fragment lands in a domain the tree does not have
    yet: nothing is logged, its scalars are stored, and only its keys exist. *)
Lemma fresh_step pack comp fragment st :
  dict_lookup (cfg st) comp = None ->
  wf_dict fragment ->
  exists c',
    merge_dict_component pack comp (VDict fragment) st
    = (set_cfg (set_cfg st comp (VDict [])) comp (VDict c'), Returns tt)
    /\ (forall key, ~ In key (dict_keys fragment) -> dict_lookup c' key = None)
    /\ (forall key v, dict_lookup fragment key = Some v -> is_scalar v = true ->
                      dict_lookup c' key = Some v).
Proof.
  intros Hfresh Hwf.
  destruct (merge_absent fragment [] [] Hwf) as (c' & E & Hout & Hin).
  { reflexivity. }
  rewrite app_nil_r in E. simpl in E.
  exists c'. split; [|split; auto].
  unfold Merge.merge_dict_component. simpl. rewrite Hfresh.
  unfold dict_get, dict_get_default. simpl. rewrite dict_lookup_set_eq.
  unfold _recursive_merge. rewrite E. reflexivity.
Qed.

(** A fragment whose first key already set in the destination is the scalar
    [k]: the keys before [k] are merged, then the merge of the fragment stops
    and [k] keeps its value; the logger is called with [k], unless [k] is the
    empty string, which the test [if error:] takes for no error. *)
Lemma conflict_step pack comp st c (pre post : dict) k v old :
  dict_lookup (cfg st) comp = Some (VDict c) ->
  wf_dict pre ->
  (forall key, In key (dict_keys pre) -> dict_lookup c key = None) ->
  ~ In k (dict_keys pre) ->
  is_scalar v = true ->
  dict_lookup c k = Some old -> is_none old = false ->
  exists c',
    merge_dict_component pack comp (VDict (pre ++ (k, v) :: post)) st
    = (if String.eqb k "" then (set_cfg st comp (VDict c'), Returns tt)
       else log_pkg_error pack comp (duplicate_key_message k)
              (set_cfg st comp (VDict c')))
    /\ (forall key, ~ In key (dict_keys pre) ->
                    dict_lookup c' key = dict_lookup c key)
    /\ (forall key val, dict_lookup pre key = Some val ->
                        dict_lookup c' key = merged_alone val).
Proof.
  intros Hc Hwf Habs Hk Hv Hold Hnone.
  destruct (merge_absent_exact pre ((k, v) :: post) c Hwf Habs)
    as (c' & E & Hout & Hin).
  exists c'. split; [|split; auto].
  assert (Hret : merge_items merge_fragment ((k, v) :: post) (VDict c') None
                 = (VDict c', Returns (Some k))).
  { assert (Hg : is_none (dict_get c' k) = false).
    { unfold dict_get, dict_get_default. now rewrite Hout, Hold. }
    destruct v; try discriminate; simpl; now rewrite Hg. }
  unfold Merge.merge_dict_component. simpl. rewrite Hc.
  unfold dict_get, dict_get_default. rewrite Hc.
  unfold _recursive_merge. rewrite E, Hret. simpl.
  destruct (String.eqb k ""); reflexivity.
Qed.

Lemma merged_alone_scalar v : is_scalar v = true -> merged_alone v = Some v.
Proof. destruct v; try discriminate; reflexivity. Qed.

Lemma duplicate_errors_log pack comp key errs :
  duplicate_errors comp key
    (errs ++ [{| pe_package := pack; pe_component := comp;
                 pe_message := duplicate_key_message key |}])
  = duplicate_errors comp key errs
    ++ [{| pe_package := pack; pe_component := comp;
           pe_message := duplicate_key_message key |}].
Proof.
  unfold duplicate_errors. rewrite filter_app. simpl.
  unfold is_duplicate_error. simpl. now rewrite !String.eqb_refl.
Qed.

Lemma same_at_get comp st st' :
  same_at comp st st' -> dict_get (cfg st') comp = dict_get (cfg st) comp.
Proof. intros [H _]. unfold dict_get, dict_get_default. now rewrite H. Qed.

(** List-style fragments accumulate in package order. *)
Lemma merge_packages_list_order comp integration component :
  comp <> CONF_CORE ->
  async_get_integration (first_word comp) = Returns integration ->
  get_component integration = Returns component ->
  list_style component = true ->
  forall packages st st',
    (forall name pkg, In (name, pkg) packages -> wf_value pkg) ->
    merge_packages packages st = (st', Returns tt) ->
    ensure_list (dict_get (cfg st') comp)
    = ensure_list (dict_get (cfg st) comp)
      ++ flat_map ensure_list (filter truthy (fragments comp packages)).
Proof.
  intros Hcore Hint Hcomp Hstyle.
  induction packages as [|[name pkg] packages IH]; intros st st' Hwf; simpl.
  - intros [= <-]. now rewrite app_nil_r.
  - destruct pkg as [| | | | |items]; try discriminate.
    destruct (merge_package name items st) as [s1 [[]|e]] eqn:E; [|discriminate].
    intros Hrest.
    assert (Hwf' : forall n p, In (n, p) packages -> wf_value p).
    { intros n p Hin. eapply Hwf. right. exact Hin. }
    rewrite (IH s1 st' Hwf' Hrest). clear IH Hrest.
    assert (Hitems : wf_dict items) by (eapply Hwf; left; reflexivity).
    destruct (dict_lookup items comp) as [frag|] eqn:El.
    + destruct (merge_package_at name comp frag items (wf_dict_keys _ Hitems) El _ _ E)
        as (sa & sb & Ha & Hm & Hb).
      rewrite (merge_component_list name comp frag sa _ _ Hcore Hint Hcomp Hstyle)
        in Hm.
      rewrite (same_at_get _ _ _ Hb).
      simpl. destruct (truthy frag); injection Hm as <-.
      * simpl. unfold dict_get at 1, dict_get_default.
        rewrite dict_lookup_set_eq. simpl.
        rewrite (same_at_get _ _ _ Ha). now rewrite <- !app_assoc.
      * now rewrite (same_at_get _ _ _ Ha).
    + apply dict_lookup_None in El.
      now rewrite (same_at_get _ _ _ (merge_package_absent name comp items El _ _ _ E)).
Qed.

(** A fragment whose keys are all new to the destination dict merges without
    conflict and without an exception: keys outside the fragment keep their
    values and the scalars of the fragment are stored. *)
Theorem disjoint_fragment_merges_cleanly (package c : dict) :
  wf_dict package ->
  (forall key, In key (dict_keys package) -> dict_lookup c key = None) ->
  exists c',
    _recursive_merge (VDict c) package = (VDict c', Returns None)
    /\ (forall key, ~ In key (dict_keys package) ->
                    dict_lookup c' key = dict_lookup c key)
    /\ (forall key v, dict_lookup package key = Some v -> is_scalar v = true ->
                      dict_lookup c' key = Some v).
Proof.
  intros Hwf Habs.
  destruct (merge_absent package [] c Hwf Habs) as (c' & E & H).
  rewrite app_nil_r in E. exists c'. split; [exact E | exact H].
Qed.

(** The error [_recursive_merge] returns after two nested dicts is the
    result of the second nested call, whatever the first one found. *)
Theorem last_nested_result_wins (c : dict) a b (sub_a sub_b : dict)
    cur_a e_a cur_b e_b :
  sub_a <> [] -> sub_b <> [] ->
  _recursive_merge (dict_get_default c a (VDict [])) sub_a = (cur_a, Returns e_a) ->
  _recursive_merge
    (dict_get_default (dict_set c a cur_a) b (VDict [])) sub_b
  = (cur_b, Returns e_b) ->
  _recursive_merge (VDict c) [(a, VDict sub_a); (b, VDict sub_b)]
  = (VDict (dict_set (dict_set c a cur_a) b cur_b), Returns e_b).
Proof.
  intros Ha Hb Ea Eb. unfold _recursive_merge in *.
  assert (Ta : truthy (VDict sub_a) = true)
    by (destruct sub_a; [contradiction | reflexivity]).
  assert (Tb : truthy (VDict sub_b) = true)
    by (destruct sub_b; [contradiction | reflexivity]).
  cbn [merge_items]. rewrite Ta. cbn [negb merge_fragment]. rewrite Ea.
  rewrite Tb. cbn [negb merge_fragment]. rewrite Eb.
  reflexivity.
Qed.

(** C1 (amended).  Two packages are merged in order into a tree that has no
    entry for a dict-style domain, and both set the scalar key [k] directly
    under that domain, the first to a non-null value; [k] is the first key of
    the second fragment that the first fragment sets too, and the merge
    returns.  Then exactly one duplicate-key error is logged for the pair of
    the domain and [k], by the second package, and the domain entry keeps the
    first package's value of [k]. *)
Theorem C1_first_conflict_logged_once_first_value_kept
    config n1 p1 n2 p2 comp integration component f1 f2 k v1 v2 st tree :
  comp <> CONF_CORE ->
  async_get_integration (first_word comp) = Returns integration ->
  get_component integration = Returns component ->
  list_style component = false ->
  dict_lookup config comp = None ->
  wf_dict p1 -> wf_dict p2 ->
  dict_lookup p1 comp = Some (VDict f1) ->
  dict_lookup p2 comp = Some (VDict f2) ->
  dict_lookup f1 k = Some v1 -> is_scalar v1 = true -> is_none v1 = false ->
  dict_lookup f2 k = Some v2 -> is_scalar v2 = true ->
  k <> "" ->
  (forall key, In key (keys_before k f2) -> dict_lookup f1 key = None) ->
  merge_packages_config config [(n1, VDict p1); (n2, VDict p2)]
  = (st, Returns tree) ->
  duplicate_errors comp k (errors st)
  = [{| pe_package := n2; pe_component := comp;
        pe_message := duplicate_key_message k |}]
  /\ exists d, dict_lookup (cfg st) comp = Some (VDict d)
               /\ dict_lookup d k = Some v1.
Proof.
  intros Hcore Hint Hcomp Hstyle Hfresh Hwf1 Hwf2 Hp1 Hp2 Hk1 Hs1 Hn1 Hk2 Hs2
         Hne Hfirst Hrun.
  unfold Merge.merge_packages_config in Hrun.
  destruct (PACKAGES_CONFIG_SCHEMA _); [|discriminate].
  simpl in Hrun.
  destruct (merge_package n1 p1 _) as [s1 [[]|e1]] eqn:E1; [|discriminate].
  destruct (merge_package n2 p2 s1) as [s2 [[]|e2]] eqn:E2; [|discriminate].
  injection Hrun as <- _.
  (* the first package *)
  destruct (merge_package_at n1 comp _ p1 (wf_dict_keys _ Hwf1) Hp1 _ _ E1)
    as (sa & sb & [Ha Hae] & Hm & [Hb Hbe]).
  rewrite (merge_component_dict _ _ _ _ _ _ Hcore Hint Hcomp Hstyle) in Hm.
  simpl in Ha. rewrite Hfresh in Ha.
  assert (Hwff1 : wf_dict f1) by (eapply (wf_dict_lookup p1); eauto).
  destruct (fresh_step n1 comp f1 sa Ha Hwff1) as (c1 & Em & Hout1 & Hin1).
  rewrite Em in Hm. injection Hm as <-.
  simpl in Hb, Hbe. rewrite dict_lookup_set_eq in Hb.
  (* the second package *)
  destruct (merge_package_at n2 comp _ p2 (wf_dict_keys _ Hwf2) Hp2 _ _ E2)
    as (sa2 & sb2 & [Ha2 Hae2] & Hm2 & [Hb2 Hbe2]).
  rewrite (merge_component_dict _ _ _ _ _ _ Hcore Hint Hcomp Hstyle) in Hm2.
  rewrite Hb in Ha2.
  assert (Hwff2 : wf_dict f2) by (eapply (wf_dict_lookup p2); eauto).
  destruct (dict_lookup_split _ _ _ Hk2) as (pre & post & -> & Hpre).
  rewrite keys_before_split in Hfirst by assumption.
  destruct (conflict_step n2 comp sa2 c1 pre post k v2 v1 Ha2) as (c2 & Em2 & Hout2 & _);
    auto.
  { apply (wf_dict_app _ _ Hwff2). }
  { intros key Hin. apply Hout1. apply dict_lookup_None. auto. }
  rewrite Em2 in Hm2. apply String.eqb_neq in Hne. rewrite Hne in Hm2.
  apply log_returns in Hm2. subst sb2.
  split.
  - rewrite Hbe2. simpl. rewrite duplicate_errors_log.
    rewrite Hae2, Hbe, Hae. reflexivity.
  - exists c2. rewrite Hb2. simpl. rewrite dict_lookup_set_eq. split; auto.
    rewrite Hout2 by assumption. auto.
Qed.

(** C2 (amended).  A fragment is merged into a dict-style domain whose entry
    is the dict [c]; the keys [pre] it lists first are new to [c], and the
    next one, the scalar [k], is already set in [c] to a value that is not
    null.  Then the merge of this fragment stops at [k]:
    - every key before [k] is merged: it holds what [merged_alone] says of
      its value (the scalar or the non-empty list itself, the dict built from a
      non-empty dict, nothing for an empty dict or list);
    - [k] keeps its value, and every key outside [pre], the keys listed
      after [k] among them, is left as it was in [c];
    - the logger is called once, with [k], on the tree so merged; if it
      returns, the error is logged and the step returns, so the loop goes on
      with the next component; if it raises, nothing is logged and the
      exception leaves the loop;
    - when [k] is the empty string, which [if error:] takes for no error,
      the logger is not called and the step returns. *)
Theorem C2_conflict_stops_the_fragment_merge
    pack comp integration component st c (pre post : dict) k v old :
  comp <> CONF_CORE ->
  async_get_integration (first_word comp) = Returns integration ->
  get_component integration = Returns component ->
  list_style component = false ->
  dict_lookup (cfg st) comp = Some (VDict c) ->
  wf_dict pre ->
  (forall key, In key (dict_keys pre) -> dict_lookup c key = None) ->
  ~ In k (dict_keys pre) ->
  is_scalar v = true ->
  dict_lookup c k = Some old -> is_none old = false ->
  exists c',
    (forall key val, dict_lookup pre key = Some val ->
                     dict_lookup c' key = merged_alone val)
    /\ dict_lookup c' k = Some old
    /\ (forall key, ~ In key (dict_keys pre) ->
                    dict_lookup c' key = dict_lookup c key)
    /\ merge_component pack comp (VDict (pre ++ (k, v) :: post)) st
       = if String.eqb k ""
         then ({| cfg := dict_set (cfg st) comp (VDict c'); errors := errors st |},
               Returns tt)
         else
           match logger pack comp (dict_set (cfg st) comp (VDict c'))
                   (duplicate_key_message k) with
           | Returns _ =>
               ({| cfg := dict_set (cfg st) comp (VDict c');
                   errors := errors st
                             ++ [{| pe_package := pack; pe_component := comp;
                                    pe_message := duplicate_key_message k |}] |},
                Returns tt)
           | Raises e =>
               ({| cfg := dict_set (cfg st) comp (VDict c'); errors := errors st |},
                Raises e)
           end.
Proof.
  intros Hcore Hint Hcomp Hstyle Hc Hwf Habs Hk Hv Hold Hnone.
  destruct (conflict_step pack comp st c pre post k v old Hc Hwf Habs Hk Hv Hold
              Hnone) as (c' & E & Hout & Hin).
  exists c'. split; [exact Hin | split; [|split; [exact Hout|]]].
  - rewrite Hout; auto.
  - rewrite (merge_component_dict _ _ _ _ _ _ Hcore Hint Hcomp Hstyle), E.
    destruct (String.eqb k ""); [reflexivity|].
    unfold Merge.log_pkg_error. simpl.
    destruct (logger _ _ _ _); reflexivity.
Qed.

(** C3.  For a list-style component (it has a [PLATFORM_SCHEMA], or its
    [CONFIG_SCHEMA] is identified as a list) a truthy fragment is merged by
    coercing the existing entry and the fragment to lists and storing
    existing ++ incoming; a falsy fragment changes nothing; and over any
    packages the entry grows by the truthy fragments in package order. *)
Theorem C3_list_style_merge_is_concatenation comp integration component :
  comp <> CONF_CORE ->
  async_get_integration (first_word comp) = Returns integration ->
  get_component integration = Returns component ->
  list_style component = true ->
  (forall pack frag st,
      truthy frag = true ->
      merge_component pack comp frag st
      = ({| cfg := dict_set (cfg st) comp
                     (VList (ensure_list (dict_get (cfg st) comp)
                             ++ ensure_list frag));
            errors := errors st |}, Returns tt))
  /\ (forall pack frag st,
         truthy frag = false ->
         merge_component pack comp frag st = (st, Returns tt))
  /\ (forall packages st st',
         (forall name pkg, In (name, pkg) packages -> wf_value pkg) ->
         merge_packages packages st = (st', Returns tt) ->
         ensure_list (dict_get (cfg st') comp)
         = ensure_list (dict_get (cfg st) comp)
           ++ flat_map ensure_list (filter truthy (fragments comp packages))).
Proof.
  intros Hcore Hint Hcomp Hstyle. split; [|split].
  - intros pack frag st Ht.
    rewrite (merge_component_list _ _ _ _ _ _ Hcore Hint Hcomp Hstyle), Ht.
    reflexivity.
  - intros pack frag st Ht.
    rewrite (merge_component_list _ _ _ _ _ _ Hcore Hint Hcomp Hstyle), Ht.
    reflexivity.
  - eapply merge_packages_list_order; eauto.
Qed.

(** C8.  [merge_packages_config] validates [packages] before the loop: when
    a package name is not a slug, or a package holds a component config that
    is not a dict, a list or null, the call raises the validation error,
    the tree is the one passed in and nothing has been logged. *)
Theorem C8_invalid_packages_merge_nothing config packages name pkg :
  In (name, pkg) packages ->
  is_slug name = false
  \/ (exists items comp v, pkg = VDict items /\ In (comp, v) items
                           /\ component_config_ok v = false) ->
  merge_packages_config config packages
  = ({| cfg := config; errors := [] |}, Raises SchemaInvalid).
Proof.
  intros Hin Hbad. unfold Merge.merge_packages_config, PACKAGES_CONFIG_SCHEMA.
  destruct (forallb _ packages) eqn:E; [|reflexivity].
  exfalso. rewrite forallb_forall in E. specialize (E _ Hin). simpl in E.
  apply andb_true_iff in E. destruct E as [Eslug Eok].
  destruct Hbad as [Hslug | (items & comp & v & -> & Hv & Hbad)].
  - congruence.
  - simpl in Eok. rewrite forallb_forall in Eok. specialize (Eok _ Hv).
    simpl in Eok. congruence.
Qed.

End Component.

Import Examples.

Ltac solve_wf :=
  unfold wf_dict; simpl; repeat split;
  repeat (constructor; [simpl; intuition discriminate|]); constructor.

Lemma disjoint_fragment_witness :
  exists c',
    _recursive_merge (VDict [("port", VInt 1234)])
      [("base_url", VStr "a.example"); ("cors", VList [VStr "c.example"])]
    = (VDict c', Returns None)
    /\ (forall key,
           ~ In key (dict_keys [("base_url", VStr "a.example");
                                ("cors", VList [VStr "c.example"])]) ->
           dict_lookup c' key = dict_lookup [("port", VInt 1234)] key)
    /\ (forall key v,
           dict_lookup [("base_url", VStr "a.example");
                        ("cors", VList [VStr "c.example"])] key = Some v ->
           is_scalar v = true -> dict_lookup c' key = Some v).
Proof.
  apply (disjoint_fragment_merges_cleanly
           [("base_url", VStr "a.example"); ("cors", VList [VStr "c.example"])]
           [("port", VInt 1234)]).
  - solve_wf.
  - simpl. intros key [<-|[<-|[]]]; reflexivity.
Defined.

Lemma last_nested_result_witness :
  _recursive_merge (VDict [("a", VDict [("x", VInt 1)])])
    [("a", VDict [("x", VInt 2)]); ("b", VDict [("y", VInt 3)])]
  = (VDict (dict_set (dict_set [("a", VDict [("x", VInt 1)])] "a"
                        (VDict [("x", VInt 1)])) "b" (VDict [("y", VInt 3)])),
     Returns None).
Proof.
  apply (last_nested_result_wins [("a", VDict [("x", VInt 1)])] "a" "b"
           [("x", VInt 2)] [("y", VInt 3)] (VDict [("x", VInt 1)]) (Some "x")
           (VDict [("y", VInt 3)]) None);
    try discriminate; reflexivity.
Defined.

(** The spec's scenario: [http.port] set by both packages. *)
Lemma C1_witness_http_port :
  duplicate_errors "http" "port"
    (errors (fst (merge_packages_config "openpeerpower" example_loader
                    default_logger (tree_of port_packages) port_packages)))
  = [{| pe_package := "pkg2"; pe_component := "http";
        pe_message := duplicate_key_message "port" |}]
  /\ exists d,
       dict_lookup
         (cfg (fst (merge_packages_config "openpeerpower" example_loader
                      default_logger (tree_of port_packages) port_packages)))
         "http" = Some (VDict d)
       /\ dict_lookup d "port" = Some (VInt 1234).
Proof.
  apply (C1_first_conflict_logged_once_first_value_kept
           "openpeerpower" example_loader default_logger (tree_of port_packages)
           "pkg1" [("http", VDict [("port", VInt 1234)])] "pkg2"
           [("http", VDict [("port", VInt 5678)])] "http"
           (integration_of "http" http_component) http_component
           [("port", VInt 1234)] [("port", VInt 5678)] "port"
           (VInt 1234) (VInt 5678)
           (fst (merge_packages_config "openpeerpower" example_loader
                   default_logger (tree_of port_packages) port_packages))
           (tree_of port_packages ++ [("http", VDict [("port", VInt 1234)])]));
    try reflexivity; try discriminate; try solve_wf.
  simpl. contradiction.
Defined.

(** C1 as stated fails: both packages set the scalars [http.port] and
    [http.base_url]; the merge of the second fragment stops at [port], so no
    duplicate-key error is logged for [base_url]. *)
Lemma C1_counterexample_second_conflict_unreported :
  merge_packages_config "openpeerpower" example_loader default_logger
    (tree_of two_conflicts) two_conflicts
  = ({| cfg := tree_of two_conflicts
               ++ [("http", VDict [("port", VInt 1234);
                                   ("base_url", VStr "a.example")])];
        errors := [{| pe_package := "pkg2"; pe_component := "http";
                      pe_message := "has duplicate key 'port'" |}] |},
     Returns (tree_of two_conflicts
              ++ [("http", VDict [("port", VInt 1234);
                                  ("base_url", VStr "a.example")])]))
  /\ duplicate_errors "http" "base_url"
       (errors (fst (merge_packages_config "openpeerpower" example_loader
                       default_logger (tree_of two_conflicts) two_conflicts)))
     = [].
Proof. split; reflexivity. Qed.

(** On a tree without the core section the default logger raises before it
    logs: the conflict is not reported at all and KeyError leaves the merge. *)
Example default_logger_needs_the_core_section :
  merge_packages_config "openpeerpower" example_loader default_logger []
    port_packages
  = ({| cfg := [("http", VDict [("port", VInt 1234)])]; errors := [] |},
     Raises KeyError).
Proof. reflexivity. Qed.

(** A null first value is not a conflict: the second package's value is
    stored and nothing is logged. *)
Example null_first_value_is_overwritten :
  merge_packages_config "openpeerpower" example_loader default_logger []
    [("pkg1", VDict [("http", VDict [("port", VNone)])]);
     ("pkg2", VDict [("http", VDict [("port", VInt 5678)])])]
  = ({| cfg := [("http", VDict [("port", VInt 5678)])]; errors := [] |},
     Returns [("http", VDict [("port", VInt 5678)])]).
Proof. reflexivity. Qed.

(** A platform-style domain has no conflicts: both fragments are appended. *)
Example platform_style_fragments_never_conflict :
  merge_packages_config "openpeerpower" example_loader default_logger []
    [("pkg1", VDict [("light", VDict [("platform", VStr "test")])]);
     ("pkg2", VDict [("light", VDict [("platform", VStr "test")])])]
  = ({| cfg := [("light", VList [VDict [("platform", VStr "test")];
                                 VDict [("platform", VStr "test")]])];
        errors := [] |},
     Returns [("light", VList [VDict [("platform", VStr "test")];
                               VDict [("platform", VStr "test")]])]).
Proof. reflexivity. Qed.

(** How [_identify_config_schema] reads the schema text. *)
Example identify_config_schema_cases :
  let module t :=
    {| CONFIG_SCHEMA := Some {| validate := accept_all; domain_schema_str := t |};
       PLATFORM_SCHEMA_BASE := None; PLATFORM_SCHEMA := None |} in
  _identify_config_schema (module (Some "{'a': <class 'str'>}")) = Some MergeDict
  /\ _identify_config_schema
       (module (Some "<function schema_with_slug_keys.<locals>.verify at 0x7f>"))
     = Some MergeDict
  /\ _identify_config_schema (module (Some "[<function entity_id>]")) = Some MergeList
  /\ _identify_config_schema
       (module (Some "All(<function ensure_list at 0x7f>, [<class 'dict'>])"))
     = Some MergeList
  /\ _identify_config_schema (module (Some "<Schema({}, extra=ALLOW_EXTRA)>"))
     = Some MergeOther
  /\ _identify_config_schema (module None) = None
  /\ first_word "light living room" = "light".
Proof. cbv zeta. repeat split; reflexivity. Qed.

(** The result of a nested call is overwritten by the next nested call: the
    conflict on [a.x] is found and then forgotten when [b] is merged. *)
Example nested_conflict_is_forgotten :
  _recursive_merge (VDict [("a", VDict [("x", VInt 1)])])
    [("a", VDict [("x", VInt 2)]); ("b", VDict [("y", VInt 3)])]
  = (VDict [("a", VDict [("x", VInt 1)]); ("b", VDict [("y", VInt 3)])],
     Returns None).
Proof. reflexivity. Qed.

(** The second package of a file lists, for [http], a new scalar, a new
    list, a new dict and an empty dict before the conflicting [port], and
    [cors] after it. *)
Lemma C2_witness_port_conflict :
  exists c',
    (forall key val,
        dict_lookup [("base_url", VStr "b.example");
                     ("trusted", VList [VStr "10.0.0.1"]);
                     ("ssl", VDict [("profile", VStr "modern")]);
                     ("extra", VDict [])] key = Some val ->
        dict_lookup c' key = merged_alone val)
    /\ dict_lookup c' "port" = Some (VInt 1234)
    /\ (forall key,
           ~ In key ["base_url"; "trusted"; "ssl"; "extra"] ->
           dict_lookup c' key = dict_lookup [("port", VInt 1234)] key)
    /\ merge_component "openpeerpower" example_loader default_logger "pkg2" "http"
         (VDict ([("base_url", VStr "b.example");
                  ("trusted", VList [VStr "10.0.0.1"]);
                  ("ssl", VDict [("profile", VStr "modern")]);
                  ("extra", VDict [])]
                 ++ ("port", VInt 5678) :: [("cors", VStr "c.example")]))
         {| cfg := tree_of [] ++ [("http", VDict [("port", VInt 1234)])];
            errors := [] |}
       = ({| cfg := tree_of [] ++ [("http", VDict c')];
             errors := [{| pe_package := "pkg2"; pe_component := "http";
                           pe_message := duplicate_key_message "port" |}] |},
          Returns tt).
Proof.
  apply (C2_conflict_stops_the_fragment_merge
           "openpeerpower" example_loader default_logger "pkg2" "http"
           (integration_of "http" http_component) http_component
           {| cfg := tree_of [] ++ [("http", VDict [("port", VInt 1234)])];
              errors := [] |}
           [("port", VInt 1234)]
           [("base_url", VStr "b.example"); ("trusted", VList [VStr "10.0.0.1"]);
            ("ssl", VDict [("profile", VStr "modern")]); ("extra", VDict [])]
           [("cors", VStr "c.example")] "port" (VInt 5678) (VInt 1234));
    try reflexivity; try discriminate; try solve_wf.
  - simpl. intros key [<-|[<-|[<-|[<-|[]]]]]; reflexivity.
  - simpl. intuition discriminate.
Defined.

(** What the step of the witness leaves: the keys before [port] are merged,
    the empty dict is skipped, and [cors] is not merged. *)
Example port_conflict_result :
  merge_component "openpeerpower" example_loader default_logger "pkg2" "http"
    (VDict [("base_url", VStr "b.example"); ("trusted", VList [VStr "10.0.0.1"]);
            ("ssl", VDict [("profile", VStr "modern")]); ("extra", VDict []);
            ("port", VInt 5678); ("cors", VStr "c.example")])
    {| cfg := tree_of [] ++ [("http", VDict [("port", VInt 1234)])];
       errors := [] |}
  = ({| cfg := tree_of []
               ++ [("http", VDict [("port", VInt 1234);
                                   ("base_url", VStr "b.example");
                                   ("trusted", VList [VStr "10.0.0.1"]);
                                   ("ssl", VDict [("profile", VStr "modern")])])];
        errors := [{| pe_package := "pkg2"; pe_component := "http";
                      pe_message := "has duplicate key 'port'" |}] |},
     Returns tt).
Proof. reflexivity. Qed.

(** A conflict on the empty key is not reported. *)
Example empty_key_conflict_is_silent :
  merge_component "openpeerpower" example_loader default_logger "pkg2" "http"
    (VDict [("", VInt 2); ("cors", VStr "c.example")])
    {| cfg := tree_of [] ++ [("http", VDict [("", VInt 1)])]; errors := [] |}
  = ({| cfg := tree_of [] ++ [("http", VDict [("", VInt 1)])]; errors := [] |},
     Returns tt).
Proof. reflexivity. Qed.

(** C2 as stated fails: after the conflict on [port] the key [cors] of the
    same fragment is not merged. *)
Lemma C2_counterexample_later_key_not_merged :
  _recursive_merge (VDict [("port", VInt 1234)])
    [("port", VInt 5678); ("cors", VStr "c.example")]
  = (VDict [("port", VInt 1234)], Returns (Some "port")).
Proof. reflexivity. Qed.

(** The spec's scenario: two packages for [light]. *)
Lemma C3_witness_light :
  (forall pack frag st,
      truthy frag = true ->
      merge_component "openpeerpower" example_loader default_logger pack "light"
        frag st
      = ({| cfg := dict_set (cfg st) "light"
                     (VList (ensure_list (dict_get (cfg st) "light")
                             ++ ensure_list frag));
            errors := errors st |}, Returns tt))
  /\ (forall pack frag st,
         truthy frag = false ->
         merge_component "openpeerpower" example_loader default_logger pack
           "light" frag st
         = (st, Returns tt))
  /\ (forall packages st st',
         (forall name pkg, In (name, pkg) packages -> wf_value pkg) ->
         merge_packages "openpeerpower" example_loader default_logger packages st
         = (st', Returns tt) ->
         ensure_list (dict_get (cfg st') "light")
         = ensure_list (dict_get (cfg st) "light")
           ++ flat_map ensure_list (filter truthy (fragments "light" packages))).
Proof.
  apply (C3_list_style_merge_is_concatenation "openpeerpower" example_loader
           default_logger
           "light" (integration_of "light" light_component) light_component);
    try reflexivity; discriminate.
Defined.

Example light_packages_merge :
  merge_packages_config "openpeerpower" example_loader default_logger []
    light_packages
  = ({| cfg := [("light", VList [VDict [("platform", VStr "test")];
                                 VDict [("platform", VStr "test2")]])];
        errors := [] |},
     Returns [("light", VList [VDict [("platform", VStr "test")];
                               VDict [("platform", VStr "test2")]])]).
Proof. reflexivity. Qed.

Lemma C8_witness_bad_package_name :
  merge_packages_config "openpeerpower" example_loader default_logger
    [("http", VDict [("port", VInt 1)])]
    [("Pack One", VDict [("http", VDict [("port", VInt 2)])])]
  = ({| cfg := [("http", VDict [("port", VInt 1)])]; errors := [] |},
     Raises SchemaInvalid).
Proof.
  apply (C8_invalid_packages_merge_nothing "openpeerpower" example_loader
           default_logger
           [("http", VDict [("port", VInt 1)])]
           [("Pack One", VDict [("http", VDict [("port", VInt 2)])])]
           "Pack One" (VDict [("http", VDict [("port", VInt 2)])])).
  - left. reflexivity.
  - left. reflexivity.
Defined.

End MergeProofs.

(** ** Component validation and the error registry *)

Module ValidateProofs.

Section Registry.

Lemma notify_keeps_flag comp other display_link (opp : Validate.opp_state) errors :
  persistent_errors opp = Some errors ->
  dict_lookup errors comp = Some true ->
  exists errors',
    persistent_errors (async_notify_setup_error other display_link opp)
    = Some errors'
    /\ dict_lookup errors' comp = Some true.
Proof.
  intros He Hc. unfold async_notify_setup_error. rewrite He. simpl.
  eexists. split; [reflexivity|].
  destruct (String.eqb other comp) eqn:E.
  - apply String.eqb_eq in E. subst other.
    rewrite dict_lookup_set_eq. unfold link_flag. now rewrite Hc.
  - apply String.eqb_neq in E. now rewrite dict_lookup_set_ne.
Qed.

Lemma notify_records comp display_link (opp : Validate.opp_state) :
  exists errors,
    persistent_errors (async_notify_setup_error comp display_link opp)
    = Some errors
    /\ notifications (async_notify_setup_error comp display_link opp)
       = notifications opp
         ++ [{| n_message := error_message errors; n_title := "Invalid config";
                n_id := "invalid_config" |}].
Proof. unfold async_notify_setup_error. simpl. eauto. Qed.

Lemma notify_all_keeps_flag comp calls :
  forall (opp : Validate.opp_state) errors,
    persistent_errors opp = Some errors ->
    dict_lookup errors comp = Some true ->
    (exists earlier,
        notifications opp
        = earlier ++ [{| n_message := error_message errors;
                         n_title := "Invalid config"; n_id := "invalid_config" |}]) ->
    exists errors',
      persistent_errors (notify_all calls opp) = Some errors'
      /\ dict_lookup errors' comp = Some true
      /\ exists earlier,
           notifications (notify_all calls opp)
           = earlier ++ [{| n_message := error_message errors';
                            n_title := "Invalid config"; n_id := "invalid_config" |}].
Proof.
  induction calls as [|[other dl] calls IH]; intros opp errors He Hc Hn; simpl.
  - eauto.
  - destruct (notify_keeps_flag comp other dl opp errors He Hc) as (e1 & He1 & Hc1).
    eapply IH; eauto.
    destruct (notify_records other dl opp) as (e2 & He2 & Hn2).
    rewrite He1 in He2. injection He2 as <-. eauto.
Qed.

(** C10.  Once [async_notify_setup_error] has recorded a component with
    [display_link] true, its flag in the registry stays true through any
    later calls, whatever their component and flag, and the notification
    created last is rendered from that registry, so it has the component's
    line with the documentation link. *)
Theorem C10_documentation_link_flag_is_monotone
    (opp : Validate.opp_state) comp (calls : list (string * bool)) :
  exists errors,
    persistent_errors (notify_all calls (async_notify_setup_error comp true opp))
    = Some errors
    /\ dict_lookup errors comp = Some true
    /\ In (error_line (comp, true)) (map error_line errors)
    /\ exists earlier,
         notifications (notify_all calls (async_notify_setup_error comp true opp))
         = earlier ++ [{| n_message := error_message errors;
                          n_title := "Invalid config"; n_id := "invalid_config" |}].
Proof.
  destruct (notify_records comp true opp) as (e1 & He1 & Hn1).
  assert (Hc1 : dict_lookup e1 comp = Some true).
  { unfold async_notify_setup_error in He1. simpl in He1. injection He1 as <-.
    rewrite dict_lookup_set_eq. unfold link_flag.
    destruct (dict_lookup _ comp) as [[]|]; reflexivity. }
  destruct (notify_all_keeps_flag comp calls _ e1 He1 Hc1) as (errors & He & Hc & Hn).
  { eauto. }
  exists errors. repeat split; auto.
  apply in_map. now apply dict_lookup_In.
Qed.

End Registry.

Lemma dict_lookup_filter (keep : string -> bool) (d : dict) key :
  dict_lookup (filter (fun kv => keep (fst kv)) d) key
  = if keep key then dict_lookup d key else None.
Proof.
  induction d as [|[k v] d IH]; simpl.
  - now destruct (keep key).
  - destruct (String.eqb k key) eqn:E.
    + apply String.eqb_eq in E. subst k.
      destruct (keep key) eqn:Ek; simpl.
      * now rewrite String.eqb_refl.
      * exact IH.
    + destruct (keep k); simpl; rewrite ?E; exact IH.
Qed.

Section Platforms.

Variable async_get_integration : string -> outcome Integration.
Variable config_per_platform : dict -> string -> list (option string * value).
Variable extract_domain_configs : dict -> string -> list string.

Local Abbreviation resolve_platform := (resolve_platform async_get_integration).
Local Abbreviation validate_platform := (validate_platform async_get_integration).
Local Abbreviation validate_platforms := (validate_platforms async_get_integration).
Local Abbreviation validated_entry := (validated_entry async_get_integration).
Local Abbreviation surviving_entries := (surviving_entries async_get_integration).
Local Abbreviation async_process_component_config :=
  (async_process_component_config async_get_integration config_per_platform
     extract_domain_configs).

(** One entry: the step returns, and appends the entry exactly when the
    spec's [validated_entry] says it survives. *)
Lemma validate_platform_spec dom sch entry platforms (opp : Validate.opp_state) :
  rejects_with_invalid sch ->
  platforms_resolve_or_are_missing async_get_integration dom ->
  exists opp',
    validate_platform dom sch entry platforms opp
    = (opp', Returns (platforms ++ match validated_entry dom sch entry with
                                   | Some v => [v]
                                   | None => []
                                   end)).
Proof.
  intros Hsch Hres. destruct entry as [p_name p_config].
  unfold Validate.validate_platform, Validate.validated_entry.
  destruct (sch p_config) as [p_validated|ex] eqn:Es.
  - destruct p_name as [p_name|]; [|eauto].
    specialize (Hres p_name).
    destruct (resolve_platform p_name dom) as [platform|e] eqn:Er.
    + destruct (platform_PLATFORM_SCHEMA platform) as [ps|] eqn:Ep; [|eauto].
      destruct (ps p_config) as [v|ex] eqn:Eps; [eauto|].
      rewrite (Hres ps eq_refl _ _ Eps), app_nil_r. eauto.
    + rewrite app_nil_r. destruct Hres as [-> | ->]; eauto.
  - rewrite (Hsch _ _ Es), app_nil_r. destruct p_name; eauto.
Qed.

Lemma validate_platforms_spec dom sch entries :
  rejects_with_invalid sch ->
  platforms_resolve_or_are_missing async_get_integration dom ->
  forall platforms (opp : Validate.opp_state),
  exists opp',
    validate_platforms dom sch entries platforms opp
    = (opp', Returns (platforms ++ surviving_entries dom sch entries)).
Proof.
  intros Hsch Hres. induction entries as [|entry entries IH]; intros platforms opp.
  - simpl. rewrite app_nil_r. eauto.
  - simpl. destruct (validate_platform_spec dom sch entry platforms opp Hsch Hres)
      as (opp1 & ->).
    destruct (IH (platforms ++ match validated_entry dom sch entry with
                               | Some v => [v] | None => [] end) opp1)
      as (opp2 & ->).
    rewrite <- app_assoc. eauto.
Qed.

(** No [vol.Invalid] of a schema leaves the loop. *)
Lemma validate_platform_no_invalid dom sch entry platforms
    (opp opp' : Validate.opp_state) e :
  loader_raises_no_invalid async_get_integration dom ->
  validate_platform dom sch entry platforms opp = (opp', Raises e) ->
  is_vol_invalid e = false.
Proof.
  intros Hl. destruct entry as [p_name p_config]. unfold Validate.validate_platform.
  destruct (sch p_config) as [p_validated|ex] eqn:Es.
  - destruct p_name as [p_name|]; [|discriminate].
    destruct (resolve_platform p_name dom) as [platform|e0] eqn:Er.
    + destruct (platform_PLATFORM_SCHEMA platform) as [ps|]; [|discriminate].
      destruct (ps p_config) as [v|ex]; [discriminate|].
      destruct (is_vol_invalid ex) eqn:Ei; [discriminate|].
      now intros [= _ <-].
    + specialize (Hl _ _ Er).
      destruct e0; try discriminate; now intros [= _ <-].
  - destruct (is_vol_invalid ex) eqn:Ei; [discriminate|]. now intros [= _ <-].
Qed.

Lemma validate_platforms_no_invalid dom sch entries :
  loader_raises_no_invalid async_get_integration dom ->
  forall platforms (opp opp' : Validate.opp_state) e,
    validate_platforms dom sch entries platforms opp = (opp', Raises e) ->
    is_vol_invalid e = false.
Proof.
  intros Hl. induction entries as [|entry entries IH]; intros platforms opp opp' e.
  - discriminate.
  - simpl. destruct (validate_platform dom sch entry platforms opp)
      as [opp1 [ps|e1]] eqn:E1.
    + apply IH.
    + intros [= _ <-]. eapply validate_platform_no_invalid; eauto.
Qed.

(** C4.  [async_process_component_config], for an integration whose
    component imports:
    - when the component has a [CONFIG_SCHEMA] that rejects the config, the
      call returns [None] and the error has been reported;
    - when it has none but has a platform schema, and the collaborators fail
      only the way the code expects, the call returns a config whose [domain]
      key is the list of exactly the surviving validated entries, whose other
      keys of the domain are removed and whose remaining keys are unchanged;
    - in no case does a [vol.Invalid] raised by a schema leave the call. *)
Theorem C4_validation_failures_do_not_escape
    (config : dict) integration component (opp : Validate.opp_state) :
  get_component integration = Returns component ->
  (forall config_schema ex,
      CONFIG_SCHEMA component = Some config_schema ->
      validate config_schema (VDict config) = Raises ex ->
      is_vol_invalid ex = true ->
      async_process_component_config config integration opp
      = (async_log_exception ex (domain integration) (VDict config) opp,
         Returns None))
  /\ (forall sch,
         CONFIG_SCHEMA component = None ->
         component_platform_schema_of component = Some sch ->
         rejects_with_invalid sch ->
         platforms_resolve_or_are_missing async_get_integration (domain integration) ->
         exists opp' config',
           async_process_component_config config integration opp
           = (opp', Returns (Some (VDict config')))
           /\ dict_lookup config' (domain integration)
              = Some (VList (surviving_entries (domain integration) sch
                               (config_per_platform config (domain integration))))
           /\ forall key,
                key <> domain integration ->
                dict_lookup config' key
                = if existsb (String.eqb key)
                       (extract_domain_configs config (domain integration))
                  then None else dict_lookup config key)
  /\ (loader_raises_no_invalid async_get_integration (domain integration) ->
      forall opp' e,
        async_process_component_config config integration opp = (opp', Raises e) ->
        is_vol_invalid e = false).
Proof.
  intros Hcomp. unfold Validate.async_process_component_config. rewrite Hcomp.
  split; [|split].
  - intros cs ex Hcs Hrej Hinv. now rewrite Hcs, Hrej, Hinv.
  - intros sch Hcs Hsch Hrej Hres. rewrite Hcs, Hsch.
    destruct (validate_platforms_spec (domain integration) sch
                (config_per_platform config (domain integration)) Hrej Hres [] opp)
      as (opp' & ->).
    simpl. eexists _, _. split; [reflexivity|]. unfold rebuild_config. split.
    + apply dict_lookup_set_eq.
    + intros key Hne. rewrite dict_lookup_set_ne by congruence.
      rewrite (dict_lookup_filter
                 (fun k => negb (existsb (String.eqb k)
                                   (extract_domain_configs config (domain integration))))).
      now destruct (existsb _ _).
  - intros Hl opp' e.
    destruct (CONFIG_SCHEMA component) as [cs|].
    + destruct (validate cs (VDict config)) as [v|ex]; [discriminate|].
      destruct (is_vol_invalid ex) eqn:Ei; [discriminate|]. now intros [= _ <-].
    + destruct (component_platform_schema_of component) as [sch|]; [|discriminate].
      destruct (validate_platforms _ _ _ _ _) as [opp1 [ps|e1]] eqn:E; [discriminate|].
      intros [= _ <-]. eapply validate_platforms_no_invalid; eauto.
Qed.

(** C9.  A platform entry names a platform whose integration is not found
    or whose module does not import.  When the entry reaches the resolution
    (the domain-level platform schema accepts it), the step leaves [opp] as it
    was (nothing logged, nothing added to the notification) and the list of
    validated platforms unchanged; and whatever the domain-level schema says,
    the entry is not among the surviving entries and is never appended. *)
Theorem C9_unresolvable_platform_is_dropped_silently
    dom sch p_name p_config platforms (opp : Validate.opp_state) e :
  resolve_platform p_name dom = Raises e ->
  e = IntegrationNotFound \/ e = ImportError ->
  (forall p_validated,
      sch p_config = Returns p_validated ->
      validate_platform dom sch (Some p_name, p_config) platforms opp
      = (opp, Returns platforms))
  /\ validated_entry dom sch (Some p_name, p_config) = None
  /\ (forall opp' platforms',
         validate_platform dom sch (Some p_name, p_config) platforms opp
         = (opp', Returns platforms') ->
         platforms' = platforms).
Proof.
  intros Hres He. unfold Validate.validate_platform, Validate.validated_entry.
  rewrite Hres. split; [|split].
  - intros v ->. destruct He as [-> | ->]; reflexivity.
  - destruct (sch p_config); reflexivity.
  - intros opp' platforms'. destruct (sch p_config) as [v|ex].
    + destruct He as [-> | ->]; now intros [= _ <-].
    + destruct (is_vol_invalid ex); [now intros [= _ <-] | discriminate].
Qed.

End Platforms.

Import Examples.

Lemma requires_key_rejects_with_invalid key : rejects_with_invalid (requires_key key).
Proof.
  intros v e. unfold requires_key.
  destruct v; try (intros [= <-]; reflexivity).
  destruct (dict_lookup d key); [discriminate | intros [= <-]; reflexivity].
Qed.

Lemma example_platforms_resolve dom :
  platforms_resolve_or_are_missing example_loader dom.
Proof.
  intros p_name. unfold resolve_platform, example_loader.
  destruct (String.eqb p_name "http"); [simpl; auto|].
  destruct (String.eqb p_name "light"); [simpl; auto|].
  destruct (String.eqb p_name "sensor"); [simpl; auto|].
  destruct (String.eqb p_name "hue"); [|simpl; auto].
  simpl. intros s [= <-]. apply requires_key_rejects_with_invalid.
Defined.

(** Of the four sensor entries and the one of [sensor 2], two survive; the
    keys [sensor] and [sensor 2] are replaced by the rebuilt [sensor]. *)
Lemma C4_witness_sensor_platforms :
  exists opp' config',
    async_process_component_config example_loader example_config_per_platform
      example_extract_domain_configs sensor_config
      (integration_of "sensor" sensor_component) fresh_opp
    = (opp', Returns (Some (VDict config')))
    /\ dict_lookup config' "sensor"
       = Some (VList (surviving_entries example_loader "sensor"
                        (requires_key "platform")
                        (example_config_per_platform sensor_config "sensor")))
    /\ forall key,
         key <> "sensor" ->
         dict_lookup config' key
         = if existsb (String.eqb key)
                (example_extract_domain_configs sensor_config "sensor")
           then None else dict_lookup sensor_config key.
Proof.
  apply (proj1 (proj2 (C4_validation_failures_do_not_escape example_loader
                         example_config_per_platform example_extract_domain_configs
                         sensor_config (integration_of "sensor" sensor_component)
                         sensor_component fresh_opp eq_refl))
           (requires_key "platform") eq_refl eq_refl
           (requires_key_rejects_with_invalid "platform")
           (example_platforms_resolve "sensor")).
Defined.

Example sensor_platforms_validated :
  async_process_component_config example_loader example_config_per_platform
    example_extract_domain_configs sensor_config
    (integration_of "sensor" sensor_component) fresh_opp
  = (async_log_exception SchemaInvalid "sensor" (VDict [("name", VStr "kitchen")])
       (async_log_exception SchemaInvalid "sensor.hue"
          (VDict [("platform", VStr "hue")]) fresh_opp),
     Returns
       (Some
          (VDict
             [("http", VDict [("port", VInt 8123)]);
              ("sensor",
               VList [VDict [("platform", VStr "hue"); ("host", VStr "10.0.0.2")];
                      VDict [("platform", VStr "hue"); ("host", VStr "10.0.0.3")]])]))).
Proof. reflexivity. Qed.

(** The entry naming the platform [nonexistent] is dropped without a trace. *)
Lemma C9_witness_nonexistent_platform :
  (forall p_validated,
      requires_key "platform" (VDict [("platform", VStr "nonexistent")])
      = Returns p_validated ->
      validate_platform example_loader "sensor" (requires_key "platform")
        (Some "nonexistent", VDict [("platform", VStr "nonexistent")]) [] fresh_opp
      = (fresh_opp, Returns []))
  /\ validated_entry example_loader "sensor" (requires_key "platform")
       (Some "nonexistent", VDict [("platform", VStr "nonexistent")]) = None
  /\ (forall opp' platforms',
         validate_platform example_loader "sensor" (requires_key "platform")
           (Some "nonexistent", VDict [("platform", VStr "nonexistent")]) []
           fresh_opp
         = (opp', Returns platforms') ->
         platforms' = []).
Proof.
  apply (C9_unresolvable_platform_is_dropped_silently example_loader "sensor"
           (requires_key "platform") "nonexistent"
           (VDict [("platform", VStr "nonexistent")]) [] fresh_opp
           IntegrationNotFound eq_refl (or_introl eq_refl)).
Defined.

Example link_survives_a_later_call_without_link :
  persistent_errors
    (async_notify_setup_error "my_sensor" false
       (async_notify_setup_error "my_sensor" true
          {| persistent_errors := None; notifications := []; error_log := [] |}))
  = Some [("my_sensor", true)]
  /\ error_line ("my_sensor", true)
     = (" - [my-sensor](https://open-peer-power.io/components/my_sensor/)"
        ++ newline)%string.
Proof. split; reflexivity. Qed.

End ValidateProofs.

(** ** Core configuration *)

Module CoreProofs.

Section FirstRepeat.

Context {Key : Type} (eqb : Key -> Key -> bool).

Lemma first_repeat_none seen keys :
  first_repeat eqb seen keys = None <->
  unique_keys eqb keys
  /\ forall k, In k keys -> existsb (eqb k) seen = false.
Proof.
  revert seen. induction keys as [|k keys IH]; intros seen; simpl.
  - split; auto. intros _. split; [constructor | contradiction].
  - destruct (existsb (eqb k) seen) eqn:E.
    + split; [discriminate|]. intros [_ H]. specialize (H k (or_introl eq_refl)).
      congruence.
    + split.
      * intros H. apply IH in H. destruct H as [Hu Hs]. split.
        -- constructor; auto. apply Forall_forall. intros x Hx.
           specialize (Hs x Hx). simpl in Hs. now apply orb_false_iff in Hs.
        -- intros x [<-|Hx]; auto. specialize (Hs x Hx). simpl in Hs.
           now apply orb_false_iff in Hs.
      * intros [Hu Hs]. apply IH.
        inversion Hu as [|? ? Hk Hu']; subst. split; auto.
        intros x Hx. simpl. apply orb_false_iff. split.
        -- rewrite Forall_forall in Hk. auto.
        -- apply Hs. now right.
Qed.

Lemma first_repeat_in keys k :
  forall seen, first_repeat eqb seen keys = Some k ->
               exists l2 l3, keys = l2 ++ k :: l3.
Proof.
  induction keys as [|x keys IHk]; intros seen; simpl; [discriminate|].
  destruct (existsb (eqb x) seen).
  - intros [= ->]. now exists [], keys.
  - intros H. destruct (IHk _ H) as (l2 & l3 & ->).
    now exists (x :: l2), l3.
Qed.

Lemma first_repeat_some seen keys k :
  first_repeat eqb seen keys = Some k ->
  existsb (eqb k) seen = true \/ exists earlier, repeats eqb keys earlier k.
Proof.
  revert seen. induction keys as [|k0 keys IH]; intros seen; simpl; [discriminate|].
  destruct (existsb (eqb k0) seen) eqn:E.
  - intros [= <-]. now left.
  - intros H. destruct (IH _ H) as [Hs | (earlier & l1 & l2 & l3 & -> & He)].
    + simpl in Hs. apply orb_true_iff in Hs. destruct Hs as [Hs|Hs]; [|now left].
      right. exists k0.
      destruct (first_repeat_in _ _ _ H) as (l2 & l3 & ->). now exists [], l2, l3.
    + right. exists earlier, (k0 :: l1), l2, l3. auto.
Qed.

Lemma repeats_not_unique keys earlier later :
  repeats eqb keys earlier later -> ~ unique_keys eqb keys.
Proof.
  intros (l1 & l2 & l3 & -> & He) Hu. induction l1 as [|x l1 IH]; simpl in Hu.
  - inversion Hu as [|? ? Hk _]; subst. rewrite Forall_forall in Hk.
    rewrite Hk in He; [discriminate|]. apply in_or_app. right. now left.
  - inversion Hu; subst. auto.
Qed.

End FirstRepeat.

Section Duplicates.

Variable K : constants.

Lemma provider_loop_spec configs keys :
  Forall2 (keyed_provider K) configs keys ->
  forall seen,
    provider_loop K configs seen
    = match first_repeat pair_eq seen keys with
      | Some key => Raises (Invalid duplicate_auth_provider [fst key])
      | None => Returns tt
      end.
Proof.
  induction 1 as [|config key configs keys (Hk & Ht & Hi) _ IH]; intros seen; simpl.
  - reflexivity.
  - rewrite Hk, Ht, Hi. simpl.
    destruct (existsb (pair_eq key) seen); [reflexivity | apply IH].
Qed.

Lemma mfa_loop_spec configs keys :
  Forall2 (keyed_mfa_module K) configs keys ->
  forall seen,
    mfa_loop K configs (map fst seen)
    = match first_repeat mfa_eq seen keys with
      | Some key => Raises (Invalid duplicate_mfa_module [snd key])
      | None => Returns tt
      end.
Proof.
  induction 1 as [|config [key t] configs keys (Hk & Ht) _ IH]; intros seen; simpl.
  - reflexivity.
  - rewrite Hk. simpl in Ht. rewrite Ht. simpl.
    replace (existsb (mfa_eq (key, t)) seen)
      with (existsb (scalar_eq key) (map fst seen)).
    + destruct (existsb (scalar_eq key) (map fst seen)); [reflexivity|].
      apply (IH ((key, t) :: seen)).
    + clear. induction seen as [|[k' t'] seen IHs]; simpl; auto.
      unfold mfa_eq at 1. simpl. now rewrite IHs.
Qed.

(** C7 (amended).  On a list of auth-provider entries that can be keyed
    (dicts with a type, as the entry schema leaves them),
    [_no_duplicate_auth_provider] returns the list unchanged when no pair
    (type, id) repeats, and when a pair repeats it raises the validation error
    whose message names the type of an entry that repeats the pair of an
    earlier one; that type is the type of the earlier entry too.
    [_no_duplicate_auth_mfa_module] does the same with the key
    [config.get(CONF_ID, config[CONF_TYPE])]: the message names the type of
    an entry that repeats the key of an earlier one, and nothing is said of
    the type of the earlier entry.  In [CORE_CONFIG_SCHEMA] they run on the
    list the entry schema validated, and a list the entry schema rejects is
    rejected before them. *)
Theorem C7_duplicate_auth_entries_are_rejected :
  (forall configs keys,
      Forall2 (keyed_provider K) configs keys ->
      (unique_keys pair_eq keys ->
       _no_duplicate_auth_provider K configs = Returns configs)
      /\ (forall earlier later,
             repeats pair_eq keys earlier later ->
             exists first again,
               repeats pair_eq keys first again
               /\ scalar_eq (fst again) (fst first) = true
               /\ _no_duplicate_auth_provider K configs
                  = Raises (Invalid duplicate_auth_provider [fst again])))
  /\ (forall configs keys,
         Forall2 (keyed_mfa_module K) configs keys ->
         (unique_keys mfa_eq keys ->
          _no_duplicate_auth_mfa_module K configs = Returns configs)
         /\ (forall earlier later,
                repeats mfa_eq keys earlier later ->
                exists first again,
                  repeats mfa_eq keys first again
                  /\ _no_duplicate_auth_mfa_module K configs
                     = Raises (Invalid duplicate_mfa_module [snd again])))
  /\ (forall entry_schema v,
         match vol_list entry_schema (ensure_list v) with
         | Returns configs =>
             auth_providers_schema K entry_schema v
             = _no_duplicate_auth_provider K configs
             /\ auth_mfa_modules_schema K entry_schema v
                = _no_duplicate_auth_mfa_module K configs
         | Raises e =>
             auth_providers_schema K entry_schema v = Raises e
             /\ auth_mfa_modules_schema K entry_schema v = Raises e
         end).
Proof.
  split; [|split].
  - intros configs keys Hk. unfold _no_duplicate_auth_provider.
    rewrite (provider_loop_spec _ _ Hk). split.
    + intros Hu.
      assert (E : first_repeat pair_eq [] keys = None).
      { apply first_repeat_none. split; auto. }
      now rewrite E.
    + intros earlier later Hrep.
      destruct (first_repeat pair_eq [] keys) as [again|] eqn:E.
      * destruct (first_repeat_some _ _ _ _ E) as [Hs | (first & Hf)];
          [discriminate|].
        exists first, again. split; [exact Hf | split; [|reflexivity]].
        destruct Hf as (l1 & l2 & l3 & _ & Heq). unfold pair_eq in Heq.
        now apply andb_true_iff in Heq.
      * apply first_repeat_none in E. destruct E as [Hu _].
        exfalso. eapply repeats_not_unique; eauto.
  - intros configs keys Hk. unfold _no_duplicate_auth_mfa_module.
    pose proof (mfa_loop_spec _ _ Hk []) as Hloop. simpl in Hloop.
    rewrite Hloop. clear Hloop. split.
    + intros Hu.
      assert (E : first_repeat mfa_eq [] keys = None).
      { apply first_repeat_none. split; auto. }
      now rewrite E.
    + intros earlier later Hrep.
      destruct (first_repeat mfa_eq [] keys) as [again|] eqn:E.
      * destruct (first_repeat_some _ _ _ _ E) as [Hs | (first & Hf)];
          [discriminate|]. eauto.
      * apply first_repeat_none in E. destruct E as [Hu _].
        exfalso. eapply repeats_not_unique; eauto.
  - intros entry_schema v.
    unfold auth_providers_schema, auth_mfa_modules_schema.
    destruct (vol_list entry_schema (ensure_list v)); split; reflexivity.
Qed.

End Duplicates.

Lemma scalar_eq_str v s : scalar_eq v (VStr s) = true <-> v = VStr s.
Proof.
  destruct v; simpl; try (split; [discriminate | congruence]);
    try (destruct b; split; discriminate).
  rewrite String.eqb_eq. split; congruence.
Qed.

Lemma scalar_eq_str_false v s : v <> VStr s -> scalar_eq v (VStr s) = false.
Proof.
  intros H. destruct (scalar_eq v (VStr s)) eqn:E; auto.
  apply scalar_eq_str in E. contradiction.
Qed.

Section ProcessCore.

Variable K : constants.
Variable CORE_CONFIG_SCHEMA : value -> outcome dict.
Variable CUSTOMIZE_CONFIG_SCHEMA : value -> outcome dict.
Variable get_time_zone : value -> option tzinfo.
Variable www_path : value.
Variable async_detect_location_info : option LocationInfo.
Variable async_get_elevation : value -> value -> value.
Variable auth_manager_from_config : value -> value -> outcome unit.

(** C6.  The unit system, for every validated config and state:
    - with the unit-system key present, the units are imperial when its
      value is the imperial constant and metric otherwise, whatever the
      temperature-unit key holds, and nothing is logged;
    - without it but with the deprecated temperature-unit key, the units are
      metric for Celsius and imperial otherwise, and the deprecation warning
      is logged;
    - with neither, nothing changes: the units stay as they were (unset when
      they were unset) for the auto-detection.
    In the first two cases the state left is written out: [units] is the
    system named, every other field of [opp.config] and of [opp] is as it
    was. *)
Theorem C6_unit_system_precedence (config : dict) (opp : Core.opp_state) :
  let set_units u :=
    {| opp_auth := opp_auth opp;
       opp_config :=
         {| latitude := latitude (opp_config opp);
            longitude := longitude (opp_config opp);
            elevation := elevation (opp_config opp);
            location_name := location_name (opp_config opp);
            time_zone := time_zone (opp_config opp);
            units := Some u;
            whitelist_external_dirs := whitelist_external_dirs (opp_config opp) |};
       data_customize := data_customize opp; trace := trace opp |} in
  let warn unit u (o : Core.opp_state) :=
    {| opp_auth := opp_auth o; opp_config := opp_config o;
       data_customize := data_customize o;
       trace := trace o ++ [LogDeprecatedTemperatureUnit unit u] |} in
  (dict_lookup config (CONF_UNIT_SYSTEM K) = Some (VStr (CONF_UNIT_SYSTEM_IMPERIAL K)) ->
   resolve_unit_system K config opp = (set_units IMPERIAL_SYSTEM, Returns tt)
   /\ units (opp_config (fst (resolve_unit_system K config opp)))
      = Some IMPERIAL_SYSTEM)
  /\ (forall v,
         dict_lookup config (CONF_UNIT_SYSTEM K) = Some v ->
         v <> VStr (CONF_UNIT_SYSTEM_IMPERIAL K) ->
         resolve_unit_system K config opp = (set_units METRIC_SYSTEM, Returns tt)
         /\ units (opp_config (fst (resolve_unit_system K config opp)))
            = Some METRIC_SYSTEM)
  /\ (dict_lookup config (CONF_UNIT_SYSTEM K) = None ->
      dict_lookup config (CONF_TEMPERATURE_UNIT K) = Some (VStr (TEMP_CELSIUS K)) ->
      resolve_unit_system K config opp
      = (warn (VStr (TEMP_CELSIUS K)) METRIC_SYSTEM (set_units METRIC_SYSTEM),
         Returns tt)
      /\ units (opp_config (fst (resolve_unit_system K config opp)))
         = Some METRIC_SYSTEM)
  /\ (forall unit,
         dict_lookup config (CONF_UNIT_SYSTEM K) = None ->
         dict_lookup config (CONF_TEMPERATURE_UNIT K) = Some unit ->
         unit <> VStr (TEMP_CELSIUS K) ->
         resolve_unit_system K config opp
         = (warn unit IMPERIAL_SYSTEM (set_units IMPERIAL_SYSTEM), Returns tt)
         /\ units (opp_config (fst (resolve_unit_system K config opp)))
            = Some IMPERIAL_SYSTEM)
  /\ (dict_lookup config (CONF_UNIT_SYSTEM K) = None ->
      dict_lookup config (CONF_TEMPERATURE_UNIT K) = None ->
      resolve_unit_system K config opp = (opp, Returns tt)).
Proof.
  cbv zeta. unfold resolve_unit_system. split; [|split; [|split; [|split]]].
  - intros ->. simpl. rewrite String.eqb_refl. split; reflexivity.
  - intros v -> Hv. rewrite (scalar_eq_str_false _ _ Hv). split; reflexivity.
  - intros -> ->. simpl. rewrite String.eqb_refl. split; reflexivity.
  - intros unit -> -> Hu. rewrite (scalar_eq_str_false _ _ Hu). split; reflexivity.
  - intros -> ->. reflexivity.
Qed.

(** *** No lookup before the shortcut *)

Lemma quiet_ret {A} (a : A) : quiet (ret a).
Proof. intros opp opp' o [= <- _]. reflexivity. Qed.

Lemma quiet_lift {A} (x : outcome A) : quiet (lift x).
Proof. intros opp opp' o [= <- _]. reflexivity. Qed.

Lemma quiet_bind {A B} (m : M A) (k : A -> M B) :
  quiet m -> (forall a, quiet (k a)) -> quiet (bind m k).
Proof.
  intros Hm Hk opp opp' o. unfold bind.
  destruct (m opp) as [opp1 [a|e]] eqn:E.
  - intros H. rewrite (Hk a _ _ _ H). eapply Hm; eauto.
  - intros [= <- _]. eapply Hm; eauto.
Qed.

Lemma quiet_emit e : is_lookup e = false -> quiet (emit e).
Proof.
  intros He opp opp' o [= <- _]. simpl. rewrite filter_app. simpl.
  rewrite He. apply app_nil_r.
Qed.

Lemma quiet_set_hac f : quiet (set_hac f).
Proof. intros opp opp' o [= <- _]. reflexivity. Qed.

Create HintDb quiet.
#[local] Hint Resolve quiet_ret quiet_lift quiet_set_hac : quiet.

Ltac quiet_step :=
  repeat match goal with
         | |- quiet (bind _ _) => apply quiet_bind; [|intros ?]
         | |- quiet (ret _) => apply quiet_ret
         | |- quiet (lift _) => apply quiet_lift
         | |- quiet (set_hac _) => apply quiet_set_hac
         | |- quiet (emit _) => apply quiet_emit; reflexivity
         end.

Lemma quiet_set_time_zone v : quiet (set_time_zone get_time_zone v).
Proof.
  unfold set_time_zone. destruct (is_none v); [quiet_step|].
  destruct (get_time_zone v); quiet_step.
Qed.

Lemma quiet_setup_auth config p t :
  quiet (setup_auth K auth_manager_from_config config p t).
Proof.
  intros opp opp' o. unfold setup_auth.
  destruct (opp_auth opp); [intros [= <- _]; reflexivity|].
  destruct (auth_manager_from_config _ _); intros [= <- _]; reflexivity.
Qed.

Lemma quiet_apply_explicit_keys config : quiet (apply_explicit_keys K config).
Proof.
  unfold apply_explicit_keys. quiet_step;
    match goal with |- quiet (match ?x with _ => _ end) => destruct x end;
    quiet_step.
Qed.

Lemma quiet_init_whitelist config : quiet (init_whitelist K www_path config).
Proof.
  unfold init_whitelist. quiet_step.
  destruct (dict_lookup config _); quiet_step.
Qed.

Lemma quiet_customize_package name pkg cust :
  quiet (customize_package K CUSTOMIZE_CONFIG_SCHEMA name pkg cust).
Proof.
  unfold customize_package. quiet_step.
  destruct (is_none _); [quiet_step|].
  destruct (CUSTOMIZE_CONFIG_SCHEMA _) as [d|ex].
  - destruct cust as [[? ?] ?]. quiet_step.
  - destruct (is_vol_invalid ex); quiet_step.
Qed.

Lemma quiet_customize_packages packages :
  forall cust, quiet (customize_packages K CUSTOMIZE_CONFIG_SCHEMA packages cust).
Proof.
  induction packages as [|[name pkg] packages IH]; intros cust; simpl.
  - quiet_step.
  - apply quiet_bind; [apply quiet_customize_package | intros; apply IH].
Qed.

Lemma quiet_process_customize config :
  quiet (process_customize K CUSTOMIZE_CONFIG_SCHEMA config).
Proof.
  unfold process_customize. quiet_step.
  - apply quiet_customize_packages.
  - intros opp opp' o [= <- _]. reflexivity.
Qed.

Lemma quiet_resolve_unit_system config : quiet (resolve_unit_system K config).
Proof.
  unfold resolve_unit_system.
  destruct (dict_lookup config (CONF_UNIT_SYSTEM K)).
  - destruct (scalar_eq _ _); quiet_step.
  - destruct (dict_lookup config (CONF_TEMPERATURE_UNIT K)); quiet_step.
Qed.

Lemma quiet_apply_core_config config p t :
  quiet (apply_core_config K CORE_CONFIG_SCHEMA CUSTOMIZE_CONFIG_SCHEMA
           get_time_zone www_path auth_manager_from_config config p t).
Proof.
  unfold apply_core_config. quiet_step;
    auto using quiet_setup_auth, quiet_apply_explicit_keys, quiet_set_time_zone,
      quiet_init_whitelist, quiet_process_customize, quiet_resolve_unit_system.
Qed.

(** C5.  When the part of [async_process_ha_core_config] before the
    shortcut returns with latitude, longitude, units, time zone and elevation
    all set, the call ends there: it returns in that state, and no location
    or elevation lookup has been made. *)
Theorem C5_no_lookup_when_everything_is_set
    config api_password trusted_networks (opp opp1 : Core.opp_state) :
  apply_core_config K CORE_CONFIG_SCHEMA CUSTOMIZE_CONFIG_SCHEMA get_time_zone
    www_path auth_manager_from_config config api_password trusted_networks opp
  = (opp1, Returns tt) ->
  all_known (opp_config opp1) = true ->
  async_process_ha_core_config K CORE_CONFIG_SCHEMA CUSTOMIZE_CONFIG_SCHEMA
    get_time_zone www_path async_detect_location_info async_get_elevation
    auth_manager_from_config config api_password trusted_networks opp
  = (opp1, Returns tt)
  /\ filter is_lookup (trace opp1) = filter is_lookup (trace opp).
Proof.
  intros Happly Hknown. split.
  - unfold async_process_ha_core_config, bind at 1. rewrite Happly.
    unfold auto_detect, bind, get_hac. now rewrite Hknown.
  - eapply quiet_apply_core_config; eauto.
Qed.

End ProcessCore.

Import Examples.

Lemma C5_witness_explicit_core :
  process_example (Some new_york) explicit_core
  = (fst (apply_core_config ha_constants example_core_schema
            example_customize_schema example_get_time_zone (VStr "/config/www")
            example_auth_manager explicit_core VNone VNone starting_opp),
     Returns tt)
  /\ filter is_lookup
       (trace (fst (apply_core_config ha_constants example_core_schema
                      example_customize_schema example_get_time_zone
                      (VStr "/config/www") example_auth_manager explicit_core
                      VNone VNone starting_opp)))
     = filter is_lookup (trace starting_opp).
Proof.
  unfold process_example.
  apply (C5_no_lookup_when_everything_is_set ha_constants example_core_schema
           example_customize_schema example_get_time_zone (VStr "/config/www")
           (Some new_york) example_elevation example_auth_manager explicit_core
           VNone VNone starting_opp); vm_compute; reflexivity.
Defined.

(** The spec's scenario: nothing is configured and the location lookup
    answers; the four fields are filled in and the elevation lookup runs
    once, after it. *)
Example detection_fills_the_unset_fields :
  opp_config (fst (process_example (Some new_york) (VDict [])))
  = {| latitude := VInt 40; longitude := VInt (-73); elevation := VInt 12;
       location_name := VStr "Testville"; time_zone := Some "America/New_York";
       units := Some IMPERIAL_SYSTEM;
       whitelist_external_dirs := [VStr "/config/www"] |}
  /\ filter is_lookup (trace (fst (process_example (Some new_york) (VDict []))))
     = [DetectLocationInfo; GetElevation (VInt 40) (VInt (-73))].
Proof. split; reflexivity. Qed.

(** A core section that still uses the deprecated key, with the value
    the validator leaves for Fahrenheit. *)
Lemma C6_witness_deprecated_fahrenheit :
  resolve_unit_system ha_constants [("temperature_unit", VStr "°F")] starting_opp
  = ({| opp_auth := None;
        opp_config :=
          {| latitude := VNone; longitude := VNone; elevation := VNone;
             location_name := VNone; time_zone := None;
             units := Some IMPERIAL_SYSTEM; whitelist_external_dirs := [] |};
        data_customize := None;
        trace := [LogDeprecatedTemperatureUnit (VStr "°F") IMPERIAL_SYSTEM] |},
     Returns tt)
  /\ units (opp_config (fst (resolve_unit_system ha_constants
                               [("temperature_unit", VStr "°F")] starting_opp)))
     = Some IMPERIAL_SYSTEM.
Proof.
  apply (proj1 (proj2 (proj2 (proj2
           (C6_unit_system_precedence ha_constants
              [("temperature_unit", VStr "°F")] starting_opp)))) (VStr "°F"));
    [reflexivity | reflexivity | discriminate].
Defined.

Example explicit_unit_system_wins :
  units (opp_config (fst (resolve_unit_system ha_constants
                            [("unit_system", VStr "metric");
                             ("temperature_unit", VStr "F")] starting_opp)))
  = Some METRIC_SYSTEM
  /\ trace (fst (resolve_unit_system ha_constants
                   [("unit_system", VStr "metric");
                    ("temperature_unit", VStr "F")] starting_opp)) = [].
Proof. split; reflexivity. Qed.

(** Two providers of the same type, neither with an id. *)
Lemma C7_witness_same_type_no_id :
  exists first again,
    repeats pair_eq [(VStr "openpeerpower", VNone); (VStr "openpeerpower", VNone)]
      first again
    /\ scalar_eq (fst again) (fst first) = true
    /\ _no_duplicate_auth_provider ha_constants
         [VDict [("type", VStr "openpeerpower")];
          VDict [("type", VStr "openpeerpower")]]
       = Raises (Invalid duplicate_auth_provider [fst again]).
Proof.
  apply (proj2 (proj1 (C7_duplicate_auth_entries_are_rejected ha_constants)
                  [VDict [("type", VStr "openpeerpower")];
                   VDict [("type", VStr "openpeerpower")]]
                  [(VStr "openpeerpower", VNone); (VStr "openpeerpower", VNone)]
                  ltac:(repeat constructor))
           (VStr "openpeerpower", VNone) (VStr "openpeerpower", VNone)).
  exists [], [], []. split; reflexivity.
Defined.

(** C7 as stated fails for the MFA modules: the second entry repeats the
    key [totp], the id of the first, and the error names its type [totp],
    which is the type of this entry only; no type is duplicated. *)
Lemma C7_counterexample_named_type_occurs_once :
  _no_duplicate_auth_mfa_module ha_constants
    [VDict [("type", VStr "notify"); ("id", VStr "totp")];
     VDict [("type", VStr "totp")]]
  = Raises (Invalid duplicate_mfa_module [VStr "totp"])
  /\ map (fun config =>
            match config with
            | VDict d => dict_get d (CONF_TYPE ha_constants)
            | _ => VNone
            end)
       [VDict [("type", VStr "notify"); ("id", VStr "totp")];
        VDict [("type", VStr "totp")]]
     = [VStr "notify"; VStr "totp"].
Proof. split; reflexivity. Qed.

Example duplicate_provider_is_rejected :
  _no_duplicate_auth_provider ha_constants
    [VDict [("type", VStr "openpeerpower")]; VDict [("type", VStr "openpeerpower")]]
  = Raises (Invalid duplicate_auth_provider [VStr "openpeerpower"]).
Proof. reflexivity. Qed.

Example providers_with_distinct_ids_pass :
  _no_duplicate_auth_provider ha_constants
    [VDict [("type", VStr "openpeerpower")];
     VDict [("type", VStr "openpeerpower"); ("id", VStr "second")]]
  = Returns [VDict [("type", VStr "openpeerpower")];
             VDict [("type", VStr "openpeerpower"); ("id", VStr "second")]].
Proof. reflexivity. Qed.

(** Two MFA modules of different types with the same id: the message names
    the type of the second. *)
Example mfa_modules_sharing_an_id_are_rejected :
  _no_duplicate_auth_mfa_module ha_constants
    [VDict [("type", VStr "totp"); ("id", VStr "x")];
     VDict [("type", VStr "notify"); ("id", VStr "x")]]
  = Raises (Invalid duplicate_mfa_module [VStr "notify"]).
Proof. reflexivity. Qed.

End CoreProofs.

(** ** What the package merge leaves alone, and where it gives up *)

Module MergeFrame.

Import MergeProofs.

Section Frame.

Variable CONF_CORE : string.
Variable async_get_integration : string -> outcome Integration.
Variable logger : string -> string -> dict -> string -> outcome unit.

Local Abbreviation merge_component :=
  (merge_component CONF_CORE async_get_integration logger).
Local Abbreviation merge_package :=
  (merge_package CONF_CORE async_get_integration logger).
Local Abbreviation merge_packages :=
  (merge_packages CONF_CORE async_get_integration logger).
Local Abbreviation merge_packages_config :=
  (merge_packages_config CONF_CORE async_get_integration logger).

(** A relation every step of the inner loop respects holds between the
    first and the last state of the two loops. *)
Lemma merge_package_rel (R : state -> state -> Prop) pack items :
  (forall s, R s s) ->
  (forall a b c, R a b -> R b c -> R a c) ->
  (forall comp frag, In (comp, frag) items ->
     forall s s' o, merge_component pack comp frag s = (s', o) -> R s s') ->
  forall st st' o, merge_package pack items st = (st', o) -> R st st'.
Proof.
  intros Hrefl Htrans. induction items as [|[comp frag] items IH];
    intros Hstep st st' o; simpl.
  - intros [= <- _]. apply Hrefl.
  - destruct (merge_component pack comp frag st) as [s1 [[]|e]] eqn:E.
    + intros H. eapply Htrans.
      * eapply Hstep; [left; reflexivity | exact E].
      * eapply IH; eauto. intros c f Hin. apply Hstep. now right.
    + intros [= <- _]. eapply Hstep; [left; reflexivity | exact E].
Qed.

Lemma merge_packages_rel (R : state -> state -> Prop) packages :
  (forall s, R s s) ->
  (forall a b c, R a b -> R b c -> R a c) ->
  (forall pack items, In (pack, VDict items) packages ->
     forall comp frag, In (comp, frag) items ->
     forall s s' o, merge_component pack comp frag s = (s', o) -> R s s') ->
  forall st st' o, merge_packages packages st = (st', o) -> R st st'.
Proof.
  intros Hrefl Htrans. induction packages as [|[pack pkg] packages IH];
    intros Hstep st st' o; simpl.
  - intros [= <- _]. apply Hrefl.
  - destruct pkg as [| | | | |items]; try (intros [= <- _]; apply Hrefl).
    destruct (merge_package pack items st) as [s1 [[]|e]] eqn:E.
    + intros H. eapply Htrans.
      * eapply (merge_package_rel R); eauto.
        intros comp frag Hin. eapply Hstep; eauto. left. reflexivity.
      * eapply IH; eauto. intros p i Hin. eapply Hstep. right. exact Hin.
    + intros [= <- _]. eapply (merge_package_rel R); eauto.
      intros comp frag Hin. eapply Hstep; eauto. left. reflexivity.
Qed.

Lemma merge_component_keeps_core pack comp frag st st' o :
  merge_component pack comp frag st = (st', o) ->
  dict_lookup (cfg st') CONF_CORE = dict_lookup (cfg st) CONF_CORE.
Proof.
  intros H. destruct (String.eqb comp CONF_CORE) eqn:E.
  - unfold Merge.merge_component in H. rewrite E in H. now injection H as <- _.
  - apply String.eqb_neq in E.
    destruct (merge_component_touches _ _ _ _ _ _ _ _ _ H) as [L _].
    apply L. congruence.
Qed.

(** The core section is never merged into: whatever the packages hold and
    however the merge ends (returned, or raised half-way), the entry of the
    tree under [CONF_CORE], and with it the packages being iterated, is the
    one the call was given. *)
Theorem merge_never_changes_the_core_section (config packages : dict) :
  dict_lookup (cfg (fst (merge_packages_config config packages))) CONF_CORE
  = dict_lookup config CONF_CORE.
Proof.
  unfold Merge.merge_packages_config.
  destruct (PACKAGES_CONFIG_SCHEMA packages); [|reflexivity].
  destruct (merge_packages packages {| cfg := config; errors := [] |})
    as [st o] eqn:E.
  assert (H : dict_lookup (cfg st) CONF_CORE
              = dict_lookup (cfg {| cfg := config; errors := [] |}) CONF_CORE).
  { apply (merge_packages_rel
             (fun s s' => dict_lookup (cfg s') CONF_CORE
                          = dict_lookup (cfg s) CONF_CORE) packages)
      with (o := o); [reflexivity | | | exact E].
    - intros s1 s2 s3 H1 H2. now rewrite H2.
    - intros pack items _ comp frag _ s s' o'. apply merge_component_keeps_core. }
  destruct o; exact H.
Qed.

(** An entry of the tree that no package names is left exactly as it was,
    however the merge ends. *)
Theorem merge_changes_only_named_components (config packages : dict) key :
  (forall pack items, In (pack, VDict items) packages ->
                      ~ In key (dict_keys items)) ->
  dict_lookup (cfg (fst (merge_packages_config config packages))) key
  = dict_lookup config key.
Proof.
  intros Hkey. unfold Merge.merge_packages_config.
  destruct (PACKAGES_CONFIG_SCHEMA packages); [|reflexivity].
  destruct (merge_packages packages {| cfg := config; errors := [] |})
    as [st o] eqn:E.
  assert (H : dict_lookup (cfg st) key
              = dict_lookup (cfg {| cfg := config; errors := [] |}) key).
  { apply (merge_packages_rel
             (fun s s' => dict_lookup (cfg s') key = dict_lookup (cfg s) key)
             packages)
      with (o := o); [reflexivity | | | exact E].
    - intros s1 s2 s3 H1 H2. now rewrite H2.
    - intros pack items Hp comp frag Hin s s' o' Hm.
      destruct (merge_component_touches _ _ _ _ _ _ _ _ _ Hm) as [L _].
      apply L. intros Heq. apply (Hkey _ _ Hp). subst.
      exact (in_map fst _ _ Hin). }
  destruct o; exact H.
Qed.

(** Both at once, for the callers of the merge. *)
Lemma merge_lookup_frame (config packages : dict) key :
  key = CONF_CORE
  \/ (forall pack items, In (pack, VDict items) packages ->
                         ~ In key (dict_keys items)) ->
  dict_lookup (cfg (fst (merge_packages_config config packages))) key
  = dict_lookup config key.
Proof.
  intros Hkey. unfold Merge.merge_packages_config.
  destruct (PACKAGES_CONFIG_SCHEMA packages); [|reflexivity].
  destruct (merge_packages packages {| cfg := config; errors := [] |})
    as [st o] eqn:E.
  assert (H : dict_lookup (cfg st) key
              = dict_lookup (cfg {| cfg := config; errors := [] |}) key).
  { apply (merge_packages_rel
             (fun s s' => dict_lookup (cfg s') key = dict_lookup (cfg s) key)
             packages)
      with (o := o); [reflexivity | | | exact E].
    - intros s1 s2 s3 H1 H2. now rewrite H2.
    - intros pack items Hp comp frag Hin s s' o' Hm.
      destruct Hkey as [-> | Hkey].
      + exact (merge_component_keeps_core _ _ _ _ _ _ Hm).
      + destruct (merge_component_touches _ _ _ _ _ _ _ _ _ Hm) as [L _].
        apply L. intros Heq. apply (Hkey _ _ Hp). subst.
        exact (in_map fst _ _ Hin). }
  destruct o; exact H.
Qed.

(** A component that cannot be loaded is never merged: when its
    integration is not found, or the integration's module does not import,
    the entry of the tree under its name is the one the call was given,
    however many packages name it and however the merge ends. *)
Theorem unloadable_components_never_reach_the_tree (config packages : dict) comp :
  async_get_integration (first_word comp) = Raises IntegrationNotFound
  \/ (exists integration,
        async_get_integration (first_word comp) = Returns integration
        /\ get_component integration = Raises ImportError) ->
  dict_lookup (cfg (fst (merge_packages_config config packages))) comp
  = dict_lookup config comp.
Proof.
  intros Hload. unfold Merge.merge_packages_config.
  destruct (PACKAGES_CONFIG_SCHEMA packages); [|reflexivity].
  destruct (merge_packages packages {| cfg := config; errors := [] |})
    as [st o] eqn:E.
  assert (H : dict_lookup (cfg st) comp
              = dict_lookup (cfg {| cfg := config; errors := [] |}) comp).
  { apply (merge_packages_rel
             (fun s s' => dict_lookup (cfg s') comp = dict_lookup (cfg s) comp)
             packages)
      with (o := o); [reflexivity | | | exact E].
    - intros s1 s2 s3 H1 H2. now rewrite H2.
    - intros pack items Hp name frag Hin s s' o' Hm.
      destruct (String.eqb name comp) eqn:En.
      + apply String.eqb_eq in En. subst name.
        unfold Merge.merge_component in Hm.
        destruct (String.eqb comp CONF_CORE); [now injection Hm as <- _|].
        destruct Hload as [Hnf | (integration & Hi & Hc)].
        * rewrite Hnf in Hm. unfold log_pkg_error in Hm.
          destruct (logger _ _ _ _); now injection Hm as <- _.
        * rewrite Hi, Hc in Hm. unfold log_pkg_error in Hm.
          destruct (logger _ _ _ _); now injection Hm as <- _.
      + apply String.eqb_neq in En.
        destruct (merge_component_touches _ _ _ _ _ _ _ _ _ Hm) as [L _].
        apply L. congruence. }
  destruct o; exact H.
Qed.

End Frame.

Lemma dict_set_same {A : Type} (d : list (string * A)) k v :
  dict_lookup d k = Some v -> dict_set d k v = d.
Proof.
  induction d as [|[k' w] d IH]; simpl; [discriminate|].
  destruct (String.eqb k' k) eqn:E.
  - now intros [= ->].
  - intros H. now rewrite IH.
Qed.

(** A destination that is not a dict is handed back as it is. *)
Lemma merge_items_non_dict package :
  forall conf e,
    (forall d, conf <> VDict d) ->
    fst (merge_items merge_fragment package conf e) = conf.
Proof.
  induction package as [|[key pc] package IH]; intros conf e Hn; simpl; auto.
  destruct pc as [| | | |l|sub];
    try (destruct conf; try reflexivity; exfalso; eapply Hn; reflexivity).
  - destruct l; simpl; [now apply IH|].
    destruct conf; try reflexivity. exfalso; eapply Hn; reflexivity.
  - destruct sub; simpl; [now apply IH|].
    destruct conf; try reflexivity. exfalso; eapply Hn; reflexivity.
Qed.

Lemma merge_fragment_non_dict pc conf :
  (forall d, conf <> VDict d) -> fst (merge_fragment pc conf) = conf.
Proof.
  intros Hn. destruct pc; try reflexivity. simpl. now apply merge_items_non_dict.
Qed.

(** A non-null scalar of the destination dict is never replaced by a value
    of the package: after [_recursive_merge], however it ends, the key holds
    the scalar itself or a list that starts with it. *)
Theorem existing_scalar_is_never_replaced (c package : dict) k old conf' o :
  dict_lookup c k = Some old ->
  is_scalar old = true -> is_none old = false ->
  _recursive_merge (VDict c) package = (conf', o) ->
  exists c',
    conf' = VDict c'
    /\ (dict_lookup c' k = Some old
        \/ exists l, dict_lookup c' k = Some (VList (old :: l))).
Proof.
  intros Hk Hs Hn. unfold _recursive_merge. generalize (@None string) as e.
  assert (Inv : dict_lookup c k = Some old
                \/ exists l, dict_lookup c k = Some (VList (old :: l))) by now left.
  clear Hk. revert c Inv conf' o.
  induction package as [|[key pc] package IH]; intros c Inv conf' o e; simpl.
  - intros [= <- _]. eauto.
  - assert (Hval : exists v, dict_lookup c k = Some v /\ (forall d, v <> VDict d)
                             /\ is_none v = false
                             /\ exists l, ensure_list v = old :: l).
    { destruct Inv as [H | (l & H)].
      - exists old. split; [exact H | split; [|split; [exact Hn|]]].
        + intros d ->. discriminate.
        + exists []. destruct old; try discriminate; reflexivity.
      - exists (VList (old :: l)).
        split; [exact H | split; [discriminate | split; [reflexivity|]]].
        exists l. reflexivity. }
    destruct Hval as (v & Hv & Hnd & Hnn & (lv & Hlv)).
    assert (Hother : forall x, key <> k ->
              dict_lookup (dict_set c key x) k = Some old
              \/ exists l, dict_lookup (dict_set c key x) k = Some (VList (old :: l))).
    { intros x Hne. now rewrite dict_lookup_set_ne. }
    destruct (String.eqb key k) eqn:Ek;
      [apply String.eqb_eq in Ek; subst key | apply String.eqb_neq in Ek].
    + (* the package names [k] *)
      destruct pc as [| | | |l|sub];
        try (unfold dict_get, dict_get_default; rewrite Hv, Hnn; simpl;
             intros [= <- _]; eauto).
      * destruct l as [|x l]; simpl; [apply IH; auto|].
        apply IH. right. rewrite dict_lookup_set_eq.
        unfold dict_get, dict_get_default. rewrite Hv, Hlv. simpl. eauto.
      * destruct sub as [|x sub]; [apply IH; auto|].
        cbn [truthy negb]. unfold dict_get_default. rewrite Hv.
        pose proof (merge_fragment_non_dict (VDict (x :: sub)) v Hnd) as Hf.
        destruct (merge_fragment (VDict (x :: sub)) v) as [cur' [e1|x1]];
          simpl in Hf; subst cur'.
        -- apply IH. rewrite dict_lookup_set_eq.
           destruct Inv as [H | (l & H)]; rewrite H in Hv; injection Hv as <-; eauto.
        -- intros [= <- _]. eexists. split; [reflexivity|].
           rewrite dict_lookup_set_eq.
           destruct Inv as [H | (l & H)]; rewrite H in Hv; injection Hv as <-; eauto.
    + (* another key *)
      destruct pc as [| | | |l|sub];
        try (destruct (is_none (dict_get c key)); simpl;
             [apply IH; auto | intros [= <- _]; eauto]).
      * destruct l as [|x l]; simpl; apply IH; auto.
      * destruct sub as [|x sub]; [apply IH; auto|].
        cbn [truthy negb].
        destruct (merge_fragment (VDict (x :: sub)) _) as [cur' [e1|x1]].
        -- apply IH; auto.
        -- intros [= <- _]. eauto.
Qed.

Lemma existing_scalar_witness :
  exists c',
    fst (_recursive_merge (VDict [("port", VInt 1234)])
           [("port", VList [VInt 1; VInt 2])]) = VDict c'
    /\ (dict_lookup c' "port" = Some (VInt 1234)
        \/ exists l, dict_lookup c' "port" = Some (VList (VInt 1234 :: l))).
Proof.
  apply (existing_scalar_is_never_replaced [("port", VInt 1234)]
           [("port", VList [VInt 1; VInt 2])] "port" (VInt 1234) _ (Returns None));
    reflexivity.
Defined.

(** On a destination that is not a dict the first entry that is not
    skipped calls [conf.get], which raises. *)
Lemma merge_items_non_dict_raises inner :
  forall conf e,
    (forall d, conf <> VDict d) ->
    existsb not_skipped (map snd inner) = true ->
    merge_items merge_fragment inner conf e = (conf, Raises AttributeError).
Proof.
  induction inner as [|[key pc] inner IH]; intros conf e Hn; simpl;
    [discriminate|].
  destruct pc as [| | | |l|sub];
    try (intros _; destruct conf; try reflexivity; exfalso; eapply Hn; reflexivity).
  - destruct l; simpl; [now apply IH|].
    intros _. destruct conf; try reflexivity. exfalso; eapply Hn; reflexivity.
  - destruct sub; simpl; [now apply IH|].
    intros _. destruct conf; try reflexivity. exfalso; eapply Hn; reflexivity.
Qed.

Section Mismatch.

Variable CONF_CORE : string.
Variable async_get_integration : string -> outcome Integration.
Variable logger : string -> string -> dict -> string -> outcome unit.

(** A package gives, for a dict-style domain whose entry is the dict [c],
    a fragment that lists keys new to [c] and then a key [k] with a dict that
    has an entry the loop does not skip, while [c] holds under [k] something
    that is not a dict.  The nested merge calls [get] on that value:
    AttributeError leaves the loops of [merge_packages_config].  The logger is
    not called and nothing is logged; the domain entry is left half merged,
    with the keys before [k] merged and every other key, [k] and the keys
    after it among them, as it was; the remaining components of the package
    are not merged. *)
Theorem kind_mismatch_raises_out_of_the_merge
    pack comp integration component st c (pre : dict) k old (inner rest more : dict) :
  comp <> CONF_CORE ->
  async_get_integration (first_word comp) = Returns integration ->
  get_component integration = Returns component ->
  list_style component = false ->
  dict_lookup (cfg st) comp = Some (VDict c) ->
  wf_dict pre ->
  (forall key, In key (dict_keys pre) -> dict_lookup c key = None) ->
  ~ In k (dict_keys pre) ->
  dict_lookup c k = Some old -> (forall d, old <> VDict d) ->
  existsb not_skipped (map snd inner) = true ->
  exists c',
    merge_package CONF_CORE async_get_integration logger pack
      ((comp, VDict (pre ++ (k, VDict inner) :: rest)) :: more) st
    = ({| cfg := dict_set (cfg st) comp (VDict c'); errors := errors st |},
       Raises AttributeError)
    /\ (forall key val, dict_lookup pre key = Some val ->
                        dict_lookup c' key = merged_alone val)
    /\ (forall key, ~ In key (dict_keys pre) ->
                    dict_lookup c' key = dict_lookup c key).
Proof.
  intros Hcore Hint Hcomp Hstyle Hc Hwf Habs Hk Hold Hnd Hinner.
  destruct (merge_absent_exact pre ((k, VDict inner) :: rest) c Hwf Habs)
    as (c' & E & Hout & Hin).
  exists c'. split; [|split; assumption].
  assert (Hk' : dict_lookup c' k = Some old) by (rewrite Hout; auto).
  assert (Ht : truthy (VDict inner) = true).
  { destruct inner; [discriminate | reflexivity]. }
  assert (Hstep : merge_items merge_fragment ((k, VDict inner) :: rest) (VDict c')
                    None
                  = (VDict c', Raises AttributeError)).
  { cbn [merge_items]. rewrite Ht. cbn [negb].
    unfold dict_get_default. rewrite Hk'. cbn [merge_fragment].
    rewrite (merge_items_non_dict_raises inner old None Hnd Hinner).
    now rewrite (dict_set_same c' k old Hk'). }
  simpl.
  rewrite (merge_component_dict _ _ _ _ _ _ _ _ _ Hcore Hint Hcomp Hstyle).
  unfold merge_dict_component. simpl. rewrite Hc.
  unfold dict_get, dict_get_default. rewrite Hc.
  unfold _recursive_merge. rewrite E, Hstep. reflexivity.
Qed.

End Mismatch.

Import Examples.

Lemma kind_mismatch_witness :
  exists c',
    merge_package "openpeerpower" example_loader default_logger "pkg1"
      [("http", VDict ([("base_url", VStr "a.example")]
                       ++ ("cors", VDict [("origin", VStr "a.example")])
                          :: [("port", VInt 1)]));
       ("light", VDict [("platform", VStr "test")])]
      {| cfg := [("http", VDict [("cors", VStr "b.example")])]; errors := [] |}
    = ({| cfg := dict_set [("http", VDict [("cors", VStr "b.example")])] "http"
                   (VDict c');
          errors := [] |},
       Raises AttributeError)
    /\ (forall key val,
           dict_lookup [("base_url", VStr "a.example")] key = Some val ->
           dict_lookup c' key = merged_alone val)
    /\ (forall key,
           ~ In key (dict_keys [("base_url", VStr "a.example")]) ->
           dict_lookup c' key = dict_lookup [("cors", VStr "b.example")] key).
Proof.
  apply (kind_mismatch_raises_out_of_the_merge "openpeerpower" example_loader
           default_logger
           "pkg1" "http" (integration_of "http" http_component) http_component
           {| cfg := [("http", VDict [("cors", VStr "b.example")])]; errors := [] |}
           [("cors", VStr "b.example")] [("base_url", VStr "a.example")]
           "cors" (VStr "b.example") [("origin", VStr "a.example")]
           [("port", VInt 1)] [("light", VDict [("platform", VStr "test")])]);
    try reflexivity; try discriminate; try solve_wf.
  - simpl. intros key [<-|[]]. reflexivity.
  - simpl. intuition discriminate.
Defined.

(** The step of the witness: [base_url] is merged, [cors] and [port] are
    not, and [light] is not reached. *)
Example kind_mismatch_leaves_the_entry_half_merged :
  merge_package "openpeerpower" example_loader default_logger "pkg1"
    [("http", VDict [("base_url", VStr "a.example");
                     ("cors", VDict [("origin", VStr "a.example")]);
                     ("port", VInt 1)]);
     ("light", VDict [("platform", VStr "test")])]
    {| cfg := [("http", VDict [("cors", VStr "b.example")])]; errors := [] |}
  = ({| cfg := [("http", VDict [("cors", VStr "b.example");
                                ("base_url", VStr "a.example")])];
        errors := [] |},
     Raises AttributeError).
Proof. reflexivity. Qed.

Lemma merge_changes_only_named_witness :
  dict_lookup
    (cfg (fst (merge_packages_config "openpeerpower" example_loader default_logger
                 (tree_of two_conflicts
                  ++ [("light", VList []); ("http", VDict [("port", VInt 1)])])
                 two_conflicts))) "light"
  = dict_lookup
      (tree_of two_conflicts
       ++ [("light", VList []); ("http", VDict [("port", VInt 1)])]) "light".
Proof.
  apply (merge_changes_only_named_components "openpeerpower" example_loader
           default_logger).
  intros pack items [H|[H|[]]]; injection H as _ <-; simpl; intuition discriminate.
Defined.

Lemma unloadable_components_witness :
  dict_lookup
    (cfg (fst (merge_packages_config "openpeerpower" example_loader default_logger
                 (tree_of unknown_packages ++ [("http", VDict [("port", VInt 1)])])
                 unknown_packages)))
    "nest"
  = dict_lookup
      (tree_of unknown_packages ++ [("http", VDict [("port", VInt 1)])]) "nest".
Proof.
  apply (unloadable_components_never_reach_the_tree "openpeerpower" example_loader
           default_logger).
  left. reflexivity.
Defined.

(** The packages of the witness: both errors are logged, and the component
    next to the unknown one is merged. *)
Example unknown_component_does_not_stop_the_merge :
  merge_packages_config "openpeerpower" example_loader default_logger
    (tree_of unknown_packages ++ [("http", VDict [("port", VInt 1)])])
    unknown_packages
  = ({| cfg := tree_of unknown_packages
               ++ [("http", VDict [("port", VInt 1);
                                   ("base_url", VStr "a.example")])];
        errors := [{| pe_package := "pkg1"; pe_component := "nest";
                      pe_message := "does not exist" |};
                   {| pe_package := "pkg2"; pe_component := "nest";
                      pe_message := "does not exist" |}] |},
     Returns (tree_of unknown_packages
              ++ [("http", VDict [("port", VInt 1);
                                  ("base_url", VStr "a.example")])])).
Proof. reflexivity. Qed.

End MergeFrame.

(** ** More on validation and the error registry *)

Module ValidateMore.

Import ValidateProofs.
Import MergeProofs.

Lemma dict_keys_set {A : Type} (d : list (string * A)) k v :
  dict_keys (dict_set d k v)
  = match dict_lookup d k with
    | Some _ => dict_keys d
    | None => dict_keys d ++ [k]
    end.
Proof.
  induction d as [|[k' w] d IH]; simpl; auto.
  destruct (String.eqb k' k) eqn:E; simpl; auto.
  rewrite IH. now destruct (dict_lookup d k).
Qed.

Lemma registry_flag_notify other display_link (opp : Validate.opp_state) comp :
  registry_flag (async_notify_setup_error other display_link opp) comp
  = if String.eqb other comp
    then Some (match registry_flag opp comp with Some true => true | _ => false end
               || display_link)
    else registry_flag opp comp.
Proof.
  unfold registry_flag, async_notify_setup_error. simpl.
  destruct (String.eqb other comp) eqn:E.
  - apply String.eqb_eq in E. subst other. rewrite dict_lookup_set_eq.
    unfold link_flag.
    destruct (persistent_errors opp) as [errors|]; simpl;
      [destruct (dict_lookup errors comp) as [[]|]|]; reflexivity.
  - apply String.eqb_neq in E. rewrite dict_lookup_set_ne by assumption.
    now destruct (persistent_errors opp).
Qed.

Lemma no_call_no_link (calls : list (string * bool)) comp :
  existsb (fun call => String.eqb (fst call) comp) calls = false ->
  existsb (fun call => String.eqb (fst call) comp && snd call) calls = false.
Proof.
  induction calls as [|[other dl] calls IH]; simpl; auto.
  intros H. apply orb_false_iff in H. destruct H as [-> H]. simpl. auto.
Qed.

(** The registry after any calls of [async_notify_setup_error]: a component
    no call names keeps what it had, and a component some call names shows
    the link exactly when it did before or one of its calls asked for it. *)
Theorem registry_flag_is_the_disjunction_of_the_calls
    (calls : list (string * bool)) :
  forall (opp : Validate.opp_state) comp,
    registry_flag (notify_all calls opp) comp
    = if existsb (fun call => String.eqb (fst call) comp) calls
      then Some (match registry_flag opp comp with Some true => true | _ => false end
                 || existsb (fun call => String.eqb (fst call) comp && snd call) calls)
      else registry_flag opp comp.
Proof.
  induction calls as [|[other dl] calls IH]; intros opp comp; simpl.
  - reflexivity.
  - rewrite IH, registry_flag_notify.
    destruct (String.eqb other comp); simpl; [|reflexivity].
    destruct (existsb (fun call => String.eqb (fst call) comp) calls) eqn:E.
    + destruct (registry_flag opp comp) as [[]|], dl; reflexivity.
    + rewrite (no_call_no_link _ _ E).
      destruct (registry_flag opp comp) as [[]|], dl; reflexivity.
Qed.

(** The registry is a set: starting from none, it has exactly one entry
    for each component named by a call, so the notification has one line per
    component, and every call creates one notification. *)
Theorem registry_has_one_entry_per_component
    (calls : list (string * bool)) (opp : Validate.opp_state) errors :
  persistent_errors opp = None ->
  persistent_errors (notify_all calls opp) = Some errors ->
  NoDup (dict_keys errors)
  /\ (forall comp, In comp (dict_keys errors) <-> In comp (map fst calls))
  /\ length (notifications (notify_all calls opp))
     = length (notifications opp) + length calls.
Proof.
  intros Hnone Hsome.
  assert (G : forall calls (opp : Validate.opp_state),
             let before := match persistent_errors opp with
                           | Some e => e | None => [] end in
             let after := match persistent_errors (notify_all calls opp) with
                          | Some e => e | None => [] end in
             NoDup (dict_keys before) ->
             NoDup (dict_keys after)
             /\ (forall comp, In comp (dict_keys after)
                              <-> In comp (dict_keys before) \/ In comp (map fst calls))
             /\ length (notifications (notify_all calls opp))
                = length (notifications opp) + length calls).
  { clear. induction calls as [|[other dl] calls IH]; intros opp; cbv zeta; simpl.
    - intros Hnd. split; [exact Hnd | split; [intros comp; tauto | lia]].
    - intros Hnd.
      specialize (IH (async_notify_setup_error other dl opp)). cbv zeta in IH.
      simpl in IH. rewrite dict_keys_set in IH.
      destruct IH as (N & I & L).
      + destruct (dict_lookup _ other) eqn:El; auto.
        apply NoDup_app; [auto | repeat constructor; simpl; tauto |].
        intros x Hx [<-|[]]. apply dict_lookup_None in El. contradiction.
      + split; [exact N | split].
        * intros comp. rewrite I.
          destruct (dict_lookup _ other) eqn:El.
          -- split; [tauto|]. intros [H|[<-|H]]; auto.
             left. destruct (dict_lookup_None
               (match persistent_errors opp with Some e => e | None => [] end) other)
               as [_ Hc].
             destruct (in_dec string_dec other
                         (dict_keys match persistent_errors opp with
                                    | Some e => e | None => [] end)); auto.
             rewrite (Hc n) in El. discriminate.
          -- rewrite in_app_iff. simpl. tauto.
        * rewrite L, length_app. simpl. lia. }
  specialize (G calls opp). cbv zeta in G. rewrite Hnone, Hsome in G.
  destruct G as (N & I & L); [constructor|].
  split; [exact N | split; [|exact L]].
  intros comp. rewrite I. simpl. tauto.
Qed.

Lemma log_exception_keeps_listing ex dom config (opp : Validate.opp_state) :
  errors_are_listed opp -> errors_are_listed (async_log_exception ex dom config opp).
Proof.
  intros H e Hin.
  assert (Hflag : forall comp,
            registry_flag (async_log_exception ex dom config opp) comp
            = registry_flag (async_notify_setup_error dom true opp) comp)
    by reflexivity.
  rewrite Hflag, registry_flag_notify.
  unfold async_log_exception in Hin. simpl in Hin.
  apply in_app_or in Hin. destruct Hin as [Hin | [<-|[]]].
  - destruct (String.eqb dom (le_domain e)).
    + now rewrite orb_true_r.
    + now apply H.
  - simpl. rewrite String.eqb_refl. now rewrite orb_true_r.
Qed.

Section Platforms.

Variable async_get_integration : string -> outcome Integration.
Variable config_per_platform : dict -> string -> list (option string * value).
Variable extract_domain_configs : dict -> string -> list string.

Local Abbreviation validate_platform := (validate_platform async_get_integration).
Local Abbreviation validate_platforms := (validate_platforms async_get_integration).
Local Abbreviation validated_entry := (validated_entry async_get_integration).
Local Abbreviation surviving_entries := (surviving_entries async_get_integration).
Local Abbreviation async_process_component_config :=
  (async_process_component_config async_get_integration config_per_platform
     extract_domain_configs).

Lemma validate_platform_keeps_listing dom sch entry platforms
    (opp opp' : Validate.opp_state) o :
  validate_platform dom sch entry platforms opp = (opp', o) ->
  errors_are_listed opp -> errors_are_listed opp'.
Proof.
  destruct entry as [p_name p_config]. unfold Validate.validate_platform.
  repeat break_match; intros [= <- _]; auto using log_exception_keeps_listing.
Qed.

Lemma validate_platforms_keeps_listing dom sch entries :
  forall platforms (opp opp' : Validate.opp_state) o,
    validate_platforms dom sch entries platforms opp = (opp', o) ->
    errors_are_listed opp -> errors_are_listed opp'.
Proof.
  induction entries as [|entry entries IH]; intros platforms opp opp' o; simpl.
  - now intros [= <- _].
  - destruct (validate_platform dom sch entry platforms opp) as [opp1 [ps|e]] eqn:E.
    + intros H Hl. eapply IH; eauto. eapply validate_platform_keeps_listing; eauto.
    + intros [= <- _]. eapply validate_platform_keeps_listing; eauto.
Qed.

(** Whatever [async_process_component_config] logs it also lists: if every
    logged error has its component in the registry with the documentation
    link before the call, the same holds after it, however the call ends. *)
Theorem logged_errors_are_listed_with_link
    (config : dict) integration (opp opp' : Validate.opp_state) o :
  errors_are_listed opp ->
  async_process_component_config config integration opp = (opp', o) ->
  errors_are_listed opp'.
Proof.
  intros Hl. unfold Validate.async_process_component_config.
  destruct (get_component integration) as [component|e]; [|now intros [= <- _]].
  destruct (CONFIG_SCHEMA component) as [cs|].
  - destruct (validate cs (VDict config)) as [v|ex]; [now intros [= <- _]|].
    destruct (is_vol_invalid ex); intros [= <- _];
      auto using log_exception_keeps_listing.
  - destruct (component_platform_schema_of component) as [sch|];
      [|now intros [= <- _]].
    destruct (validate_platforms _ _ _ _ _) as [opp1 [ps|e]] eqn:E;
      intros [= <- _]; eapply validate_platforms_keeps_listing; eauto.
Qed.

Lemma validate_platform_valid dom sch entry platforms (opp : Validate.opp_state) v :
  validated_entry dom sch entry = Some v ->
  validate_platform dom sch entry platforms opp = (opp, Returns (platforms ++ [v])).
Proof.
  destruct entry as [p_name p_config].
  unfold Validate.validate_platform, Validate.validated_entry.
  destruct (sch p_config) as [p_validated|ex]; [|destruct p_name; discriminate].
  destruct p_name as [p_name|]; [|now intros [= ->]].
  destruct (resolve_platform async_get_integration p_name dom) as [platform|e];
    [|discriminate].
  destruct (platform_PLATFORM_SCHEMA platform) as [ps|]; [|now intros [= ->]].
  destruct (ps p_config); [now intros [= ->] | discriminate].
Qed.

Lemma validate_platforms_valid dom sch entries :
  (forall entry, In entry entries -> validated_entry dom sch entry <> None) ->
  forall platforms (opp : Validate.opp_state),
    validate_platforms dom sch entries platforms opp
    = (opp, Returns (platforms ++ surviving_entries dom sch entries)).
Proof.
  induction entries as [|entry entries IH]; intros Hall platforms opp; simpl.
  - now rewrite app_nil_r.
  - destruct (validated_entry dom sch entry) as [v|] eqn:Ev.
    + rewrite (validate_platform_valid _ _ _ _ _ _ Ev).
      rewrite IH by (intros x Hx; apply Hall; now right).
      now rewrite <- app_assoc.
    + exfalso. apply (Hall entry); [now left | exact Ev].
Qed.

(** A domain all of whose platform entries are valid is processed without a
    trace: nothing is logged, no notification is created, and the returned
    config has the validated entries, all of them and in order, under the
    domain key.  Nothing is assumed of the schemas and the loader beyond the
    fact that they accept these entries. *)
Theorem valid_platform_entries_are_processed_silently
    (config : dict) integration component sch (opp : Validate.opp_state) :
  get_component integration = Returns component ->
  CONFIG_SCHEMA component = None ->
  component_platform_schema_of component = Some sch ->
  (forall entry, In entry (config_per_platform config (domain integration)) ->
                 validated_entry (domain integration) sch entry <> None) ->
  async_process_component_config config integration opp
  = (opp, Returns (Some (VDict (rebuild_config extract_domain_configs config
                                  (domain integration)
                                  (surviving_entries (domain integration) sch
                                     (config_per_platform config
                                        (domain integration)))))))
  /\ length (surviving_entries (domain integration) sch
               (config_per_platform config (domain integration)))
     = length (config_per_platform config (domain integration)).
Proof.
  intros Hcomp Hcs Hsch Hall. split.
  - unfold Validate.async_process_component_config.
    rewrite Hcomp, Hcs, Hsch.
    now rewrite (validate_platforms_valid _ _ _ Hall [] opp).
  - revert Hall. generalize (config_per_platform config (domain integration)).
    induction l as [|entry l IH]; intros Hall; simpl; auto.
    destruct (validated_entry (domain integration) sch entry) eqn:Ev.
    + simpl. f_equal. apply IH. intros x Hx. apply Hall. now right.
    + exfalso. apply (Hall entry); [now left | exact Ev].
Qed.

End Platforms.

Import Examples.

Lemma logged_errors_witness :
  errors_are_listed
    (fst (async_process_component_config example_loader example_config_per_platform
            example_extract_domain_configs sensor_config
            (integration_of "sensor" sensor_component) fresh_opp)).
Proof.
  apply (logged_errors_are_listed_with_link example_loader
           example_config_per_platform example_extract_domain_configs
           sensor_config (integration_of "sensor" sensor_component) fresh_opp _
           (Returns (Some (VDict
              [("http", VDict [("port", VInt 8123)]);
               ("sensor",
                VList [VDict [("platform", VStr "hue"); ("host", VStr "10.0.0.2")];
                       VDict [("platform", VStr "hue"); ("host", VStr "10.0.0.3")]])])))).
  - intros e [].
  - reflexivity.
Defined.

Lemma valid_platform_entries_witness :
  async_process_component_config example_loader example_config_per_platform
    example_extract_domain_configs
    [("sensor", VDict [("platform", VStr "hue"); ("host", VStr "10.0.0.2")])]
    (integration_of "sensor" sensor_component) fresh_opp
  = (fresh_opp,
     Returns (Some (VDict (rebuild_config example_extract_domain_configs
        [("sensor", VDict [("platform", VStr "hue"); ("host", VStr "10.0.0.2")])]
        "sensor"
        (surviving_entries example_loader "sensor" (requires_key "platform")
           (example_config_per_platform
              [("sensor", VDict [("platform", VStr "hue");
                                 ("host", VStr "10.0.0.2")])] "sensor"))))))
  /\ length (surviving_entries example_loader "sensor" (requires_key "platform")
               (example_config_per_platform
                  [("sensor", VDict [("platform", VStr "hue");
                                     ("host", VStr "10.0.0.2")])] "sensor"))
     = length (example_config_per_platform
                 [("sensor", VDict [("platform", VStr "hue");
                                    ("host", VStr "10.0.0.2")])] "sensor").
Proof.
  apply (valid_platform_entries_are_processed_silently example_loader
           example_config_per_platform example_extract_domain_configs
           [("sensor", VDict [("platform", VStr "hue"); ("host", VStr "10.0.0.2")])]
           (integration_of "sensor" sensor_component) sensor_component
           (requires_key "platform") fresh_opp eq_refl eq_refl eq_refl).
  intros entry [<-|[]]. discriminate.
Defined.

Lemma registry_witness_two_components :
  NoDup (dict_keys [("sensor", true); ("light", false)])
  /\ (forall comp,
         In comp (dict_keys [("sensor", true); ("light", false)])
         <-> In comp (map fst [("sensor", false); ("light", false); ("sensor", true)]))
  /\ length (notifications
               (notify_all [("sensor", false); ("light", false); ("sensor", true)]
                  Examples.fresh_opp))
     = length (notifications Examples.fresh_opp)
       + length [("sensor", false); ("light", false); ("sensor", true)].
Proof.
  apply (registry_has_one_entry_per_component
           [("sensor", false); ("light", false); ("sensor", true)]
           Examples.fresh_opp [("sensor", true); ("light", false)]);
    reflexivity.
Defined.

End ValidateMore.

(** ** More on the core configuration *)

(** ** Loading the configuration file *)

Module BootstrapProofs.

Import PyFacts.

Lemma dict_set_app_fresh {A} (pre rest : list (string * A)) k v w :
  ~ In k (map fst pre) ->
  dict_set (pre ++ (k, v) :: rest) k w = pre ++ (k, w) :: rest.
Proof.
  induction pre as [|[k' v'] pre IH]; simpl; intros Hk.
  - now rewrite String.eqb_refl.
  - destruct (String.eqb k' k) eqn:E.
    + apply String.eqb_eq in E. tauto.
    + f_equal. apply IH. tauto.
Qed.

(** On a dict with unique keys the loop of [load_yaml_config_file] maps
    [value or {}] over the values. *)
Lemma none_to_dict_map (d : dict) :
  NoDup (dict_keys d) ->
  none_to_dict d = map (fun kv => (fst kv, or_empty_dict (snd kv))) d.
Proof.
  unfold none_to_dict, dict_keys.
  assert (H : forall items pre,
             NoDup (map fst (pre ++ items)) ->
             fold_left (fun conf kv => dict_set conf (fst kv) (or_empty_dict (snd kv)))
               items (pre ++ items)
             = pre ++ map (fun kv => (fst kv, or_empty_dict (snd kv))) items).
  { induction items as [|[k v] items IH]; intros pre Hnd; simpl.
    - reflexivity.
    - rewrite dict_set_app_fresh.
      + change (pre ++ (k, or_empty_dict v) :: items)
          with (pre ++ [(k, or_empty_dict v)] ++ items).
        rewrite app_assoc, IH.
        * now rewrite <- app_assoc.
        * rewrite <- app_assoc. simpl.
          rewrite map_app in *. simpl in *. exact Hnd.
      + rewrite map_app in Hnd. simpl in Hnd.
        apply NoDup_remove_2 in Hnd. intros Hin. apply Hnd.
        apply in_or_app. now left. }
  intros Hnd. exact (H d [] Hnd).
Qed.

Lemma dict_lookup_map_values (f : value -> value) (d : dict) k :
  dict_lookup (map (fun kv => (fst kv, f (snd kv))) d) k
  = option_map f (dict_lookup d k).
Proof.
  induction d as [|[k' v] d IH]; simpl; [reflexivity|].
  destruct (String.eqb k' k); [reflexivity | exact IH].
Qed.

Lemma or_empty_dict_idempotent v : or_empty_dict (or_empty_dict v) = or_empty_dict v.
Proof.
  unfold or_empty_dict. destruct (truthy v) eqn:E; [now rewrite E | reflexivity].
Qed.

Section Load.

Variable path_join : string -> string -> string.
Variable isfile : string -> bool.
Variable load_yaml : string -> result value.
Variable CONF_CORE : string.
Variable CONF_PACKAGES : string.
Variable async_get_integration : string -> outcome Integration.

Local Abbreviation load_yaml_config_file := (load_yaml_config_file load_yaml).
Local Abbreviation async_opp_config_yaml :=
  (async_opp_config_yaml path_join isfile load_yaml CONF_CORE CONF_PACKAGES
     async_get_integration).

(** A configuration file that holds a dictionary loads, with the keys it
    has, in their order, and with every value that is falsy ([None], but also
    [0], [False], an empty string or an empty list) replaced by an empty
    dict: no section of a loaded config is ever falsy unless it is an empty
    dict, and loading what was loaded would change nothing. *)
Theorem loaded_sections_are_truthy_or_empty_dicts config_path (d : dict) :
  load_yaml config_path = Done (VDict d) ->
  NoDup (dict_keys d) ->
  exists config,
    load_yaml_config_file config_path = ([], Done config)
    /\ dict_keys config = dict_keys d
    /\ (forall key, dict_lookup config key
                    = option_map or_empty_dict (dict_lookup d key))
    /\ (forall key v, In (key, v) config -> truthy v = true \/ v = VDict [])
    /\ none_to_dict config = config.
Proof.
  intros Hload Hnd. unfold Bootstrap.load_yaml_config_file. rewrite Hload.
  exists (none_to_dict d). rewrite (none_to_dict_map d Hnd).
  assert (Hkeys : dict_keys (map (fun kv => (fst kv, or_empty_dict (snd kv))) d)
                  = dict_keys d).
  { unfold dict_keys. rewrite map_map. reflexivity. }
  split; [reflexivity|]. split; [exact Hkeys|]. split; [|split].
  - intros key. apply dict_lookup_map_values.
  - intros key v Hin. apply in_map_iff in Hin.
    destruct Hin as ([k w] & [= <- <-] & _). simpl.
    unfold or_empty_dict. destruct (truthy w) eqn:E; auto.
  - rewrite none_to_dict_map by (now rewrite Hkeys).
    rewrite map_map. apply map_ext. intros [k w]. simpl.
    now rewrite or_empty_dict_idempotent.
Qed.

(** Reloading the configuration: when [async_opp_config_yaml] returns, the
    core section and every top-level section that no package names are what
    the file holds (an empty dict for a falsy value); the merge of the
    packages reaches nothing else. *)
Theorem reload_keeps_what_no_package_names
    config_dir config_path (d : dict) log errs config :
  find_config_file path_join isfile config_dir = Some config_path ->
  load_yaml config_path = Done (VDict d) ->
  NoDup (dict_keys d) ->
  async_opp_config_yaml config_dir = (log, errs, Done config) ->
  exists packages,
    configured_packages CONF_CORE CONF_PACKAGES (none_to_dict d)
    = Returns (VDict packages)
    /\ forall key,
         key = CONF_CORE
         \/ (forall pack items, In (pack, VDict items) packages ->
                                ~ In key (dict_keys items)) ->
         dict_lookup config key = option_map or_empty_dict (dict_lookup d key).
Proof.
  intros Hfind Hload Hnd. unfold Bootstrap.async_opp_config_yaml.
  rewrite Hfind. unfold Bootstrap.load_yaml_config_file. rewrite Hload.
  destruct (configured_packages CONF_CORE CONF_PACKAGES (none_to_dict d))
    as [[| | | | |packages]|e]; try discriminate.
  destruct (merge_packages_config CONF_CORE async_get_integration
              (_log_pkg_error CONF_CORE CONF_PACKAGES)
              (none_to_dict d) packages) as [st [c|e]] eqn:E; [|discriminate].
  intros [= _ _ <-]. exists packages. split; [reflexivity|].
  intros key Hkey.
  pose proof (MergeFrame.merge_lookup_frame CONF_CORE async_get_integration
                (_log_pkg_error CONF_CORE CONF_PACKAGES)
                (none_to_dict d) packages key Hkey) as H.
  rewrite E in H. simpl in H. rewrite H, (none_to_dict_map d Hnd).
  apply dict_lookup_map_values.
Qed.

End Load.

Import Examples.

Lemma loaded_sections_witness :
  exists config,
    load_yaml_config_file example_load_yaml "/config/configuration.yaml"
    = ([], Done config)
    /\ dict_keys config = dict_keys example_file
    /\ (forall key, dict_lookup config key
                    = option_map or_empty_dict (dict_lookup example_file key))
    /\ (forall key v, In (key, v) config -> truthy v = true \/ v = VDict [])
    /\ none_to_dict config = config.
Proof.
  apply (loaded_sections_are_truthy_or_empty_dicts example_load_yaml
           "/config/configuration.yaml" example_file).
  - reflexivity.
  - repeat constructor; simpl; intuition discriminate.
Defined.

Lemma reload_witness :
  exists packages,
    configured_packages "openpeerpower" "packages" (none_to_dict example_file)
    = Returns (VDict packages)
    /\ forall key,
         key = "openpeerpower"
         \/ (forall pack items, In (pack, VDict items) packages ->
                                ~ In key (dict_keys items)) ->
         dict_lookup
           [("openpeerpower",
             VDict [("packages",
                     VDict [("pack_1",
                             VDict [("light",
                                     VList [VDict [("platform", VStr "hue")]])])])]);
            ("http", VDict []);
            ("group", VDict [("kitchen", VStr "light.kitchen")]);
            ("light", VList [VDict [("platform", VStr "hue")]])] key
         = option_map or_empty_dict (dict_lookup example_file key).
Proof.
  apply (reload_keeps_what_no_package_names example_path_join example_isfile
           example_load_yaml "openpeerpower" "packages" example_loader
           (Some "/config") "/config/configuration.yaml" example_file [] []).
  - reflexivity.
  - reflexivity.
  - repeat constructor; simpl; intuition discriminate.
  - vm_compute. reflexivity.
Defined.

(** Decides the key comparisons of [dict_set] from the distinctness facts
    at hand. *)
Ltac distinct_keys :=
  repeat (progress (repeat match goal with
                           | H : String.eqb _ _ = false |- _ => rewrite H
                           | |- _ => rewrite String.eqb_refl
                           end; simpl)).

(** The settings of a default configuration are complete: whatever the
    lookups answer, [info] has the seven settings of [DEFAULT_CORE_CONFIG] in
    their order and none but the elevation can be [None]; a detected value
    that is falsy gives way to the default; and the elevation is looked up
    only with a latitude and a longitude that are both truthy, so never for a
    position on the equator or the prime meridian. *)
Theorem default_settings_are_complete
    (K : constants) async_detect_location_info async_get_elevation
    detect_location :
  NoDup (map (fun entry => fst (fst entry)) (DEFAULT_CORE_CONFIG K)) ->
  exists lookups info,
    default_config_info K async_detect_location_info async_get_elevation
      detect_location = (lookups, Returns info)
    /\ dict_keys info = map (fun entry => fst (fst entry)) (DEFAULT_CORE_CONFIG K)
    /\ (forall key v, In (key, v) info -> key <> CONF_ELEVATION K ->
                      is_none v = false)
    /\ (forall lat lon, In (GetElevation lat lon) lookups ->
                        truthy lat = true /\ truthy lon = true
                        /\ dict_lookup info (CONF_ELEVATION K)
                           = Some (async_get_elevation lat lon))
    /\ (detect_location = false -> lookups = []).
Proof.
  destruct K as [LAT LON NAME ELEV TZ US USM USI TU TC WL CU CD CG PK CO AP AM TY ID].
  unfold default_config_info, DEFAULT_CORE_CONFIG, dict_keys. simpl.
  intros Hnd.
  assert (Hne : forall a b, a <> b -> String.eqb a b = false)
    by (intros a b; apply String.eqb_neq).
  assert (E1 : String.eqb NAME LAT = false /\ String.eqb NAME LON = false
               /\ String.eqb NAME ELEV = false /\ String.eqb NAME US = false
               /\ String.eqb NAME TZ = false /\ String.eqb NAME CU = false
               /\ String.eqb LAT LON = false /\ String.eqb LAT ELEV = false
               /\ String.eqb LAT US = false /\ String.eqb LAT TZ = false
               /\ String.eqb LAT CU = false /\ String.eqb LON ELEV = false
               /\ String.eqb LON US = false /\ String.eqb LON TZ = false
               /\ String.eqb LON CU = false /\ String.eqb ELEV US = false
               /\ String.eqb ELEV TZ = false /\ String.eqb ELEV CU = false
               /\ String.eqb US TZ = false /\ String.eqb US CU = false
               /\ String.eqb TZ CU = false).
  { repeat match goal with
           | H : NoDup (_ :: _) |- _ => inversion H; clear H; subst
           end.
    simpl in *. repeat split; apply Hne; intros ->; tauto. }
  clear Hnd Hne.
  destruct E1 as (N1 & N2 & N3 & N4 & N5 & N6 & A1 & A2 & A3 & A4 & A5 & O1 & O2
                  & O3 & O4 & V1 & V2 & V3 & U1 & U2 & T1).
  assert (Hnone : forall v default : value,
             is_none default = false ->
             is_none (if truthy v then v else default) = false).
  { intros v default Hd.
    destruct (truthy v) eqn:E; [now destruct v | assumption]. }
  distinct_keys.
  destruct detect_location;
    [destruct async_detect_location_info as [[lat lon metric city tz]|]|]; simpl.
  - distinct_keys.
    destruct (truthy lat) eqn:Elat, (truthy lon) eqn:Elon; simpl; distinct_keys;
      eexists _, _; (split; [reflexivity|]); simpl;
      (split; [reflexivity|]);
      (split; [|split; [|discriminate]]).
    all: try (intros key v Hin Hkey; simpl in Hin;
              repeat destruct Hin as [[= <- <-] | Hin];
              try contradiction; try reflexivity;
              try (now destruct metric);
              try (apply Hnone; reflexivity);
              try (now destruct lat); try (now destruct lon);
              try (now destruct tz)).
    all: intros la lo [[=] | Hin]; try contradiction.
    all: destruct Hin as [[= <- <-] | []].
    all: rewrite ?Elat, ?Elon; distinct_keys; auto.
  - eexists _, _. split; [reflexivity|]. simpl. split; [reflexivity|].
    split; [|split; [|discriminate]].
    + intros key v Hin Hkey; simpl in Hin.
      repeat destruct Hin as [[= <- <-] | Hin]; try contradiction; reflexivity.
    + intros la lo [[=] | []].
  - eexists _, _. split; [reflexivity|]. simpl. split; [reflexivity|].
    split; [|split; [|reflexivity]].
    + intros key v Hin Hkey; simpl in Hin.
      repeat destruct Hin as [[= <- <-] | Hin]; try contradiction; reflexivity.
    + intros la lo [].
Qed.

Lemma default_settings_witness :
  exists lookups info,
    default_config_info ha_constants (Some new_york) example_elevation true
    = (lookups, Returns info)
    /\ dict_keys info
       = map (fun entry => fst (fst entry)) (DEFAULT_CORE_CONFIG ha_constants)
    /\ (forall key v, In (key, v) info -> key <> "elevation" -> is_none v = false)
    /\ (forall lat lon, In (GetElevation lat lon) lookups ->
                        truthy lat = true /\ truthy lon = true
                        /\ dict_lookup info "elevation"
                           = Some (example_elevation lat lon))
    /\ (true = false -> lookups = []).
Proof.
  apply (default_settings_are_complete ha_constants (Some new_york)
           example_elevation true).
  repeat constructor; simpl; intuition discriminate.
Defined.

(** A position on the equator: the detected latitude [0] is falsy, the
    default takes its place and no elevation is looked up. *)
Example no_elevation_lookup_on_the_equator :
  default_config_info ha_constants
    (Some {| li_latitude := VInt 0; li_longitude := VInt 32;
             li_use_metric := true; li_city := VStr "Kampala";
             li_time_zone := VStr "Africa/Kampala" |})
    example_elevation true
  = ([DetectLocationInfo],
     Returns [("name", VStr "Home"); ("latitude", VInt 0);
              ("longitude", VInt 32); ("elevation", VInt 0);
              ("unit_system", VStr "metric");
              ("time_zone", VStr "Africa/Kampala");
              ("customize", VStr "!include customize.yaml")]).
Proof. reflexivity. Qed.

(** A directory without the file, and a file that holds a list. *)
Example reload_without_a_file :
  reload_example (Some "/elsewhere")
  = ([], [], Failed (OpenPeerPowerError "Config file not found in: {}")).
Proof. reflexivity. Qed.

Example a_list_is_not_a_configuration :
  load_yaml_config_file (fun _ => Done (VList [VStr "light"])) "configuration.yaml"
  = ([not_a_dictionary], Failed (OpenPeerPowerError not_a_dictionary)).
Proof. reflexivity. Qed.

End BootstrapProofs.

Module CoreMore.

Import CoreProofs.

Lemma keeps_ret {A} P (a : A) : keeps P (ret a).
Proof. intros opp opp' o [= <- _]. auto. Qed.

Lemma keeps_lift {A} P (x : outcome A) : keeps P (lift x).
Proof. intros opp opp' o [= <- _]. auto. Qed.

Lemma keeps_emit P e : keeps P (emit e).
Proof. intros opp opp' o [= <- _]. auto. Qed.

Lemma keeps_set (P : Config -> Prop) f :
  (forall c, P c -> P (f c)) -> keeps P (set_hac f).
Proof. intros Hf opp opp' o [= <- _]. simpl. auto. Qed.

Lemma keeps_bind {A B} P (m : M A) (k : A -> M B) :
  keeps P m -> (forall a, keeps P (k a)) -> keeps P (bind m k).
Proof.
  intros Hm Hk opp opp' o. unfold bind.
  destruct (m opp) as [opp1 [a|e]] eqn:E.
  - intros H Hp. eapply Hk; eauto.
  - intros [= <- _] Hp. eapply Hm; eauto.
Qed.

(** After [get_hac] the continuation runs on the config it was given. *)
Lemma keeps_get {B} (P : Config -> Prop) (k : Config -> M B) :
  (forall hac, P hac -> keeps (fun c => c = hac /\ P c) (k hac) \/ keeps P (k hac)) ->
  keeps P (bind get_hac k).
Proof.
  intros Hk opp opp' o. unfold bind, get_hac. intros H Hp.
  destruct (Hk _ Hp) as [Hq | Hq].
  - eapply Hq; eauto.
  - eapply Hq; eauto.
Qed.

Lemma keeps_get_simple {B} (P : Config -> Prop) (k : Config -> M B) :
  (forall hac, P hac -> keeps P (k hac)) -> keeps P (bind get_hac k).
Proof. intros Hk. apply keeps_get. intros hac Hp. right. auto. Qed.

Section Detection.

Variable K : constants.
Variable CORE_CONFIG_SCHEMA : value -> outcome dict.
Variable CUSTOMIZE_CONFIG_SCHEMA : value -> outcome dict.
Variable get_time_zone : value -> option tzinfo.
Variable www_path : value.
Variable async_detect_location_info : option LocationInfo.
Variable async_get_elevation : value -> value -> value.
Variable auth_manager_from_config : value -> value -> outcome unit.

Local Abbreviation auto_detect :=
  (auto_detect K get_time_zone async_detect_location_info async_get_elevation).
Local Abbreviation process :=
  (async_process_ha_core_config K CORE_CONFIG_SCHEMA CUSTOMIZE_CONFIG_SCHEMA
     get_time_zone www_path async_detect_location_info async_get_elevation
     auth_manager_from_config).

(** Walks through the auto-detection; [contra] closes the branches that a
    field already set rules out. *)
Tactic Notation "keeps_walk" tactic(contra) :=
  repeat match goal with
         | |- keeps _ (bind get_hac _) =>
             apply keeps_get_simple; intros ? ?
         | |- keeps _ (bind _ _) => apply keeps_bind; [|intros ?]
         | |- keeps _ (ret _) => apply keeps_ret
         | |- keeps _ (lift _) => apply keeps_lift
         | |- keeps _ (emit _) => apply keeps_emit
         | |- keeps _ (set_hac _) =>
             apply keeps_set; intros ? ?; simpl; assumption
         | |- keeps _ (if ?c then _ else _) =>
             let E := fresh "E" in destruct c eqn:E; try solve [exfalso; contra]
         | |- keeps _ (match ?x with _ => _ end) => destruct x
         | |- keeps _ (set_time_zone _ _) => unfold set_time_zone
         | |- keeps _ (apply_location_info _ _ _) => unfold apply_location_info
         | |- keeps _ (detect_elevation _ _) => unfold detect_elevation
         | |- keeps _ (Core.auto_detect _ _ _ _) => unfold Core.auto_detect
         end.

Ltac value_set Hx :=
  idtac;
  match goal with
  | Hp : _ = ?x, E : _ = true |- _ =>
      rewrite Hp in E; rewrite Hx in E; simpl in E;
      rewrite ?andb_false_r in E; discriminate
  end.

Ltac option_set :=
  idtac;
  match goal with
  | Hp : _ = Some _, E : is_some _ = false |- _ =>
      rewrite Hp in E; discriminate
  end.

Lemma detection_keeps_latitude x :
  is_none x = false -> keeps (fun c => latitude c = x) auto_detect.
Proof. intros Hx. keeps_walk (value_set Hx). Qed.

Lemma detection_keeps_longitude x :
  is_none x = false -> keeps (fun c => longitude c = x) auto_detect.
Proof. intros Hx. keeps_walk (value_set Hx). Qed.

Lemma detection_keeps_elevation x :
  is_none x = false -> keeps (fun c => elevation c = x) auto_detect.
Proof. intros Hx. keeps_walk (value_set Hx). Qed.

Lemma detection_keeps_location_name x :
  is_none x = false -> keeps (fun c => location_name c = x) auto_detect.
Proof. intros Hx. keeps_walk (value_set Hx). Qed.

Lemma detection_keeps_units u : keeps (fun c => units c = Some u) auto_detect.
Proof. keeps_walk option_set. Qed.

Lemma detection_keeps_time_zone tz :
  keeps (fun c => time_zone c = Some tz) auto_detect.
Proof. keeps_walk option_set. Qed.

(** Auto-detection never overwrites a field that is set: whatever the
    location and elevation lookups answer and however the detection ends,
    a latitude, longitude, elevation or location name that is not [None],
    and a unit system or time zone that is set, is the same afterwards. *)
Theorem detection_never_overwrites_a_set_field (opp opp' : Core.opp_state) o :
  auto_detect opp = (opp', o) ->
  (is_none (latitude (opp_config opp)) = false ->
   latitude (opp_config opp') = latitude (opp_config opp))
  /\ (is_none (longitude (opp_config opp)) = false ->
      longitude (opp_config opp') = longitude (opp_config opp))
  /\ (is_none (elevation (opp_config opp)) = false ->
      elevation (opp_config opp') = elevation (opp_config opp))
  /\ (is_none (location_name (opp_config opp)) = false ->
      location_name (opp_config opp') = location_name (opp_config opp))
  /\ (forall u, units (opp_config opp) = Some u -> units (opp_config opp') = Some u)
  /\ (forall tz, time_zone (opp_config opp) = Some tz ->
                 time_zone (opp_config opp') = Some tz).
Proof.
  intros Hrun. repeat split.
  - intros Hx. exact (detection_keeps_latitude _ Hx _ _ _ Hrun eq_refl).
  - intros Hx. exact (detection_keeps_longitude _ Hx _ _ _ Hrun eq_refl).
  - intros Hx. exact (detection_keeps_elevation _ Hx _ _ _ Hrun eq_refl).
  - intros Hx. exact (detection_keeps_location_name _ Hx _ _ _ Hrun eq_refl).
  - intros u Hu. exact (detection_keeps_units u _ _ _ Hrun Hu).
  - intros tz Htz. exact (detection_keeps_time_zone tz _ _ _ Hrun Htz).
Qed.

(** *** The lookups of one call *)

Lemma quiet_lookups {A} (m : M A) opp opp' o :
  quiet m -> m opp = (opp', o) -> lookups opp' = lookups opp.
Proof. intros Hq H. exact (Hq _ _ _ H). Qed.

Ltac quiet_walk :=
  repeat match goal with
         | |- quiet (bind _ _) => apply quiet_bind; [|intros ?]
         | |- quiet (ret _) => apply quiet_ret
         | |- quiet (lift _) => apply quiet_lift
         | |- quiet (set_hac _) => apply quiet_set_hac
         | |- quiet (emit _) => apply quiet_emit; reflexivity
         | |- quiet get_hac => intros ? ? ? [= <- _]; reflexivity
         | |- quiet (if ?c then _ else _) => destruct c
         | |- quiet (match ?x with _ => _ end) => destruct x
         | |- quiet (set_time_zone _ _) => unfold set_time_zone
         end.

Lemma quiet_apply_location_info info :
  quiet (apply_location_info K get_time_zone info).
Proof. unfold apply_location_info. quiet_walk. Qed.

Lemma detect_elevation_lookups discovered (opp opp' : Core.opp_state) o :
  detect_elevation async_get_elevation discovered opp = (opp', o) ->
  lookups opp' = lookups opp
  \/ exists lat lon, is_none lat = false /\ is_none lon = false
                     /\ lookups opp' = lookups opp ++ [GetElevation lat lon].
Proof.
  unfold detect_elevation, bind, get_hac.
  destruct (is_none (elevation (opp_config opp))
            && negb (is_none (latitude (opp_config opp)))
            && negb (is_none (longitude (opp_config opp)))) eqn:E.
  - apply andb_true_iff in E. destruct E as [E Hlon].
    apply andb_true_iff in E. destruct E as [_ Hlat].
    apply negb_true_iff in Hlat, Hlon.
    cbn [emit set_hac ret bind].
    destruct (discovered ++ _) eqn:Ed.
    + destruct discovered; discriminate.
    + intros [= <- _]. right. exists (latitude (opp_config opp)),
        (longitude (opp_config opp)). repeat split; auto.
      unfold lookups. simpl. rewrite !filter_app. simpl. now rewrite app_nil_r.
  - cbn [ret]. destruct discovered; intros [= <- _]; left; auto.
    unfold lookups. simpl. rewrite filter_app. simpl. now rewrite app_nil_r.
Qed.

Lemma auto_detect_lookups (opp opp' : Core.opp_state) o :
  auto_detect opp = (opp', o) ->
  exists added, lookups opp' = lookups opp ++ added /\ one_call_lookups added.
Proof.
  unfold Core.auto_detect, bind at 1, get_hac.
  destruct (all_known (opp_config opp)).
  - intros [= <- _]. exists []. rewrite app_nil_r. split; [reflexivity | now left].
  - destruct (location_missing (opp_config opp)).
    + unfold bind at 1.
      destruct (emit DetectLocationInfo opp) as [opp1 o1] eqn:Ee.
      assert (L1 : lookups opp1 = lookups opp ++ [DetectLocationInfo]).
      { injection Ee as <- _. unfold lookups. simpl. now rewrite filter_app. }
      assert (o1 = Returns tt) by (now injection Ee as _ <-). subst o1.
      destruct async_detect_location_info as [info|].
      * unfold bind at 1.
        destruct (apply_location_info K get_time_zone info opp1)
          as [opp2 [discovered|e]] eqn:Ea.
        -- pose proof (quiet_lookups _ _ _ _ (quiet_apply_location_info info) Ea) as L2.
           intros Hd. destruct (detect_elevation_lookups _ _ _ _ Hd)
             as [L3 | (lat & lon & Hlat & Hlon & L3)].
           ++ exists [DetectLocationInfo]. rewrite L3, L2, L1.
              split; [reflexivity | right; now left].
           ++ exists [DetectLocationInfo; GetElevation lat lon].
              rewrite L3, L2, L1, <- app_assoc.
              split; [reflexivity | right; right; exists lat, lon; auto].
        -- intros [= <- _].
           rewrite (quiet_lookups _ _ _ _ (quiet_apply_location_info info) Ea), L1.
           exists [DetectLocationInfo]. split; [reflexivity | right; now left].
      * intros [= <- _]. exists [DetectLocationInfo].
        split; [|right; now left].
        unfold lookups in *. simpl. rewrite filter_app. simpl.
        now rewrite app_nil_r.
    + intros Hd. destruct (detect_elevation_lookups _ _ _ _ Hd)
        as [L3 | (lat & lon & Hlat & Hlon & L3)].
      * exists []. rewrite app_nil_r. split; [exact L3 | now left].
      * exists [GetElevation lat lon]. split; [exact L3|].
        right; right; exists lat, lon; auto.
Qed.

(** One call of [async_process_ha_core_config] makes at most one location
    lookup and at most one elevation lookup, the elevation lookup last and
    only with a latitude and a longitude that are not [None]; this holds
    however the call ends. *)
Theorem at_most_one_lookup_of_each_kind
    config api_password trusted_networks (opp opp' : Core.opp_state) o :
  process config api_password trusted_networks opp = (opp', o) ->
  exists added, lookups opp' = lookups opp ++ added /\ one_call_lookups added.
Proof.
  unfold async_process_ha_core_config, bind.
  destruct (apply_core_config _ _ _ _ _ _ _ _ _ opp) as [opp1 [[]|e]] eqn:Ea.
  - intros Hd. destruct (auto_detect_lookups _ _ _ Hd) as (added & L & Hs).
    exists added. split; auto. rewrite L. f_equal.
    exact (quiet_apply_core_config _ _ _ _ _ _ _ _ _ _ _ _ Ea).
  - intros [= <- _]. exists []. rewrite app_nil_r. split; [|now left].
    exact (quiet_apply_core_config _ _ _ _ _ _ _ _ _ _ _ _ Ea).
Qed.

(** *** Explicit settings and the auth manager *)

Lemma bind_returns {A B} (m : M A) (k : A -> M B) opp opp' b :
  bind m k opp = (opp', Returns b) ->
  exists a opp1, m opp = (opp1, Returns a) /\ k a opp1 = (opp', Returns b).
Proof.
  unfold bind. destruct (m opp) as [opp1 [a|e]]; [eauto | discriminate].
Qed.

Lemma keeps_auth_bind {A B} (m : M A) (k : A -> M B) :
  keeps_auth m -> (forall a, keeps_auth (k a)) -> keeps_auth (bind m k).
Proof.
  intros Hm Hk opp opp' o. unfold bind.
  destruct (m opp) as [opp1 [a|e]] eqn:E.
  - intros H. rewrite (Hk a _ _ _ H). eapply Hm; eauto.
  - intros [= <- _]. eapply Hm; eauto.
Qed.

(** Walks through a step that never assigns [opp.auth] (or never assigns
    [opp.config], for [keeps]). *)
Ltac auth_walk :=
  repeat match goal with
         | |- keeps_auth (bind _ _) => apply keeps_auth_bind; [|intros ?]
         | |- keeps_auth (if ?c then _ else _) => destruct c
         | |- keeps_auth (match ?x with _ => _ end) => destruct x
         | |- keeps_auth (let '(_, _) := ?x in _) => destruct x
         | |- keeps_auth (set_time_zone _ _) => unfold set_time_zone
         | |- keeps_auth (apply_location_info _ _ _) => unfold apply_location_info
         | |- keeps_auth (detect_elevation _ _) => unfold detect_elevation
         | |- keeps_auth (Core.auto_detect _ _ _ _) => unfold Core.auto_detect
         | |- keeps_auth (apply_explicit_keys _ _) => unfold apply_explicit_keys
         | |- keeps_auth (init_whitelist _ _ _) => unfold init_whitelist
         | |- keeps_auth (resolve_unit_system _ _) => unfold resolve_unit_system
         | |- keeps_auth (customize_package _ _ _ _ _) => unfold customize_package
         | |- keeps_auth (process_customize _ _ _) => unfold process_customize
         | |- keeps_auth _ => solve [intros ? ? ? [= <- _]; reflexivity]
         end.

Lemma keeps_auth_customize_packages packages :
  forall cust, keeps_auth (customize_packages K CUSTOMIZE_CONFIG_SCHEMA packages cust).
Proof.
  induction packages as [|[name pkg] packages IH]; intros cust; simpl.
  - auth_walk.
  - apply keeps_auth_bind; [auth_walk | intros; apply IH].
Qed.

Lemma keeps_auth_after_setup (d : dict) :
  keeps_auth
    (bind (apply_explicit_keys K d) (fun _ =>
     bind (set_time_zone get_time_zone (dict_get d (CONF_TIME_ZONE K))) (fun _ =>
     bind (init_whitelist K www_path d) (fun _ =>
     bind (process_customize K CUSTOMIZE_CONFIG_SCHEMA d) (fun _ =>
     resolve_unit_system K d))))).
Proof.
  auth_walk; try apply keeps_auth_customize_packages.
Qed.

Lemma keeps_auth_auto_detect : keeps_auth auto_detect.
Proof. auth_walk. Qed.

(** The auth manager is built at most once, and [opp.auth] is assigned
    only once [auth_manager_from_config] has returned:
    - a call on an [opp] that has a manager leaves it as it is, however the
      call ends;
    - on an [opp] without one, once the core schema accepts the config: if
      [auth_manager_from_config] returns on the provider and module configs
      of lines 416-435, [opp] has the manager built from them, however the
      rest of the call ends; if it raises, the exception leaves the call and
      [opp] is exactly as it was, without a manager;
    - a config the core schema rejects leaves [opp] as it was. *)
Theorem auth_manager_is_built_once
    config api_password trusted_networks (opp opp' : Core.opp_state) o :
  process config api_password trusted_networks opp = (opp', o) ->
  (forall manager, opp_auth opp = Some manager -> opp_auth opp' = Some manager)
  /\ (forall d,
         opp_auth opp = None ->
         CORE_CONFIG_SCHEMA config = Returns d ->
         match auth_manager_from_config
                 (auth_conf K d api_password trusted_networks) (mfa_conf K d) with
         | Returns _ =>
             opp_auth opp'
             = Some (auth_conf K d api_password trusted_networks, mfa_conf K d)
         | Raises e => opp' = opp /\ o = Raises e
         end)
  /\ (forall e, CORE_CONFIG_SCHEMA config = Raises e ->
                opp' = opp /\ o = Raises e).
Proof.
  unfold async_process_ha_core_config, apply_core_config.
  unfold bind at 1 2 3, lift.
  destruct (CORE_CONFIG_SCHEMA config) as [d|e].
  2:{ intros [= <- <-]. split; [auto | split; [discriminate|]].
      intros e0 [= <-]. auto. }
  destruct (setup_auth K auth_manager_from_config d api_password trusted_networks
              opp) as [opp1 o1] eqn:Es.
  unfold setup_auth in Es.
  destruct (opp_auth opp) as [m|] eqn:Em.
  - (* [opp] has a manager *)
    injection Es as <- <-.
    match goal with
    | |- context [bind ?m ?k opp] =>
        destruct (bind m k opp) as [opp2 o2] eqn:Et;
        pose proof (keeps_auth_after_setup d _ _ _ Et) as H2
    end.
    intros Hrest.
    assert (Ha : opp_auth opp' = opp_auth opp2).
    { destruct o2 as [[]|e2].
      - exact (keeps_auth_auto_detect _ _ _ Hrest).
      - now injection Hrest as <- _. }
    split; [|split; discriminate].
    intros manager [= <-]. now rewrite Ha, H2.
  - (* [opp] has none *)
    destruct (auth_manager_from_config _ _) as [[]|e] eqn:Eb.
    + injection Es as <- <-.
      match goal with
      | |- context [bind ?m ?k ?st] =>
          destruct (bind m k st) as [opp2 o2] eqn:Et;
          pose proof (keeps_auth_after_setup d _ _ _ Et) as H2
      end.
      intros Hrest.
      assert (Ha : opp_auth opp' = opp_auth opp2).
      { destruct o2 as [[]|e2].
        - exact (keeps_auth_auto_detect _ _ _ Hrest).
        - now injection Hrest as <- _. }
      split; [discriminate | split; [|discriminate]].
      intros d0 _ [= <-]. rewrite Eb, Ha, H2. reflexivity.
    + injection Es as <- <-. intros [= <- <-].
      split; [discriminate | split; [|discriminate]].
      intros d0 _ [= <-]. rewrite Eb. auto.
Qed.

(** Phases that never assign [opp.config] keep any property of it. *)
Lemma keeps_of_config_unchanged {A} (P : Config -> Prop) (m : M A) :
  config_unchanged m -> keeps P m.
Proof. intros H opp opp' o Hm Hp. now rewrite (H _ _ _ Hm). Qed.

Lemma config_unchanged_bind {A B} (m : M A) (k : A -> M B) :
  config_unchanged m -> (forall a, config_unchanged (k a)) ->
  config_unchanged (bind m k).
Proof.
  intros Hm Hk opp opp' o. unfold bind.
  destruct (m opp) as [opp1 [a|e]] eqn:E.
  - intros H. rewrite (Hk a _ _ _ H). eapply Hm; eauto.
  - intros [= <- _]. eapply Hm; eauto.
Qed.

Ltac config_walk :=
  repeat match goal with
         | |- config_unchanged (bind _ _) => apply config_unchanged_bind; [|intros ?]
         | |- config_unchanged (if ?c then _ else _) => destruct c
         | |- config_unchanged (match ?x with _ => _ end) => destruct x
         | |- config_unchanged (let '(_, _) := ?x in _) => destruct x
         | |- config_unchanged (customize_package _ _ _ _ _) => unfold customize_package
         | |- config_unchanged (process_customize _ _ _) => unfold process_customize
         | |- config_unchanged _ => solve [intros ? ? ? [= <- _]; reflexivity]
         end.

Lemma config_unchanged_customize_packages packages :
  forall cust,
    config_unchanged (customize_packages K CUSTOMIZE_CONFIG_SCHEMA packages cust).
Proof.
  induction packages as [|[name pkg] packages IH]; intros cust; simpl.
  - config_walk.
  - apply config_unchanged_bind; [config_walk | intros; apply IH].
Qed.

Lemma config_unchanged_process_customize d :
  config_unchanged (process_customize K CUSTOMIZE_CONFIG_SCHEMA d).
Proof. config_walk; apply config_unchanged_customize_packages. Qed.

(** What the phases after the explicit keys keep: any property of the
    config that the time zone, the whitelist and the units do not enter. *)
Lemma keeps_after_explicit_keys (P : Config -> Prop) (d : dict) :
  (forall c tz, P c -> P (with_time_zone tz c)) ->
  (forall c dirs, P c -> P (with_whitelist dirs c)) ->
  (forall c u, P c -> P (with_units u c)) ->
  keeps P
    (bind (set_time_zone get_time_zone (dict_get d (CONF_TIME_ZONE K))) (fun _ =>
     bind (init_whitelist K www_path d) (fun _ =>
     bind (process_customize K CUSTOMIZE_CONFIG_SCHEMA d) (fun _ =>
     resolve_unit_system K d)))).
Proof.
  intros Htz Hwl Hu.
  repeat match goal with
         | |- keeps _ (bind _ _) => apply keeps_bind; [|intros ?]
         | |- keeps _ (ret _) => apply keeps_ret
         | |- keeps _ (lift _) => apply keeps_lift
         | |- keeps _ (emit _) => apply keeps_emit
         | |- keeps _ (set_hac (with_time_zone _)) => apply keeps_set; intros; apply Htz; assumption
         | |- keeps _ (set_hac (with_whitelist _)) => apply keeps_set; intros; apply Hwl; assumption
         | |- keeps _ (set_hac (with_units _)) => apply keeps_set; intros; apply Hu; assumption
         | |- keeps _ (process_customize _ _ _) =>
             apply keeps_of_config_unchanged; apply config_unchanged_process_customize
         | |- keeps _ (if ?c then _ else _) => destruct c
         | |- keeps _ (match ?x with _ => _ end) => destruct x
         | |- keeps _ (set_time_zone _ _) => unfold set_time_zone
         | |- keeps _ (init_whitelist _ _ _) => unfold init_whitelist
         | |- keeps _ (resolve_unit_system _ _) => unfold resolve_unit_system
         end.
Qed.

Lemma explicit_keys_applied (d : dict) (opp : Core.opp_state) :
  exists opp',
    apply_explicit_keys K d opp = (opp', Returns tt)
    /\ (forall v, dict_lookup d (CONF_LATITUDE K) = Some v ->
                  latitude (opp_config opp') = v)
    /\ (forall v, dict_lookup d (CONF_LONGITUDE K) = Some v ->
                  longitude (opp_config opp') = v)
    /\ (forall v, dict_lookup d (CONF_NAME K) = Some v ->
                  location_name (opp_config opp') = v)
    /\ (forall v, dict_lookup d (CONF_ELEVATION K) = Some v ->
                  elevation (opp_config opp') = v).
Proof.
  unfold apply_explicit_keys, bind.
  destruct (dict_lookup d (CONF_LATITUDE K)), (dict_lookup d (CONF_LONGITUDE K)),
    (dict_lookup d (CONF_NAME K)), (dict_lookup d (CONF_ELEVATION K));
    simpl; eexists; (split; [reflexivity|]);
    repeat split; intros ? [= <-]; reflexivity.
Qed.

(** Explicit settings win over detection: when the call returns, a
    latitude, longitude, location name or elevation that the validated core
    config gives, and that is not null, is what [opp.config] holds, whatever
    the lookups answered. *)
Theorem explicit_location_settings_win
    config api_password trusted_networks (opp opp' : Core.opp_state) d :
  CORE_CONFIG_SCHEMA config = Returns d ->
  process config api_password trusted_networks opp = (opp', Returns tt) ->
  (forall v, dict_lookup d (CONF_LATITUDE K) = Some v -> is_none v = false ->
             latitude (opp_config opp') = v)
  /\ (forall v, dict_lookup d (CONF_LONGITUDE K) = Some v -> is_none v = false ->
                longitude (opp_config opp') = v)
  /\ (forall v, dict_lookup d (CONF_NAME K) = Some v -> is_none v = false ->
                location_name (opp_config opp') = v)
  /\ (forall v, dict_lookup d (CONF_ELEVATION K) = Some v -> is_none v = false ->
                elevation (opp_config opp') = v).
Proof.
  intros Hschema Hrun.
  unfold async_process_ha_core_config in Hrun.
  apply bind_returns in Hrun. destruct Hrun as ([] & oppA & Happly & Hdetect).
  unfold apply_core_config in Happly.
  apply bind_returns in Happly. destruct Happly as (d' & opp0 & Hl & Happly).
  unfold lift in Hl. rewrite Hschema in Hl. injection Hl as <- <-.
  apply bind_returns in Happly. destruct Happly as ([] & opp1 & _ & Happly).
  apply bind_returns in Happly. destruct Happly as ([] & opp2 & Hkeys & Htail).
  destruct (explicit_keys_applied d opp1) as (opp2' & Hk & Hlat & Hlon & Hname & Helev).
  rewrite Hk in Hkeys. injection Hkeys as ->.
  repeat split; intros v Hv Hn.
  - apply (detection_keeps_latitude v Hn _ _ _ Hdetect).
    apply (keeps_after_explicit_keys (fun c => latitude c = v) d) with (1 := fun c _ H => H)
      (2 := fun c _ H => H) (3 := fun c _ H => H) (4 := Htail). auto.
  - apply (detection_keeps_longitude v Hn _ _ _ Hdetect).
    apply (keeps_after_explicit_keys (fun c => longitude c = v) d) with (1 := fun c _ H => H)
      (2 := fun c _ H => H) (3 := fun c _ H => H) (4 := Htail). auto.
  - apply (detection_keeps_location_name v Hn _ _ _ Hdetect).
    apply (keeps_after_explicit_keys (fun c => location_name c = v) d) with (1 := fun c _ H => H)
      (2 := fun c _ H => H) (3 := fun c _ H => H) (4 := Htail). auto.
  - apply (detection_keeps_elevation v Hn _ _ _ Hdetect).
    apply (keeps_after_explicit_keys (fun c => elevation c = v) d) with (1 := fun c _ H => H)
      (2 := fun c _ H => H) (3 := fun c _ H => H) (4 := Htail). auto.
Qed.

End Detection.

Lemma location_missing_not_all_known (hac : Config) :
  location_missing hac = true -> all_known hac = false.
Proof.
  unfold location_missing, all_known.
  destruct (is_none (latitude hac)), (is_none (longitude hac)),
    (units hac), (time_zone hac); simpl; intros; congruence.
Qed.

(** The config [apply_location_info] leaves, field by field. *)
Lemma apply_location_info_fields K get_time_zone info (opp : Core.opp_state) :
  exists opp1 discovered,
    apply_location_info K get_time_zone info opp = (opp1, Returns discovered)
    /\ latitude (opp_config opp1)
       = (if is_none (latitude (opp_config opp))
             && is_none (longitude (opp_config opp))
          then li_latitude info else latitude (opp_config opp))
    /\ longitude (opp_config opp1)
       = (if is_none (latitude (opp_config opp))
             && is_none (longitude (opp_config opp))
          then li_longitude info else longitude (opp_config opp))
    /\ elevation (opp_config opp1) = elevation (opp_config opp)
    /\ units (opp_config opp1)
       = match units (opp_config opp) with
         | Some u => Some u
         | None => Some (if li_use_metric info then METRIC_SYSTEM
                         else IMPERIAL_SYSTEM)
         end
    /\ location_name (opp_config opp1)
       = (if is_none (location_name (opp_config opp)) then li_city info
          else location_name (opp_config opp))
    /\ time_zone (opp_config opp1)
       = match time_zone (opp_config opp) with
         | Some tz => Some tz
         | None => if is_none (li_time_zone info) then None
                   else get_time_zone (li_time_zone info)
         end.
Proof.
  destruct opp as [au [lat lon el nm tz un wl] dc tr].
  unfold apply_location_info, set_time_zone, bind, get_hac, set_hac, emit, ret.
  simpl.
  destruct (is_none lat), (is_none lon); simpl;
    destruct un; simpl;
    destruct (is_none nm); simpl;
    destruct tz; simpl;
    try (destruct (is_none (li_time_zone info)); simpl;
         try (destruct (get_time_zone (li_time_zone info)); simpl));
    eexists _, _; (split; [reflexivity|]); simpl; repeat split; reflexivity.
Qed.

(** The config [detect_elevation] leaves, field by field. *)
Lemma detect_elevation_fields async_get_elevation discovered
    (opp opp' : Core.opp_state) o :
  detect_elevation async_get_elevation discovered opp = (opp', o) ->
  o = Returns tt
  /\ latitude (opp_config opp') = latitude (opp_config opp)
  /\ longitude (opp_config opp') = longitude (opp_config opp)
  /\ units (opp_config opp') = units (opp_config opp)
  /\ location_name (opp_config opp') = location_name (opp_config opp)
  /\ time_zone (opp_config opp') = time_zone (opp_config opp)
  /\ elevation (opp_config opp')
     = (if is_none (elevation (opp_config opp))
           && negb (is_none (latitude (opp_config opp)))
           && negb (is_none (longitude (opp_config opp)))
        then async_get_elevation (latitude (opp_config opp))
               (longitude (opp_config opp))
        else elevation (opp_config opp)).
Proof.
  unfold detect_elevation, bind, get_hac, set_hac, emit, ret. simpl.
  destruct (is_none (elevation (opp_config opp))
            && negb (is_none (latitude (opp_config opp)))
            && negb (is_none (longitude (opp_config opp)))); simpl.
  - destruct (discovered ++ _); intros [= <- <-]; simpl; repeat split.
  - destruct discovered; intros [= <- <-]; simpl; repeat split.
Qed.

(** When the location lookup fails the detection raises nothing, and
    nothing but the elevation can change.  If one of latitude, longitude,
    unit system and time zone is missing, the detection stops at the failed
    lookup: the config is left as it was and no elevation lookup is made,
    even when latitude and longitude are known and the elevation is missing.  *)
Theorem failed_location_lookup_changes_nothing
    K get_time_zone async_get_elevation (opp opp' : Core.opp_state) o :
  Core.auto_detect K get_time_zone None async_get_elevation opp = (opp', o) ->
  o = Returns tt
  /\ latitude (opp_config opp') = latitude (opp_config opp)
  /\ longitude (opp_config opp') = longitude (opp_config opp)
  /\ location_name (opp_config opp') = location_name (opp_config opp)
  /\ units (opp_config opp') = units (opp_config opp)
  /\ time_zone (opp_config opp') = time_zone (opp_config opp)
  /\ (location_missing (opp_config opp) = true ->
      opp_config opp' = opp_config opp
      /\ lookups opp' = lookups opp ++ [DetectLocationInfo]).
Proof.
  unfold Core.auto_detect, bind at 1, get_hac.
  destruct (location_missing (opp_config opp)) eqn:Hm.
  - rewrite (location_missing_not_all_known _ Hm).
    intros [= <- <-]. simpl. repeat (split; [reflexivity|]).
    unfold lookups. simpl. rewrite !filter_app. simpl. now rewrite app_nil_r.
  - destruct (all_known (opp_config opp)).
    + intros [= <- <-]. repeat (split; [reflexivity|]). discriminate.
    + intros Hd. apply detect_elevation_fields in Hd.
      destruct Hd as (-> & Dlat & Dlon & Dun & Dnm & Dtz & _).
      repeat (split; [assumption || reflexivity|]). discriminate.
Qed.

(** What the detection takes from a location lookup that answered:
    latitude and longitude only as a pair, when both are missing (when
    exactly one is missing both stay as they are, and so does the elevation);
    the unit system, the location name and the time zone each when missing;
    and an elevation that is missing is the elevation lookup's answer for the
    coordinates the config then has, if it has both. *)
Theorem detection_takes_unset_fields_from_the_lookup
    K get_time_zone async_get_elevation info (opp opp' : Core.opp_state) o :
  location_missing (opp_config opp) = true ->
  Core.auto_detect K get_time_zone (Some info) async_get_elevation opp = (opp', o) ->
  o = Returns tt
  /\ (is_none (latitude (opp_config opp)) = true ->
      is_none (longitude (opp_config opp)) = true ->
      latitude (opp_config opp') = li_latitude info
      /\ longitude (opp_config opp') = li_longitude info)
  /\ (is_none (latitude (opp_config opp))
      = negb (is_none (longitude (opp_config opp))) ->
      latitude (opp_config opp') = latitude (opp_config opp)
      /\ longitude (opp_config opp') = longitude (opp_config opp)
      /\ elevation (opp_config opp') = elevation (opp_config opp))
  /\ (units (opp_config opp) = None ->
      units (opp_config opp')
      = Some (if li_use_metric info then METRIC_SYSTEM else IMPERIAL_SYSTEM))
  /\ (is_none (location_name (opp_config opp)) = true ->
      location_name (opp_config opp') = li_city info)
  /\ (time_zone (opp_config opp) = None ->
      time_zone (opp_config opp')
      = if is_none (li_time_zone info) then None
        else get_time_zone (li_time_zone info))
  /\ (is_none (elevation (opp_config opp)) = true ->
      is_none (latitude (opp_config opp')) = false ->
      is_none (longitude (opp_config opp')) = false ->
      elevation (opp_config opp')
      = async_get_elevation (latitude (opp_config opp'))
          (longitude (opp_config opp'))).
Proof.
  intros Hm. unfold Core.auto_detect, bind at 1, get_hac.
  rewrite (location_missing_not_all_known _ Hm), Hm. clear Hm.
  unfold bind at 1. unfold emit at 1. unfold bind at 1.
  match goal with
  | |- context [apply_location_info K get_time_zone info ?st] =>
      destruct (apply_location_info_fields K get_time_zone info st)
        as (opp1 & discovered & -> & Hlat & Hlon & Hel & Hun & Hnm & Htz)
  end.
  simpl in Hlat, Hlon, Hel, Hun, Hnm, Htz.
  intros Hd. apply detect_elevation_fields in Hd.
  destruct Hd as (-> & Dlat & Dlon & Dun & Dnm & Dtz & Del).
  rewrite Hlat, Hlon, Hel in Del.
  rewrite Dlat, Dlon, Dun, Dnm, Dtz, Hlat, Hlon, Hun, Hnm, Htz, Del.
  split; [reflexivity|]. split; [|split; [|split; [|split; [|split]]]].
  - intros -> ->. simpl. auto.
  - destruct (is_none (latitude (opp_config opp))) eqn:Ea,
      (is_none (longitude (opp_config opp))) eqn:Eo,
      (is_none (elevation (opp_config opp))); simpl; intros E;
      try discriminate E; rewrite ?Ea, ?Eo; auto.
  - now intros ->.
  - now intros ->.
  - now intros ->.
  - intros Ee Ela Elo. now rewrite Ee, Ela, Elo.
Qed.

(** *** The customize rules *)

Section Customize.

Variable K : constants.
Variable CUSTOMIZE_CONFIG_SCHEMA : value -> outcome dict.

Local Abbreviation rules_of := (package_rules K CUSTOMIZE_CONFIG_SCHEMA).

Lemma dict_lookup_update (layer : dict) :
  NoDup (dict_keys layer) ->
  forall base name,
    dict_lookup (dict_update base layer) name
    = match dict_lookup layer name with
      | Some rule => Some rule
      | None => dict_lookup base name
      end.
Proof.
  unfold dict_update, dict_keys.
  induction layer as [|[k v] layer IH]; intros Hnd base name; simpl.
  - reflexivity.
  - inversion Hnd as [|? ? Hk Hnd']; subst. rewrite (IH Hnd').
    destruct (String.eqb k name) eqn:E.
    + apply String.eqb_eq in E. subst name.
      assert (Hnone : dict_lookup layer k = None).
      { clear - Hk. induction layer as [|[k' w] layer IH]; simpl; [reflexivity|].
        destruct (String.eqb k' k) eqn:E.
        - apply String.eqb_eq in E. subst. simpl in Hk. tauto.
        - apply IH. simpl in Hk. tauto. }
      rewrite Hnone. apply PyFacts.dict_lookup_set_eq.
    + destruct (dict_lookup layer name); [reflexivity|].
      apply PyFacts.dict_lookup_set_ne. intros ->.
      now rewrite String.eqb_refl in E.
Qed.

(** One package adds its three layers, or nothing. *)
Lemma customize_package_layers name pkg ce cd cg (opp opp' : Core.opp_state)
    ce' cd' cg' :
  customize_package K CUSTOMIZE_CONFIG_SCHEMA name pkg (ce, cd, cg) opp
  = (opp', Returns (ce', cd', cg')) ->
  ce' = dict_update ce (rules_of (CONF_CUSTOMIZE K) pkg)
  /\ cd' = dict_update cd (rules_of (CONF_CUSTOMIZE_DOMAIN K) pkg)
  /\ cg' = dict_update cg (rules_of (CONF_CUSTOMIZE_GLOB K) pkg).
Proof.
  unfold customize_package, package_rules, subscript, as_dict, bind, lift, ret, emit.
  destruct pkg as [| | | | |p]; try discriminate.
  destruct (is_none (dict_get p (CONF_CORE K))).
  - now intros [= _ <- <- <-].
  - destruct (CUSTOMIZE_CONFIG_SCHEMA (dict_get p (CONF_CORE K))) as [d|ex].
    + destruct (dict_lookup d (CONF_CUSTOMIZE K)) as [[| | | | |r1]|];
        try discriminate.
      destruct (dict_lookup d (CONF_CUSTOMIZE_DOMAIN K)) as [[| | | | |r2]|];
        try discriminate.
      destruct (dict_lookup d (CONF_CUSTOMIZE_GLOB K)) as [[| | | | |r3]|];
        try discriminate.
      now intros [= _ <- <- <-].
    + destruct (is_vol_invalid ex); [|discriminate].
      now intros [= _ <- <- <-].
Qed.

Lemma customize_packages_layers packages :
  (forall key, In key [CONF_CUSTOMIZE K; CONF_CUSTOMIZE_DOMAIN K;
                       CONF_CUSTOMIZE_GLOB K] ->
     forall package, In package packages ->
                     NoDup (dict_keys (rules_of key (snd package)))) ->
  forall ce cd cg (opp opp' : Core.opp_state) ce' cd' cg',
    customize_packages K CUSTOMIZE_CONFIG_SCHEMA packages (ce, cd, cg) opp
    = (opp', Returns (ce', cd', cg')) ->
    layered K CUSTOMIZE_CONFIG_SCHEMA (CONF_CUSTOMIZE K) ce packages ce'
    /\ layered K CUSTOMIZE_CONFIG_SCHEMA (CONF_CUSTOMIZE_DOMAIN K) cd packages cd'
    /\ layered K CUSTOMIZE_CONFIG_SCHEMA (CONF_CUSTOMIZE_GLOB K) cg packages cg'.
Proof.
  unfold layered.
  induction packages as [|[name pkg] packages IH]; intros Hnd ce cd cg opp opp'
    ce' cd' cg'; simpl.
  - intros [= _ <- <- <-]. auto.
  - intros H. apply bind_returns in H.
    destruct H as ([[ce1 cd1] cg1] & opp1 & H1 & H2).
    apply customize_package_layers in H1. destruct H1 as (-> & -> & ->).
    apply IH in H2; [|intros key Hkey package Hin; apply Hnd; simpl; auto].
    destruct H2 as (He & Hd & Hg).
    repeat split; intros entity.
    + rewrite He, dict_lookup_update; [reflexivity|].
      apply (Hnd _ (or_introl eq_refl) (name, pkg)). now left.
    + rewrite Hd, dict_lookup_update; [reflexivity|].
      apply (Hnd _ (or_intror (or_introl eq_refl)) (name, pkg)). now left.
    + rewrite Hg, dict_lookup_update; [reflexivity|].
      apply (Hnd _ (or_intror (or_intror (or_introl eq_refl))) (name, pkg)).
      now left.
Qed.

(** The customize rules handed to the entity layer are layered: for every
    entity id, domain and glob pattern, the rule of the last package that
    gives one wins, and the top-level rule stands only when no package gives
    one.  A package without a core section, or with one the customize schema
    rejects, gives none. *)
Theorem later_customize_layers_win
    (d : dict) (opp opp' : Core.opp_state) base_exact base_domain base_glob
    packages :
  dict_lookup d (CONF_CUSTOMIZE K) = Some (VDict base_exact) ->
  dict_lookup d (CONF_CUSTOMIZE_DOMAIN K) = Some (VDict base_domain) ->
  dict_lookup d (CONF_CUSTOMIZE_GLOB K) = Some (VDict base_glob) ->
  dict_lookup d (CONF_PACKAGES K) = Some (VDict packages) ->
  (forall key, In key [CONF_CUSTOMIZE K; CONF_CUSTOMIZE_DOMAIN K;
                       CONF_CUSTOMIZE_GLOB K] ->
     forall package, In package packages ->
                     NoDup (dict_keys (rules_of key (snd package)))) ->
  process_customize K CUSTOMIZE_CONFIG_SCHEMA d opp = (opp', Returns tt) ->
  exists cust_exact cust_domain cust_glob,
    data_customize opp' = Some (cust_exact, cust_domain, cust_glob)
    /\ layered K CUSTOMIZE_CONFIG_SCHEMA (CONF_CUSTOMIZE K)
         base_exact packages cust_exact
    /\ layered K CUSTOMIZE_CONFIG_SCHEMA (CONF_CUSTOMIZE_DOMAIN K)
         base_domain packages cust_domain
    /\ layered K CUSTOMIZE_CONFIG_SCHEMA (CONF_CUSTOMIZE_GLOB K)
         base_glob packages cust_glob.
Proof.
  intros He Hd Hg Hp Hnd. unfold process_customize, subscript, as_dict.
  rewrite He, Hd, Hg, Hp. unfold bind at 1 2 3 4, lift.
  intros H. apply bind_returns in H.
  destruct H as ([[ce cd] cg] & opp1 & H1 & H2).
  injection H2 as <-. simpl.
  exists ce, cd, cg. split; [reflexivity|].
  exact (customize_packages_layers packages Hnd _ _ _ _ _ _ _ _ H1).
Qed.

End Customize.

Import Examples.

Lemma later_customize_layers_witness :
  exists cust_exact cust_domain cust_glob,
    data_customize
      (fst (process_customize ha_constants example_customize_schema
              customized_core starting_opp))
    = Some (cust_exact, cust_domain, cust_glob)
    /\ layered ha_constants example_customize_schema "customize"
         [("light.kitchen", VDict [("friendly_name", VStr "Kitchen")]);
          ("light.hall", VDict [("friendly_name", VStr "Hall")])]
         [("pack_1",
           VDict [("openpeerpower",
                   VDict [("customize",
                           VDict [("light.kitchen",
                                   VDict [("friendly_name", VStr "Cooking")]);
                                  ("light.attic",
                                   VDict [("hidden", VBool true)])])])]);
          ("pack_2", VDict [("openpeerpower", VStr "not a section")])]
         cust_exact
    /\ layered ha_constants example_customize_schema "customize_domain" []
         [("pack_1",
           VDict [("openpeerpower",
                   VDict [("customize",
                           VDict [("light.kitchen",
                                   VDict [("friendly_name", VStr "Cooking")]);
                                  ("light.attic",
                                   VDict [("hidden", VBool true)])])])]);
          ("pack_2", VDict [("openpeerpower", VStr "not a section")])]
         cust_domain
    /\ layered ha_constants example_customize_schema "customize_glob" []
         [("pack_1",
           VDict [("openpeerpower",
                   VDict [("customize",
                           VDict [("light.kitchen",
                                   VDict [("friendly_name", VStr "Cooking")]);
                                  ("light.attic",
                                   VDict [("hidden", VBool true)])])])]);
          ("pack_2", VDict [("openpeerpower", VStr "not a section")])]
         cust_glob.
Proof.
  refine (later_customize_layers_win ha_constants example_customize_schema
            customized_core starting_opp _ _ _ _ _ _ _ _ _ _ _);
    try (vm_compute; reflexivity).
  intros key [<- | [<- | [<- | []]]] package [<- | [<- | []]];
    vm_compute; repeat constructor; simpl; intuition discriminate.
Defined.

(** The package's rule for the kitchen light replaces the top-level one;
    the hall light keeps its rule and the attic light gets the package's;
    the second package is skipped with a warning. *)
Example customize_example :
  process_customize ha_constants example_customize_schema customized_core
    starting_opp
  = ({| opp_auth := None; opp_config := unset_config;
        data_customize :=
          Some ([("light.kitchen", VDict [("friendly_name", VStr "Cooking")]);
                 ("light.hall", VDict [("friendly_name", VStr "Hall")]);
                 ("light.attic", VDict [("hidden", VBool true)])], [], []);
        trace := [LogInvalidCustomize "pack_2"] |}, Returns tt).
Proof. reflexivity. Qed.

Lemma detection_never_overwrites_witness :
  latitude (opp_config (fst (Core.auto_detect ha_constants example_get_time_zone
                               (Some new_york) example_elevation latitude_only_opp)))
  = VInt 52.
Proof.
  apply (proj1 (detection_never_overwrites_a_set_field ha_constants
                  example_get_time_zone (Some new_york) example_elevation
                  latitude_only_opp _ _ (surjective_pairing _))).
  reflexivity.
Defined.

Lemma at_most_one_lookup_witness :
  exists added,
    lookups (fst (process_example (Some new_york) (VDict [])))
    = lookups starting_opp ++ added
    /\ one_call_lookups added.
Proof.
  apply (at_most_one_lookup_of_each_kind ha_constants example_core_schema
           example_customize_schema example_get_time_zone (VStr "/config/www")
           (Some new_york) example_elevation example_auth_manager (VDict [])
           VNone VNone starting_opp _ _ (surjective_pairing _)).
Defined.

Lemma auth_manager_witness :
  opp_auth (fst (process_example (Some new_york) explicit_core))
  = Some (VList [VDict [("type", VStr "openpeerpower")]],
          VList [VDict [("type", VStr "totp"); ("id", VStr "totp");
                        ("name", VStr "Authenticator app")]]).
Proof.
  exact (proj1 (proj2 (auth_manager_is_built_once ha_constants example_core_schema
                         example_customize_schema example_get_time_zone
                         (VStr "/config/www") (Some new_york) example_elevation
                         example_auth_manager explicit_core VNone VNone
                         starting_opp _ _ (surjective_pairing _)))
           (with_default "packages"
              (with_default "customize_glob"
                 (with_default "customize_domain"
                    (with_default "customize"
                       [("latitude", VInt 52); ("longitude", VInt 5);
                        ("elevation", VInt 3); ("unit_system", VStr "imperial");
                        ("time_zone", VStr "UTC")]))))
           eq_refl eq_refl).
Defined.

(** A provider the auth package cannot load: the exception leaves the call,
    and [opp] is as it was, without a manager and with nothing applied. *)
Example unloadable_provider_leaves_no_manager :
  process_example (Some new_york)
    (VDict [("latitude", VInt 52);
            ("auth_providers", VList [VDict [("type", VStr "ldap")]])])
  = (starting_opp, Raises ImportError).
Proof. reflexivity. Qed.

Lemma explicit_location_witness :
  latitude (opp_config (fst (process_example (Some new_york) located_core)))
  = VInt 52.
Proof.
  refine (proj1 (explicit_location_settings_win ha_constants example_core_schema
                   example_customize_schema example_get_time_zone
                   (VStr "/config/www") (Some new_york) example_elevation
                   example_auth_manager located_core VNone VNone starting_opp
                   (fst (process_example (Some new_york) located_core))
                   (with_default "packages"
                      (with_default "customize_glob"
                         (with_default "customize_domain"
                            (with_default "customize"
                               [("latitude", VInt 52); ("longitude", VInt 5)]))))
                   _ _) (VInt 52) _ _);
    vm_compute; reflexivity.
Defined.

Lemma failed_location_lookup_witness :
  opp_config (fst (Core.auto_detect ha_constants example_get_time_zone None
                     example_elevation latitude_only_opp))
  = opp_config latitude_only_opp
  /\ lookups (fst (Core.auto_detect ha_constants example_get_time_zone None
                     example_elevation latitude_only_opp))
     = lookups latitude_only_opp ++ [DetectLocationInfo].
Proof.
  apply (proj2 (proj2 (proj2 (proj2 (proj2 (proj2
           (failed_location_lookup_changes_nothing ha_constants
              example_get_time_zone example_elevation latitude_only_opp _ _
              (surjective_pairing _)))))))).
  reflexivity.
Defined.

Lemma detection_takes_unset_fields_witness :
  latitude (opp_config (fst (Core.auto_detect ha_constants example_get_time_zone
                               (Some new_york) example_elevation starting_opp)))
  = VInt 40
  /\ longitude (opp_config (fst (Core.auto_detect ha_constants
                                   example_get_time_zone (Some new_york)
                                   example_elevation starting_opp)))
     = VInt (-73).
Proof.
  apply (proj1 (proj2 (detection_takes_unset_fields_from_the_lookup ha_constants
                         example_get_time_zone example_elevation new_york
                         starting_opp _ _ eq_refl (surjective_pairing _))));
    reflexivity.
Defined.

(** With only a latitude configured the lookup's coordinates are not
    taken: the longitude stays missing and no elevation is looked up. *)
Example half_a_position_is_left_alone :
  opp_config (fst (Core.auto_detect ha_constants example_get_time_zone
                     (Some new_york) example_elevation latitude_only_opp))
  = {| latitude := VInt 52; longitude := VNone; elevation := VNone;
       location_name := VStr "Testville"; time_zone := Some "America/New_York";
       units := Some IMPERIAL_SYSTEM; whitelist_external_dirs := [] |}.
Proof. reflexivity. Qed.

End CoreMore.
